(** * Mimi vs Math: procedural sound-effect generator

    A shallow embedding of [tools/generate_audio.py]: the oscillator bank,
    the FM synthesiser, the ADSR envelope, the one-pole lowpass, the
    Schroeder reverb, the combinators, the WAV exporter, the recipes and
    the batch loop, followed by the properties of the specification.

    Number model.  A Python [float] is a real number of [R]: arithmetic is
    exact, there is no rounding, no overflow, no infinity and no NaN.  A
    Python [int] is a [Z].  A one-dimensional [numpy] array of floats is a
    [list R].  Python exceptions are the [Raise] outcomes of [result]; a
    function of the source that can raise returns a [result].  Two more
    outcomes mark where a run would leave the model without raising: a NaN
    produced by numpy, and a read of an [np.empty] cell that was never
    assigned.

    Where a property is about the range of a double itself, module [F64]
    reads the lines concerned over binary64, the kernel's primitive
    floats, with the sine and exponential of the C library as
    parameters. *)

From Stdlib Require Import Floats Uint63.
From Stdlib Require Import String.
From Stdlib Require Import Reals Lra Lia ZArith List Bool.
Import ListNotations.
Open Scope R_scope.
Set Warnings "-inexact-float".

(** ** Outcomes of Python calls *)

Inductive exn : Type :=
| ValueError          (* numpy: negative dimension, shape mismatch, empty reduction *)
| ZeroDivisionError   (* Python float division or modulo by zero *)
| IndexError          (* index outside an array *)
| OSError             (* the destination file cannot be written *)
| InvalidValue        (* numpy yields NaN here: outside the number model *)
| Uninitialised       (* a cell of [np.empty] read before any assignment *)
| OverflowError.      (* [int] of an infinite float *)

Inductive result (A : Type) : Type :=
| Ok (a : A)
| Raise (e : exn).

Arguments Ok {A} a.
Arguments Raise {A} e.

Definition bind {A B : Type} (m : result A) (k : A -> result B) : result B :=
  match m with
  | Ok a => k a
  | Raise e => Raise e
  end.

Notation "x <- m ;; k" := (bind m (fun x => k))
  (at level 61, m at next level, right associativity).
Notation "' pat <- m ;; k" := (bind m (fun x => match x with pat => k end))
  (at level 61, pat pattern, m at next level, right associativity).

(** ** Python scalars *)

(** [int(x)] on a float truncates toward zero. *)
Definition py_int (x : R) : Z :=
  if Rle_dec 0 x then Zfloor x else Zceil x.

(** Python float division raises on a zero divisor. *)
Definition py_div (x y : R) : result R :=
  if Req_dec_T y 0 then Raise ZeroDivisionError else Ok (x / y).

(** Python integer [%]: the sign follows the divisor, zero divisor raises. *)
Definition py_imod (x y : Z) : result Z :=
  if (y =? 0)%Z then Raise ZeroDivisionError else Ok (x mod y)%Z.

(** [range(start, stop, step)] for a positive step. *)
Definition py_range (start stop step : Z) : list Z :=
  map (fun i => (start + step * Z.of_nat i)%Z)
      (seq 0 (Z.to_nat ((stop - start + step - 1) / step))).

(** Python's [round]: to the nearest integer, halves to the even one. *)
Definition py_round (x : R) : Z :=
  let f := Zfloor x in
  if Rlt_dec (x - IZR f) (1 / 2) then f
  else if Rlt_dec (1 / 2) (x - IZR f) then (f + 1)%Z
  else if Z.even f then f else (f + 1)%Z.

(** ** The part of numpy the generator uses *)

Module np.

Definition pi : R := PI.

(** Array creation refuses a negative length. *)
Definition full (n : Z) (v : R) : result (list R) :=
  if (n <? 0)%Z then Raise ValueError else Ok (repeat v (Z.to_nat n)).

Definition zeros (n : Z) : result (list R) := full n 0.

Definition zeros_like (a : list R) : list R := repeat 0 (length a).

Definition arange (n : Z) : list Z := map Z.of_nat (seq 0 (Z.to_nat n)).

Fixpoint cumsum_from (acc : R) (a : list R) : list R :=
  match a with
  | [] => []
  | x :: t => (acc + x) :: cumsum_from (acc + x) t
  end.

Definition cumsum (a : list R) : list R := cumsum_from 0 a.

(** [linspace(start, stop, num, endpoint)]: [num] evenly spaced samples;
    with [endpoint] the last one is [stop] itself. *)
Definition linspace_list (start stop : R) (num : Z) (endpoint : bool)
  : list R :=
  let div := if endpoint then (num - 1)%Z else num in
  let step := (stop - start) / IZR div in
  map (fun k =>
         if endpoint && (1 <? num)%Z && (k =? num - 1)%Z then stop
         else IZR k * step + start)
      (arange num).

Definition linspace (start stop : R) (num : Z) (endpoint : bool)
  : result (list R) :=
  if (num <? 0)%Z then Raise ValueError
  else Ok (linspace_list start stop num endpoint).

(** Elementwise binary operation with the broadcasting of one-dimensional
    arrays: equal lengths, or one operand of length one. *)
Definition broadcast (op : R -> R -> R) (a b : list R) : result (list R) :=
  if (length a =? length b)%nat
  then Ok (map (fun p => op (fst p) (snd p)) (combine a b))
  else match a, b with
       | [x], _ => Ok (map (fun y => op x y) b)
       | _, [y] => Ok (map (fun x => op x y) a)
       | _, _ => Raise ValueError
       end.

Definition add : list R -> list R -> result (list R) := broadcast Rplus.
Definition mul : list R -> list R -> result (list R) := broadcast Rmult.

(** In-place [a += b]: [b] must broadcast to the shape of [a]. *)
Definition iadd (a b : list R) : result (list R) :=
  if (length a =? length b)%nat
  then Ok (map (fun p => fst p + snd p) (combine a b))
  else match b with
       | [y] => Ok (map (fun x => x + y) a)
       | _ => Raise ValueError
       end.

(** [x ** y] on floats.  A negative base with a fractional exponent is NaN
    in numpy; the exponents of this program are 0.5, 1.4 and 1.6. *)
Definition pow_nonneg (x y : R) : R :=
  if Req_dec_T x 0 then (if Req_dec_T y 0 then 1 else 0) else Rpower x y.

Definition float_power (x y : R) : result R :=
  if Rlt_dec x 0 then Raise InvalidValue else Ok (pow_nonneg x y).

Fixpoint power (a : list R) (y : R) : result (list R) :=
  match a with
  | [] => Ok []
  | x :: t =>
      v <- float_power x y ;;
      r <- power t y ;;
      Ok (v :: r)
  end.

(** [x % m] on float arrays ([np.remainder]): the result has the sign of
    [m]. *)
Definition remainder (x m : R) : R := x - m * IZR (Zfloor (x / m)).

(** [np.max] of an empty array raises. *)
Definition max (a : list R) : result R :=
  match a with
  | [] => Raise ValueError
  | x :: t => Ok (fold_left Rmax t x)
  end.

Definition clip (x lo hi : R) : R := Rmin (Rmax x lo) hi.

End np.

(** ** Config *)

Definition SR : Z := 44100.
Definition VOLUME : R := 0.82.

(** ** MIDI helpers *)

Definition hz (midi : Z) : R := 440.0 * Rpower 2 (IZR (midi - 69) / 12).

Definition G2 : Z := 43.
Definition A2 : Z := 45.
Definition B2 : Z := 47.
Definition C3 : Z := 48.
Definition D3 : Z := 50.
Definition E3 : Z := 52.
Definition F3 : Z := 53.
Definition G3 : Z := 55.
Definition A3 : Z := 57.
Definition B3 : Z := 59.
Definition Bb3 : Z := 58.
Definition C4 : Z := 60.
Definition D4 : Z := 62.
Definition E4 : Z := 64.
Definition F4 : Z := 65.
Definition G4 : Z := 67.
Definition A4 : Z := 69.
Definition B4 : Z := 71.
Definition C5 : Z := 72.
Definition D5 : Z := 74.
Definition E5 : Z := 76.
Definition F5 : Z := 77.
Definition G5 : Z := 79.
Definition A5 : Z := 81.
Definition B5 : Z := 83.
Definition C6 : Z := 84.

(** ** Phase accumulator *)

Definition _n (dur : R) : Z := py_int (IZR SR * dur).

Definition _phase (freq_array : list R) : list R :=
  map (fun c => c / IZR SR * 2 * np.pi) (np.cumsum freq_array).

Definition _const_phase (freq dur : R) : result (list R) :=
  fa <- np.full (_n dur) freq ;;
  Ok (_phase fa).

(** ** Band-limited oscillators *)

Definition _bl_square (phase : list R) (harmonics : Z) : result (list R) :=
  out <- fold_left
           (fun acc k =>
              out <- acc ;;
              np.iadd out (map (fun p => sin (IZR k * p) / IZR k) phase))
           (py_range 1 (harmonics + 1) 2)
           (Ok (np.zeros_like phase)) ;;
  Ok (map (fun v => v * (4 / np.pi)) out).

Definition _bl_sawtooth (phase : list R) (harmonics : Z) : result (list R) :=
  out <- fold_left
           (fun acc k =>
              out <- acc ;;
              np.iadd out
                (map (fun p => (-1) ^ Z.to_nat (k + 1) * sin (IZR k * p) / IZR k)
                     phase))
           (py_range 1 (harmonics + 1) 1)
           (Ok (np.zeros_like phase)) ;;
  Ok (map (fun v => v * (2 / np.pi)) out).

Definition sine (freq dur : R) : result (list R) :=
  ph <- _const_phase freq dur ;;
  Ok (map sin ph).

Definition square (freq dur : R) : result (list R) :=
  ph <- _const_phase freq dur ;;
  _bl_square ph 24.

Definition soft_square (freq dur : R) : result (list R) :=
  ph <- _const_phase freq dur ;;
  _bl_square ph 8.

Definition sawtooth (freq dur : R) : result (list R) :=
  ph <- _const_phase freq dur ;;
  _bl_sawtooth ph 20.

Definition triangle (freq dur : R) : result (list R) :=
  ph <- _const_phase freq dur ;;
  Ok (map (fun p => 2 * Rabs (2 * np.remainder (p / (2 * np.pi)) 1 - 1) - 1) ph).

Definition silence (dur : R) : result (list R) := np.zeros (_n dur).

(** ** The shared pseudorandom stream

    [numpy.random.default_rng] is not part of the repository: a generator is
    any state type with a seeding function and a draw of the next double of
    [0, 1), which returns the advanced state. *)

Class Generator : Type := {
  gen : Type;
  default_rng : Z -> gen;
  random : gen -> R * gen
}.

Section Noise.

Context {G : Generator}.

(** The module-level [rng = np.random.default_rng(42)]. *)
Definition rng : gen := default_rng 42.

Fixpoint uniform_draws (low high : R) (k : nat) (g : gen) : list R * gen :=
  match k with
  | O => ([], g)
  | S k' =>
      let (u, g1) := random g in
      let (rest, g2) := uniform_draws low high k' g1 in
      ((low + (high - low) * u) :: rest, g2)
  end.

(** [rng.uniform(low, high, size)]. *)
Definition uniform (low high : R) (size : Z) (g : gen)
  : result (list R * gen) :=
  if (size <? 0)%Z then Raise ValueError
  else Ok (uniform_draws low high (Z.to_nat size) g).

Definition noise_white (dur : R) (g : gen) : result (list R * gen) :=
  uniform (-1) 1 (_n dur) g.

(** One iteration of the pink filter: the four states, then the output. *)
Definition pink_step (st : R * R * R * R) (x : R) : (R * R * R * R) * R :=
  let '(b0, b1, b2, b3) := st in
  let b0 := 0.99886 * b0 + x * 0.0555179 in
  let b1 := 0.99332 * b1 + x * 0.0750759 in
  let b2 := 0.96900 * b2 + x * 0.1538520 in
  let b3 := 0.86650 * b3 + x * 0.3104856 in
  ((b0, b1, b2, b3), (b0 + b1 + b2 + b3 + x * 0.5329522) * 0.11).

Fixpoint pink_loop (st : R * R * R * R) (w : list R) : list R :=
  match w with
  | [] => []
  | x :: t => let (st', y) := pink_step st x in y :: pink_loop st' t
  end.

Definition noise_pink (dur : R) (g : gen) : result (list R * gen) :=
  '(w, g') <- uniform (-1) 1 (_n dur) g ;;
  Ok (pink_loop (0, 0, 0, 0) w, g').

End Noise.

(** ** FM synthesis *)

Definition fm_tone (carrier_hz dur mod_ratio mod_depth mod_decay : R)
  : result (list R) :=
  let n := _n dur in
  t <- np.linspace 0 dur n false ;;
  rate <- py_div 1.0 (dur * mod_decay + 1e-9) ;;
  let fm_hz := carrier_hz * mod_ratio in
  Ok (map (fun ti =>
             let mod_env := exp (- ti * rate) in
             let mod_ := sin (2 * np.pi * fm_hz * ti) * mod_depth * mod_env in
             sin (2 * np.pi * carrier_hz * ti + mod_))
          t).

Definition fm_pad (carrier_hz dur mod_ratio mod_depth : R)
  : result (list R) :=
  let n := _n dur in
  t <- np.linspace 0 dur n false ;;
  let vibrato := map (fun ti => sin (2 * np.pi * 5.5 * ti) * 0.004 * carrier_hz) t in
  let freq := map (fun v => carrier_hz + v) vibrato in
  let phase := _phase freq in
  fa <- np.full n (carrier_hz * mod_ratio) ;;
  let mod_ph := _phase fa in
  arg <- np.add phase (map (fun p => sin p * mod_depth) mod_ph) ;;
  Ok (map sin arg).

(** ** Slices *)

(** Bounds of [a[lo:hi]] on an array of length [len]: a negative index
    counts from the end, and both ends are clipped to the array. *)
Definition slice_bounds (len lo hi : Z) : Z * Z :=
  let norm := fun i => if (i <? 0)%Z then Z.max (i + len) 0 else Z.min i len in
  (norm lo, norm hi).

(** [a[lo:hi] = v] (with [f] keeping the new value) and [a[lo:hi] += v]
    (with [f] adding): [v] must have the length of the slice or length one. *)
Definition slice_update {A B : Type} (f : A -> B -> A)
    (a : list A) (lo hi : Z) (v : list B) : result (list A) :=
  let '(s, e) := slice_bounds (Z.of_nat (length a)) lo hi in
  let k := Z.to_nat (e - s) in
  let pre := firstn (Z.to_nat s) a in
  let mid := firstn k (skipn (Z.to_nat s) a) in
  let post := skipn (Z.to_nat s + k) a in
  if (length v =? k)%nat
  then Ok (pre ++ map (fun p => f (fst p) (snd p)) (combine mid v) ++ post)
  else match v with
       | [y] => Ok (pre ++ map (fun x => f x y) mid ++ post)
       | _ => Raise ValueError
       end.

(** [a[lo:hi] = y] for a scalar [y]. *)
Definition slice_fill {A B : Type} (f : A -> B -> A)
    (a : list A) (lo hi : Z) (y : B) : list A :=
  let '(s, e) := slice_bounds (Z.of_nat (length a)) lo hi in
  let k := Z.to_nat (e - s) in
  firstn (Z.to_nat s) a
    ++ map (fun x => f x y) (firstn k (skipn (Z.to_nat s) a))
    ++ skipn (Z.to_nat s + k) a.

Definition store (_ : option R) (y : R) : option R := Some y.

(** ** Envelope *)

(** [np.empty(n)]: no cell holds a value yet. *)
Definition empty (n : nat) : list (option R) := repeat None n.

Fixpoint read_all (env : list (option R)) : result (list R) :=
  match env with
  | [] => Ok []
  | Some x :: t => r <- read_all t ;; Ok (x :: r)
  | None :: _ => Raise Uninitialised
  end.

(** The stage lengths and the bounds of the sustain region, for a buffer
    of [n] samples: [(a, d, r, s_start, s_end)]. *)
Definition adsr_stages (n : Z) (attack decay release : R)
  : Z * Z * Z * Z * Z :=
  let a := Z.min (py_int (attack * IZR SR)) n in
  let d := Z.min (py_int (decay * IZR SR)) (n - a) in
  let r := Z.min (py_int (release * IZR SR)) n in
  let s_start := (a + d)%Z in
  let s_end := Z.max (n - r) s_start in
  (a, d, r, s_start, s_end).

(** The envelope array of [adsr] after its four assignments. *)
Definition adsr_env (len : nat) (attack decay sustain release : R)
  : result (list (option R)) :=
  let n := Z.of_nat len in
  let env := empty len in
  let '(a, d, r, s_start, s_end) := adsr_stages n attack decay release in
  env <- (if (a =? 0)%Z then Ok env else
            ramp <- np.linspace 0 1 a true ;;
            seg <- np.power ramp 0.5 ;;
            slice_update store env 0 a seg) ;;
  env <- (if (d =? 0)%Z then Ok env else
            ramp <- np.linspace 1 sustain d true ;;
            seg <- np.power ramp 1.4 ;;
            slice_update store env a (a + d) seg) ;;
  let env := slice_fill store env s_start s_end sustain in
  (if (r =? 0)%Z then Ok env else
     let rem := Z.min r (n - s_end) in
     ramp <- np.linspace sustain 0 rem true ;;
     seg <- np.power ramp 1.6 ;;
     slice_update store env s_end (s_end + rem) seg).

Definition adsr (sig : list R) (attack decay sustain release : R)
  : result (list R) :=
  env <- adsr_env (length sig) attack decay sustain release ;;
  e <- read_all env ;;
  np.mul sig e.

(** ** Filtering *)

Fixpoint lowpass_loop (alpha y : R) (sig : list R) : list R :=
  match sig with
  | [] => []
  | x :: t => let y := y + alpha * (x - y) in y :: lowpass_loop alpha y t
  end.

Definition lowpass_fast (sig : list R) (cutoff_hz : R) : result (list R) :=
  rc <- py_div 1.0 (2 * np.pi * cutoff_hz) ;;
  inv_sr <- py_div 1.0 (IZR SR) ;;
  alpha <- py_div inv_sr (rc + inv_sr) ;;
  Ok (lowpass_loop alpha 0.0 sig).

(** ** Reverb *)

(** [a[i]] and [a[i] = v] for an integer index: a negative index counts
    from the end, an index outside the array raises. *)
Definition getitem (a : list R) (i : Z) : result R :=
  let n := Z.of_nat (length a) in
  let j := if (i <? 0)%Z then (i + n)%Z else i in
  if (j <? 0)%Z || (n <=? j)%Z then Raise IndexError
  else Ok (nth (Z.to_nat j) a 0).

Definition setitem (a : list R) (i : Z) (v : R) : result (list R) :=
  let n := Z.of_nat (length a) in
  let j := if (i <? 0)%Z then (i + n)%Z else i in
  if (j <? 0)%Z || (n <=? j)%Z then Raise IndexError
  else Ok (firstn (Z.to_nat j) a ++ v :: skipn (S (Z.to_nat j)) a).

Fixpoint comb_loop (damping fb : R) (delay : Z) (sig buf : list R)
    (filt : R) (pos : Z) : result (list R) :=
  match sig with
  | [] => Ok []
  | x :: t =>
      input_s <- getitem buf pos ;;
      let filt := input_s * (1 - damping) + filt * damping in
      buf <- setitem buf pos (x + filt * fb) ;;
      pos <- py_imod (pos + 1) delay ;;
      cb <- comb_loop damping fb delay t buf filt pos ;;
      Ok (input_s :: cb)
  end.

Fixpoint allpass_loop (delay : Z) (out buf : list R) (pos : Z)
  : result (list R) :=
  match out with
  | [] => Ok []
  | x :: t =>
      bv <- getitem buf pos ;;
      buf <- setitem buf pos (x + bv * 0.5) ;;
      pos <- py_imod (pos + 1) delay ;;
      ap <- allpass_loop delay t buf pos ;;
      Ok ((bv - x * 0.5) :: ap)
  end.

Definition comb_delays (room : R) : list Z :=
  [ py_int (0.0297 * IZR SR * (0.9 + 0.2 * room));
    py_int (0.0371 * IZR SR * (0.9 + 0.2 * room));
    py_int (0.0411 * IZR SR * (0.9 + 0.2 * room));
    py_int (0.0437 * IZR SR * (0.9 + 0.2 * room)) ].

Definition ap_delays : list Z :=
  [ py_int (0.0051 * IZR SR); py_int (0.0127 * IZR SR) ].

Definition reverb (sig : list R) (room wet damping : R) : result (list R) :=
  let n := Z.of_nat (length sig) in
  let fb := 0.55 + 0.40 * room in
  out <- fold_left
           (fun acc delay =>
              out <- acc ;;
              buf <- np.zeros delay ;;
              cb <- comb_loop damping fb delay sig buf 0.0 0 ;;
              np.iadd out cb)
           (comb_delays room) (np.zeros n) ;;
  out <- fold_left
           (fun acc delay =>
              out <- acc ;;
              buf <- np.zeros delay ;;
              allpass_loop delay out buf 0)
           ap_delays (Ok out) ;;
  let out := map (fun v => v / (INR (length (comb_delays room)) + 1e-9)) out in
  np.add (map (fun s => s * (1 - wet)) sig) (map (fun o => o * wet) out).

Definition light_reverb (sig : list R) (wet : R) : result (list R) :=
  reverb sig 0.25 wet 0.50.

Definition hall_reverb (sig : list R) (wet : R) : result (list R) :=
  reverb sig 0.55 wet 0.35.

(** ** Pitch-sweep note and note helpers *)

Definition scale (a : list R) (c : R) : list R := map (fun x => x * c) a.

Definition sweep_note (freq_start freq_end dur attack decay_t sustain release amp : R)
  : result (list R) :=
  let n := _n dur in
  t <- np.linspace 0 1 n false ;;
  let freq_arr := map (fun ti => freq_start + (freq_end - freq_start) * ti) t in
  let phase := _phase freq_arr in
  let sig := map sin phase in
  e <- adsr sig attack decay_t sustain release ;;
  Ok (scale e amp).

Definition note (osc : R -> R -> result (list R))
    (freq dur attack decay sustain release amp : R) : result (list R) :=
  s <- osc freq dur ;;
  e <- adsr s attack decay sustain release ;;
  Ok (scale e amp).

Definition fm_note (freq dur mod_ratio mod_depth mod_decay
                    attack decay_t sustain release amp : R)
  : result (list R) :=
  s <- fm_tone freq dur mod_ratio mod_depth mod_decay ;;
  e <- adsr s attack decay_t sustain release ;;
  Ok (scale e amp).

(** ** Mixing helpers *)

Definition overlay (arrays : list (list R)) : result (list R) :=
  match arrays with
  | [] => Raise ValueError
  | a0 :: rest =>
      let n := fold_left Nat.max (map (@length R) rest) (length a0) in
      fold_left
        (fun acc a =>
           out <- acc ;;
           slice_update Rplus out 0 (Z.of_nat (length a)) a)
        arrays (np.zeros (Z.of_nat n))
  end.

Definition concat (arrays : list (list R)) : result (list R) :=
  match arrays with
  | [] => Raise ValueError
  | _ => Ok (List.concat arrays)
  end.

(** ** WAV export *)

(** What [wave] is given: the three parameters and the frame bytes. *)
Record wav : Type := {
  nchannels : Z;
  sampwidth : Z;
  framerate : Z;
  frames : list Z
}.

(** The output directory: which names can be created and written, and
    the files written so far (the latest first). *)
Record disk : Type := {
  writable : string -> bool;
  files : list (string * wav)
}.

(** [astype(np.int16)]: truncation, then the 16-bit two's complement wrap. *)
Definition astype_int16 (x : R) : Z :=
  ((py_int x + 32768) mod 65536 - 32768)%Z.

(** [tobytes] of one 16-bit sample, little-endian. *)
Definition int16_bytes (v : Z) : list Z :=
  let u := (v mod 65536)%Z in
  [Z.land u 255; Z.shiftr u 8].

(** The normalise and quantise lines of [save]. *)
Definition save_pcm (samples : list R) : result (list Z) :=
  peak <- np.max (map Rabs samples) ;;
  let samples :=
    if Rlt_dec 0 peak then map (fun x => x / peak * VOLUME) samples
    else samples in
  Ok (map (fun x => astype_int16 (np.clip (x * 32767) (-32767) 32767)) samples).

(** [save] on an output directory that is in place: the file is written
    whole or not opened at all.  [Fs.save] further down follows
    [OUT_DIR.mkdir] and a write that fails part-way as well.  The line
    printed on success is not modelled. *)
Definition save (filename : string) (samples : list R) (dk : disk)
  : result disk :=
  pcm <- save_pcm samples ;;
  if writable dk filename
  then Ok {| writable := writable dk;
             files := (filename,
                       {| nchannels := 1; sampwidth := 2; framerate := SR;
                          frames := flat_map int16_bytes pcm |}) :: files dk |}
  else Raise OSError.

(** [np.interp(x, xp, fp)]: piecewise linear through the points, constant
    outside them. *)
Fixpoint interp_from (x x0 y0 : R) (pts : list (R * R)) : R :=
  match pts with
  | [] => y0
  | (x1, y1) :: rest =>
      if Rle_dec x x1 then (y1 - y0) / (x1 - x0) * (x - x0) + y0
      else interp_from x x1 y1 rest
  end.

Definition interp (x : R) (xp fp : list R) : R :=
  match combine xp fp with
  | [] => 0
  | (x0, y0) :: rest => if Rle_dec x x0 then y0 else interp_from x x0 y0 rest
  end.

(** ** Sound definitions

    A recipe takes the state of the shared generator and returns its
    buffer with the state it leaves behind. *)

Section Recipes.

Context {G : Generator}.

Definition recipe : Type := gen -> result (list R * gen).

Definition sfx_correct : recipe := fun g =>
  let kw := fun f d => fm_note f d 3.0 1.8 0.9 0.005 0.04 0.72 0.07 1.0 in
  n0 <- kw (hz C5) 0.13 ;;
  n1 <- kw (hz E5) 0.13 ;;
  n2 <- kw (hz G5) 0.13 ;;
  n3 <- fm_note (hz C6) 0.22 2.5 1.4 1.2 0.007 0.06 0.78 0.12 1.0 ;;
  sq <- soft_square (hz C6 * 2) 0.22 ;;
  shimmer <- adsr (scale sq 0.08) 0.02 0.04 0.3 0.14 ;;
  ov <- overlay [n3; shimmer] ;;
  seq <- concat [n0; n1; n2; ov] ;;
  out <- light_reverb seq 0.28 ;;
  Ok (out, g).

Definition sfx_wrong : recipe := fun g =>
  bend <- sweep_note (hz Bb3 * 1.07) (hz G3 * 0.85) 0.28
            0.005 0.08 0.45 0.12 1.0 ;;
  clash <- sweep_note (hz B3 * 1.05) (hz G3) 0.22
             0.010 0.07 0.35 0.10 0.45 ;;
  '(pk, g) <- noise_pink 0.18 g ;;
  thud <- adsr (scale pk 0.50) 0.002 0.09 0.08 0.08 ;;
  mix <- overlay [bend; clash; thud] ;;
  rv <- light_reverb mix 0.18 ;;
  out <- lowpass_fast rv 2800 ;;
  Ok (out, g).

Definition sfx_click : recipe := fun g =>
  let dur := 0.065 in
  body <- fm_note (hz A5) dur 5.5 3.0 0.12 0.001 0.012 0.10 0.035 1.0 ;;
  '(pk, g) <- noise_pink dur g ;;
  tick <- adsr (scale pk 0.55) 0.001 0.010 0.00 0.025 ;;
  mix <- np.add body tick ;;
  out <- lowpass_fast mix 8000 ;;
  Ok (out, g).

Definition sfx_hit_enemy : recipe := fun g =>
  body <- sweep_note (hz G4 * 1.25) (hz G4 * 0.70) 0.09
            0.002 0.032 0.18 0.04 1.0 ;;
  bite <- fm_note (hz G4) 0.07 4.0 3.5 0.15 0.001 0.025 0.05 0.03 0.55 ;;
  '(pk, g) <- noise_pink 0.06 g ;;
  crack <- adsr (scale pk 0.70) 0.001 0.022 0.00 0.025 ;;
  mix <- overlay [body; bite; crack] ;;
  rv <- light_reverb mix 0.14 ;;
  out <- lowpass_fast rv 7000 ;;
  Ok (out, g).

Definition sfx_hit_player : recipe := fun g =>
  thud <- fm_note (hz D3 * 0.88) 0.16 1.5 4.0 0.25 0.003 0.06 0.28 0.08 0.75 ;;
  s <- sine (hz G2) 0.16 ;;
  sub <- adsr (scale s 0.45) 0.003 0.05 0.22 0.09 ;;
  '(pk, g) <- noise_pink 0.08 g ;;
  snap <- adsr (scale pk 0.80) 0.001 0.035 0.05 0.04 ;;
  mix <- overlay [thud; sub; snap] ;;
  rv <- light_reverb mix 0.22 ;;
  out <- lowpass_fast rv 5500 ;;
  Ok (out, g).

Definition sfx_chest_open : recipe := fun g =>
  let kw := fun f d => fm_note f d 2.0 0.8 0.8 0.006 0.06 0.65 0.14 1.0 in
  c4 <- kw (hz C4) 0.14 ;;
  e4 <- kw (hz E4) 0.14 ;;
  g4 <- kw (hz G4) 0.14 ;;
  c5 <- kw (hz C5) 0.14 ;;
  e5 <- fm_note (hz E5) 0.28 2.0 0.6 1.2 0.008 0.08 0.78 0.22 1.0 ;;
  let notes := [c4; e4; g4; c5; e5] in
  tr <- triangle (hz C6) 0.30 ;;
  sparkle <- adsr (scale tr 0.15) 0.025 0.10 0.35 0.18 ;;
  seq <- concat notes ;;
  let pad := (0 + _n 0.14 + _n 0.14 + _n 0.14 + _n 0.14)%Z in
  let out := seq in
  let end_ := (pad + Z.of_nat (length sparkle))%Z in
  out <- (if (end_ <=? Z.of_nat (length out))%Z
          then slice_update Rplus out pad end_ sparkle
          else Ok out) ;;
  out <- hall_reverb out 0.38 ;;
  Ok (out, g).

Definition sfx_battle_start : recipe := fun g =>
  root <- fm_note (hz G3) 0.22 1.0 2.5 0.4 0.008 0.06 0.65 0.10 0.60 ;;
  fifth <- fm_note (hz D4) 0.22 1.0 2.0 0.4 0.010 0.06 0.55 0.10 0.45 ;;
  s <- sine (hz G2) 0.18 ;;
  '(pk, g) <- noise_pink 0.07 g ;;
  ov <- overlay [scale s 0.80; scale pk 0.60] ;;
  kick <- adsr ov 0.002 0.07 0.12 0.10 ;;
  sting <- fm_note (hz G5) 0.16 2.0 1.8 0.3 0.003 0.04 0.40 0.09 1.0 ;;
  body <- overlay [root; fifth; kick] ;;
  sil <- silence 0.025 ;;
  seq <- concat [body; sil; sting] ;;
  out <- light_reverb seq 0.25 ;;
  Ok (out, g).

(** The tail shared by [sfx_victory] and [sfx_level_up]: the melody and two
    pads laid into a zero buffer from [pad_start] on. *)
Definition lay_pads (seq : list R) (pad_start : Z) (p1 p2 : list R)
  : result (list R) :=
  let total := Z.max (Z.of_nat (length seq))
                     (pad_start + Z.of_nat (length p1)) in
  full <- np.zeros total ;;
  full <- slice_update Rplus full 0 (Z.of_nat (length seq)) seq ;;
  full <- slice_update Rplus full pad_start
            (pad_start + Z.of_nat (length p1)) p1 ;;
  slice_update Rplus full pad_start (pad_start + Z.of_nat (length p2)) p2.

Definition sfx_victory : recipe := fun g =>
  let kw := fun f d => fm_note f d 3.5 1.2 1.0 0.007 0.05 0.72 0.12 1.0 in
  let kw2 := fun f d => fm_note f d 3.5 0.9 1.4 0.008 0.07 0.80 0.22 1.0 in
  m0 <- kw (hz C4) 0.10 ;;
  m1 <- kw (hz E4) 0.10 ;;
  m2 <- kw (hz G4) 0.10 ;;
  s0 <- silence 0.030 ;;
  m3 <- kw (hz G4) 0.09 ;;
  m4 <- kw (hz C5) 0.09 ;;
  s1 <- silence 0.018 ;;
  m5 <- kw2 (hz C5) 0.26 ;;
  seq <- concat [m0; m1; m2; s0; m3; m4; s1; m5] ;;
  let pad_start := (_n 0.10 * 3 + _n 0.030 + _n 0.09 * 2 + _n 0.018)%Z in
  he <- kw2 (hz E5) 0.26 ;;
  let harm_e := scale he 0.45 in
  hg <- kw2 (hz G5) 0.26 ;;
  let harm_g := scale hg 0.35 in
  full <- lay_pads seq pad_start harm_e harm_g ;;
  out <- hall_reverb full 0.36 ;;
  Ok (out, g).

Definition sfx_boss_intro : recipe := fun g =>
  low <- fm_pad (hz G2) 0.50 1.5 1.6 ;;
  low <- adsr low 0.18 0.09 0.70 0.14 ;;
  let low := scale low 0.60 in
  fifth <- fm_pad (hz D3) 0.50 1.5 1.4 ;;
  fifth <- adsr fifth 0.20 0.09 0.62 0.14 ;;
  let fifth := scale fifth 0.50 in
  '(pk, g) <- noise_pink 0.22 g ;;
  lp <- lowpass_fast (scale pk 1.0) 1800 ;;
  crack <- adsr lp 0.001 0.07 0.06 0.14 ;;
  sting <- fm_note (hz G5) 0.14 2.0 2.2 0.25 0.003 0.04 0.35 0.09 1.0 ;;
  swell <- overlay [low; fifth; crack] ;;
  sil <- silence 0.025 ;;
  seq <- concat [swell; sil; sting] ;;
  out <- hall_reverb seq 0.45 ;;
  Ok (out, g).

Definition sfx_page_turn : recipe := fun g =>
  let n := _n 0.16 in
  t <- np.linspace 0 1 n true ;;
  let freq_env := map (fun ti => interp ti [0; 0.3; 1.0] [300; 1400; 600]) t in
  let phase := _phase freq_env in
  '(pk, g) <- noise_pink 0.16 g ;;
  sweep <- np.add (scale (map sin phase) 0.35) (scale pk 0.42) ;;
  sweep <- adsr sweep 0.010 0.055 0.22 0.08 ;;
  sweep <- lowpass_fast sweep 4500 ;;
  ft <- fm_tone (hz A5) 0.12 4.0 0.6 1.5 ;;
  chime <- adsr (scale ft 0.55) 0.004 0.03 0.45 0.10 ;;
  out <- np.zeros (Z.of_nat (Nat.max (length sweep) (length chime))) ;;
  out <- slice_update Rplus out 0 (Z.of_nat (length sweep)) sweep ;;
  out <- slice_update Rplus out 0 (Z.of_nat (length chime)) chime ;;
  out <- light_reverb out 0.20 ;;
  Ok (out, g).

Definition sfx_level_up : recipe := fun g =>
  let kw := fun f d => fm_note f d 3.0 1.4 0.9 0.006 0.05 0.72 0.10 1.0 in
  let kw2 := fun f d => fm_note f d 2.5 1.0 1.5 0.006 0.06 0.82 0.22 1.0 in
  m0 <- kw (hz C4) 0.08 ;;
  m1 <- kw (hz G4) 0.08 ;;
  m2 <- kw (hz E5) 0.08 ;;
  m3 <- kw (hz C5) 0.08 ;;
  s0 <- silence 0.025 ;;
  m4 <- kw (hz C5) 0.08 ;;
  m5 <- kw (hz E5) 0.08 ;;
  m6 <- kw2 (hz G5) 0.28 ;;
  seq <- concat [m0; m1; m2; m3; s0; m4; m5; m6] ;;
  let pad_start := (_n 0.08 * 6 + _n 0.025)%Z in
  pg <- fm_pad (hz G5) 0.36 1.5 0.7 ;;
  pad_g <- adsr (scale pg 0.35) 0.04 0.05 0.70 0.20 ;;
  pe <- fm_pad (hz E5) 0.36 1.5 0.7 ;;
  pad_e <- adsr (scale pe 0.28) 0.04 0.05 0.60 0.20 ;;
  full <- lay_pads seq pad_start pad_g pad_e ;;
  out <- hall_reverb full 0.33 ;;
  Ok (out, g).

Definition sfx_npc_talk : recipe := fun g =>
  let kw := fun f d => fm_note f d 3.5 0.8 0.6 0.004 0.020 0.55 0.06 1.0 in
  b0 <- kw (hz E5) 0.07 ;;
  sil <- silence 0.020 ;;
  b1 <- kw (hz G5) 0.07 ;;
  seq <- concat [b0; sil; scale b1 0.90] ;;
  out <- light_reverb seq 0.18 ;;
  Ok (out, g).

Definition sfx_damage_critical : recipe := fun g =>
  boom <- sweep_note (hz D3) (hz G2 * 0.65) 0.22
            0.003 0.07 0.32 0.10 0.75 ;;
  body <- fm_note (hz D3 * 0.80) 0.20 1.2 5.0 0.3 0.002 0.06 0.22 0.12 0.55 ;;
  '(pk, g) <- noise_pink 0.18 g ;;
  lp <- lowpass_fast (scale pk 1.0) 3500 ;;
  blast <- adsr lp 0.001 0.055 0.12 0.10 ;;
  ft <- fm_tone (hz G4) 0.14 6.0 4.0 0.2 ;;
  ring <- adsr (scale ft 0.30) 0.001 0.035 0.10 0.09 ;;
  mix <- overlay [boom; body; blast; ring] ;;
  out <- light_reverb mix 0.28 ;;
  Ok (out, g).

(** ** Manifest, in the order of the dictionary *)

Definition SOUNDS : list (string * recipe) :=
  [ ("sfx_correct.wav"%string, sfx_correct);
    ("sfx_wrong.wav"%string, sfx_wrong);
    ("sfx_click.wav"%string, sfx_click);
    ("sfx_hit_enemy.wav"%string, sfx_hit_enemy);
    ("sfx_hit_player.wav"%string, sfx_hit_player);
    ("sfx_chest_open.wav"%string, sfx_chest_open);
    ("sfx_battle_start.wav"%string, sfx_battle_start);
    ("sfx_victory.wav"%string, sfx_victory);
    ("sfx_boss_intro.wav"%string, sfx_boss_intro);
    ("sfx_page_turn.wav"%string, sfx_page_turn);
    ("sfx_level_up.wav"%string, sfx_level_up);
    ("sfx_npc_talk.wav"%string, sfx_npc_talk);
    ("sfx_damage_critical.wav"%string, sfx_damage_critical) ].

(** ** The batch loop

    An exception is not caught anywhere: it ends the run.  The outcome is
    the directory as the run leaves it and, when the loop finishes, the
    state of the generator. *)

Fixpoint main_loop (sounds : list (string * recipe)) (g : gen) (dk : disk)
  : disk * result gen :=
  match sounds with
  | [] => (dk, Ok g)
  | (filename, fn) :: rest =>
      match fn g with
      | Raise e => (dk, Raise e)
      | Ok (samples, g') =>
          match save filename samples dk with
          | Raise e => (dk, Raise e)
          | Ok dk' => main_loop rest g' dk'
          end
      end
  end.

Definition main (dk : disk) : disk * result gen := main_loop SOUNDS rng dk.

End Recipes.

(** ** Definitions used by the statements *)

(** The sum of a list of reals. *)
Definition Rsum (l : list R) : R := fold_right Rplus 0 l.

(** The largest absolute value of a list of integers, zero when empty. *)
Definition peak_abs (l : list Z) : Z := fold_right (fun v m => Z.max (Z.abs v) m) 0%Z l.

(** A small linear congruential generator, to run the noise functions on
    concrete inputs. *)
Definition lcg_next (s : Z) : Z := ((1103515245 * s + 12345) mod 2147483648)%Z.

#[export] Instance lcg : Generator := {|
  gen := Z;
  default_rng := fun seed => seed;
  random := fun s => (IZR (lcg_next s) / 2147483648, lcg_next s)
|}.

(** The first [k] doubles a generator state will deliver. *)
Fixpoint draws {G : Generator} (k : nat) (g : gen) : list R :=
  match k with
  | O => []
  | S k' => let (u, g1) := random g in u :: draws k' g1
  end.

(** All eight duration-driven primitives return a buffer of [n] samples;
    all eight raise [e]. *)
Definition primitives_return {G : Generator} (f d : R) (g : gen) (n : nat)
  : Prop :=
  (exists b, sine f d = Ok b /\ length b = n) /\
  (exists b, square f d = Ok b /\ length b = n) /\
  (exists b, soft_square f d = Ok b /\ length b = n) /\
  (exists b, sawtooth f d = Ok b /\ length b = n) /\
  (exists b, triangle f d = Ok b /\ length b = n) /\
  (exists b g', noise_white d g = Ok (b, g') /\ length b = n) /\
  (exists b g', noise_pink d g = Ok (b, g') /\ length b = n) /\
  (exists b, silence d = Ok b /\ length b = n).

Definition primitives_raise {G : Generator} (f d : R) (g : gen) (e : exn)
  : Prop :=
  sine f d = Raise e /\
  square f d = Raise e /\
  soft_square f d = Raise e /\
  sawtooth f d = Raise e /\
  triangle f d = Raise e /\
  noise_white d g = Raise e /\
  noise_pink d g = Raise e /\
  silence d = Raise e.

(** A directory where only the first file of the manifest cannot be
    written. *)
Definition locked_disk : disk :=
  {| writable := fun name => negb (String.eqb name "sfx_correct.wav");
     files := [] |}.

(** One shaped ramp of the envelope, and the whole envelope curve: attack,
    decay, sustain and release laid end to end. *)
Definition ramp_curve (start stop : R) (num : Z) (p : R) : list R :=
  map (fun x => np.pow_nonneg x p) (np.linspace_list start stop num true).

Definition envelope_curve (len : nat) (attack decay sustain release : R)
  : list R :=
  let n := Z.of_nat len in
  let '(a, d, r, s_start, s_end) := adsr_stages n attack decay release in
  ramp_curve 0 1 a 0.5
    ++ ramp_curve 1 sustain d 1.4
    ++ repeat sustain (Z.to_nat (s_end - s_start))
    ++ ramp_curve sustain 0 (n - s_end) 1.6.

(** The state of a generator after [k] draws. *)
Fixpoint advance {G : Generator} (k : nat) (g : gen) : gen :=
  match k with
  | O => g
  | S k' => advance k' (snd (random g))
  end.

(** An output directory where every write succeeds, with no file yet. *)
Definition fresh_disk : disk := {| writable := fun _ => true; files := [] |}.

(** The buffer of a noise call or a recipe, without the generator state. *)
Definition buffer_of {G : Generator} (r : result (list R * gen))
  : result (list R) :=
  '(b, _) <- r ;; Ok b.

(** Rendering the click and writing its file. *)
Definition click_file {G : Generator} (g : gen) (dk : disk) : result disk :=
  b <- buffer_of (sfx_click g) ;; save "sfx_click.wav" b dk.

(** The sum of the harmonics [ks] at phase [p], harmonic [k] contributing
    [term k p]. *)
Definition harmonic_sum (term : Z -> R -> R) (ks : list Z) (p : R) : R :=
  fold_left (fun acc k => acc + term k p) ks 0.

(** The smoothing coefficient of [lowpass_fast] in closed form. *)
Definition lowpass_alpha (cutoff_hz : R) : R :=
  2 * PI * cutoff_hz / (IZR SR + 2 * PI * cutoff_hz).

(** Reading a 16-bit little-endian two's complement sample back from its
    two bytes, and a whole frame string back into samples. *)
Definition int16_of_bytes (lo hi : Z) : Z :=
  let u := (lo + 256 * hi)%Z in
  if (u <? 32768)%Z then u else (u - 65536)%Z.

Fixpoint decode_frames (bytes : list Z) : list Z :=
  match bytes with
  | lo :: hi :: rest => int16_of_bytes lo hi :: decode_frames rest
  | _ => []
  end.

(** A recipe renders when, from every generator state, it returns a
    non-empty buffer. *)
Definition renders {G : Generator} (fn : recipe) : Prop :=
  forall g : gen, exists out g', fn g = Ok (out, g') /\ out <> [].

(** A file as [save] writes it: mono, two bytes per sample, at the sample
    rate, and not empty. *)
Definition well_formed_wav (w : wav) : Prop :=
  nchannels w = 1%Z /\ sampwidth w = 2%Z /\ framerate w = SR /\ frames w <> [].

(** The five notes of [sfx_chest_open], end to end. *)
Definition chest_melody : result (list R) :=
  let kw := fun f d => fm_note f d 2.0 0.8 0.8 0.006 0.06 0.65 0.14 1.0 in
  c4 <- kw (hz C4) 0.14 ;;
  e4 <- kw (hz E4) 0.14 ;;
  g4 <- kw (hz G4) 0.14 ;;
  c5 <- kw (hz C5) 0.14 ;;
  e5 <- fm_note (hz E5) 0.28 2.0 0.6 1.2 0.008 0.08 0.78 0.22 1.0 ;;
  concat [c4; e4; g4; c5; e5].

(** * The scalar code over binary64

    Where a claim speaks of the range of a double, the lines it is about
    are read a second time over the kernel's binary64 floats: the same
    statements in the same order, each operation rounding as IEEE 754
    does.  [sin] and [exp] come from the C library under numpy; they are
    parameters, known only to answer NaN outside the finite numbers. *)

Class Libm : Type := {
  c_sin : float -> float;
  c_exp : float -> float;
  c_sin_invalid : forall x : float, is_finite x = false -> c_sin x = nan
}.

Module F64.

(** A Python [int] met by a float operand is converted first. *)
Definition of_int (z : Z) : float := of_uint63 (Uint63.of_Z z).

(** The integer part of a finite float, toward zero. *)
Definition trunc (x : float) : Z :=
  match Prim2SF x with
  | S754_finite s m e =>
      let v := if (0 <=? e)%Z then (Z.pos m * 2 ^ e)%Z
               else (Z.pos m / 2 ^ (- e))%Z in
      if s then (- v)%Z else v
  | _ => 0%Z
  end.

(** [int(x)]: a NaN raises [ValueError], an infinity [OverflowError]. *)
Definition py_int (x : float) : result Z :=
  if is_nan x then Raise ValueError
  else if is_infinity x then Raise OverflowError
  else Ok (trunc x).

(** Python float division: a zero divisor of either sign raises. *)
Definition py_div (x y : float) : result float :=
  if (y =? 0)%float then Raise ZeroDivisionError else Ok (x / y)%float.

Definition pi : float := 3.141592653589793%float.

Definition _n (dur : float) : result Z := py_int (of_int SR * dur)%float.

(** [np.linspace] as numpy computes it: the indices times the step, the
    division moved onto the indices when the step rounds to zero, the
    start added last, and with [endpoint] the last sample set to [stop]. *)
Definition linspace (start stop : float) (num : Z) (endpoint : bool)
  : result (list float) :=
  if (num <? 0)%Z then Raise ValueError
  else
    let div := if endpoint then (num - 1)%Z else num in
    let delta := (stop - start)%float in
    let y := map of_int (np.arange num) in
    let y :=
      if (0 <? div)%Z
      then let step := (delta / of_int div)%float in
           if (step =? 0)%float
           then map (fun v => (v / of_int div * delta)%float) y
           else map (fun v => (v * step)%float) y
      else map (fun v => (v * delta)%float) y in
    let y := map (fun v => (v + start)%float) y in
    Ok (if endpoint && (1 <? num)%Z then removelast y ++ [stop] else y).

Definition fm_tone {L : Libm}
    (carrier_hz dur mod_ratio mod_depth mod_decay : float)
  : result (list float) :=
  n <- _n dur ;;
  t <- linspace 0 dur n false ;;
  rate <- py_div 1.0 (dur * mod_decay + 1e-9)%float ;;
  let fm_hz := (carrier_hz * mod_ratio)%float in
  Ok (map (fun ti =>
             let mod_env := c_exp (- ti * rate)%float in
             let mod_ :=
               (c_sin (2 * pi * fm_hz * ti) * mod_depth * mod_env)%float in
             c_sin (2 * pi * carrier_hz * ti + mod_)%float)
          t).

End F64.

(** * The exporter on a directory that can fail

    [save] above takes the output directory as made and a file as written
    whole or not at all.  [Fs.save] follows the statements of [save] one by
    one on a directory that can fail at each of them: [OUT_DIR.mkdir]
    first, then [np.max] on the samples, then [wave.open], which creates
    or empties the file, then [writeframes] and the close. *)

Module Fs.

Inductive content : Type :=
| Complete (w : wav)   (* written and closed *)
| Truncated.           (* opened for writing; the frames did not arrive whole *)

Record dir : Type := {
  mkdir_ok : bool;              (* [OUT_DIR.mkdir(parents=True, exist_ok=True)] succeeds *)
  can_open : string -> bool;    (* [wave.open(path, 'w')] succeeds *)
  can_write : string -> bool;   (* [writeframes] and the close succeed *)
  entries : list (string * content)   (* the latest first *)
}.

Definition put (d : dir) (name : string) (c : content) : dir :=
  {| mkdir_ok := mkdir_ok d; can_open := can_open d; can_write := can_write d;
     entries := (name, c) :: entries d |}.

(** What a reader finds under a name: the latest entry. *)
Fixpoint lookup (es : list (string * content)) (name : string)
  : option content :=
  match es with
  | [] => None
  | (n, c) :: rest => if String.eqb n name then Some c else lookup rest name
  end.

Definition save (filename : string) (samples : list R) (d : dir)
  : dir * result unit :=
  if negb (mkdir_ok d) then (d, Raise OSError)
  else
    match save_pcm samples with
    | Raise e => (d, Raise e)
    | Ok pcm =>
        if negb (can_open d filename) then (d, Raise OSError)
        else if negb (can_write d filename)
        then (put d filename Truncated, Raise OSError)
        else (put d filename
                (Complete {| nchannels := 1; sampwidth := 2; framerate := SR;
                             frames := flat_map int16_bytes pcm |}),
              Ok tt)
    end.

End Fs.

(** * Properties *)

(** ** Python scalars *)

Lemma py_int_nonneg (x : R) : 0 <= x -> py_int x = Zfloor x.
Proof.
  intros Hx. unfold py_int. destruct (Rle_dec 0 x); [reflexivity | contradiction].
Qed.

Lemma py_int_ge0 (x : R) : 0 <= x -> (0 <= py_int x)%Z.
Proof.
  intros Hx. rewrite py_int_nonneg by assumption.
  apply Zfloor_lub. simpl. exact Hx.
Qed.

Lemma py_int_lub (z : Z) (x : R) : 0 <= x -> IZR z <= x -> (z <= py_int x)%Z.
Proof.
  intros Hx Hz. rewrite py_int_nonneg by assumption. now apply Zfloor_lub.
Qed.

Lemma py_int_eq (z : Z) (x : R) :
  0 <= x -> IZR z <= x < IZR z + 1 -> py_int x = z.
Proof.
  intros Hx Hz. rewrite py_int_nonneg by assumption. now apply Zfloor_eq.
Qed.

Lemma _n_nonneg (d : R) : 0 <= d -> (0 <= _n d)%Z.
Proof.
  intros Hd. unfold _n. apply py_int_ge0. unfold SR.
  apply Rmult_le_pos; lra.
Qed.

Lemma _n_floor (d : R) : 0 <= d -> _n d = Zfloor (IZR SR * d).
Proof.
  intros Hd. unfold _n. apply py_int_nonneg. unfold SR.
  apply Rmult_le_pos; lra.
Qed.

(** ** Array creation and the phase accumulator *)

Lemma full_ok (n : Z) (v : R) :
  (0 <= n)%Z -> np.full n v = Ok (repeat v (Z.to_nat n)).
Proof.
  intros Hn. unfold np.full.
  destruct (Z.ltb_spec n 0); [lia | reflexivity].
Qed.

Lemma full_negative (n : Z) (v : R) :
  (n < 0)%Z -> np.full n v = Raise ValueError.
Proof.
  intros Hn. unfold np.full.
  destruct (Z.ltb_spec n 0); [reflexivity | lia].
Qed.

Lemma cumsum_from_length (a : list R) :
  forall acc, length (np.cumsum_from acc a) = length a.
Proof.
  induction a as [| x t IH]; intros acc; simpl; [reflexivity |].
  now rewrite IH.
Qed.

Lemma cumsum_from_nth (a : list R) :
  forall acc i, (i < length a)%nat ->
    nth i (np.cumsum_from acc a) 0 = acc + Rsum (firstn (S i) a).
Proof.
  induction a as [| x t IH]; intros acc i Hi; simpl in Hi; [lia |].
  destruct i as [| i].
  - cbn [np.cumsum_from nth firstn Rsum fold_right].
    destruct t; cbn; lra.
  - cbn [np.cumsum_from nth].
    rewrite IH by lia.
    change (firstn (S (S i)) (x :: t)) with (x :: firstn (S i) t).
    cbn [Rsum fold_right]. fold (Rsum (firstn (S i) t)). lra.
Qed.

Lemma Rsum_repeat (f : R) (k : nat) : Rsum (repeat f k) = f * INR k.
Proof.
  induction k as [| k IH].
  - simpl. lra.
  - rewrite S_INR. cbn [repeat Rsum fold_right]. fold (Rsum (repeat f k)).
    rewrite IH. lra.
Qed.

Lemma firstn_repeat {A : Type} (x : A) (k n : nat) :
  (k <= n)%nat -> firstn k (repeat x n) = repeat x k.
Proof.
  revert n. induction k as [| k IH]; intros n Hk; [reflexivity |].
  destruct n as [| n]; [lia |].
  cbn [repeat firstn]. f_equal. apply IH. lia.
Qed.

Lemma nth_map_lt {A B : Type} (f : A -> B) (l : list A) (i : nat) (da : A) (db : B) :
  (i < length l)%nat -> nth i (map f l) db = f (nth i l da).
Proof.
  revert i. induction l as [| x t IH]; intros i Hi; simpl in Hi; [lia |].
  destruct i as [| i]; [reflexivity |].
  simpl. apply IH. lia.
Qed.

Lemma _phase_length (fa : list R) : length (_phase fa) = length fa.
Proof.
  unfold _phase, np.cumsum. now rewrite length_map, cumsum_from_length.
Qed.

Lemma _phase_nth (fa : list R) (i : nat) :
  (i < length fa)%nat ->
  nth i (_phase fa) 0 = Rsum (firstn (S i) fa) / IZR SR * 2 * PI.
Proof.
  intros Hi. unfold _phase, np.cumsum, np.pi.
  rewrite (nth_map_lt _ _ _ 0) by now rewrite cumsum_from_length.
  rewrite cumsum_from_nth by assumption.
  now rewrite Rplus_0_l.
Qed.

Lemma _const_phase_ok (f d : R) :
  (0 <= _n d)%Z ->
  _const_phase f d = Ok (_phase (repeat f (Z.to_nat (_n d)))).
Proof.
  intros Hn. unfold _const_phase. now rewrite full_ok.
Qed.

Lemma _const_phase_length (f d : R) :
  length (_phase (repeat f (Z.to_nat (_n d)))) = Z.to_nat (_n d).
Proof. now rewrite _phase_length, repeat_length. Qed.

Lemma sine_ok (f d : R) :
  (0 <= _n d)%Z ->
  sine f d = Ok (map sin (_phase (repeat f (Z.to_nat (_n d))))).
Proof.
  intros Hn. unfold sine. now rewrite _const_phase_ok.
Qed.

Lemma sine_nth (f d : R) (i : nat) :
  (i < Z.to_nat (_n d))%nat ->
  nth i (map sin (_phase (repeat f (Z.to_nat (_n d))))) 0
  = sin (2 * PI * f * (INR i + 1) / IZR SR).
Proof.
  intros Hi.
  rewrite (nth_map_lt _ _ _ 0) by now rewrite _const_phase_length.
  rewrite _phase_nth by now rewrite repeat_length.
  rewrite firstn_repeat by lia.
  rewrite Rsum_repeat, S_INR. f_equal. unfold SR. field.
Qed.

(** C1, as amended: the phase array is the inclusive running sum of the
    frequency array over the sample rate, in radians, and so sample [i] of
    [sine f d] is [sin (2 pi f (i + 1) / sr)]: the first sample is already
    one step into the wave. *)
Theorem sine_follows_inclusive_phase :
  (forall (freq_array : list R) (i : nat),
      (i < length freq_array)%nat ->
      nth i (_phase freq_array) 0
      = Rsum (firstn (S i) freq_array) / IZR SR * 2 * PI)
  /\
  (forall f d : R,
      0 < d ->
      exists buf,
        sine f d = Ok buf /\
        length buf = Z.to_nat (_n d) /\
        forall i, (i < length buf)%nat ->
          nth i buf 0 = sin (2 * PI * f * (INR i + 1) / IZR SR)).
Proof.
  split.
  - intros fa i Hi. now apply _phase_nth.
  - intros f d Hd.
    assert (Hn : (0 <= _n d)%Z) by (apply _n_nonneg; lra).
    eexists. split; [now apply sine_ok |].
    split.
    + now rewrite length_map, _const_phase_length.
    + intros i Hi. rewrite length_map, _const_phase_length in Hi.
      now apply sine_nth.
Qed.

Lemma sine_follows_inclusive_phase_witness :
  exists buf,
    sine 440 1 = Ok buf /\
    length buf = Z.to_nat (_n 1) /\
    forall i, (i < length buf)%nat ->
      nth i buf 0 = sin (2 * PI * 440 * (INR i + 1) / IZR SR).
Proof.
  apply (proj2 sine_follows_inclusive_phase 440 1). lra.
Defined.

Lemma _n_one : _n 1 = 44100%Z.
Proof.
  unfold _n, SR. apply py_int_eq; [lra |]. split; lra.
Qed.

(** C1 as stated fails at [f = 11025], [d = 1], [i = 0]: the code's first
    sample is [sin (pi / 2) = 1], the claimed one is [sin 0 = 0]. *)
Lemma sine_first_sample_counterexample :
  exists buf,
    sine 11025 1 = Ok buf /\
    (0 < length buf)%nat /\
    nth 0%nat buf 0 = 1 /\
    sin (2 * PI * 11025 * INR 0 / IZR SR) = 0 /\
    Rabs (nth 0%nat buf 0 - sin (2 * PI * 11025 * INR 0 / IZR SR)) = 1.
Proof.
  assert (Hn : (0 <= _n 1)%Z) by (rewrite _n_one; lia).
  assert (Hi : (0 < Z.to_nat (_n 1))%nat) by (rewrite _n_one; lia).
  assert (H1 : nth 0%nat (map sin (_phase (repeat 11025 (Z.to_nat (_n 1))))) 0 = 1).
  { rewrite sine_nth by exact Hi.
    replace (2 * PI * 11025 * (INR 0 + 1) / IZR SR) with (PI / 2)
      by (unfold SR; simpl; field).
    apply sin_PI2. }
  assert (H0 : sin (2 * PI * 11025 * INR 0 / IZR SR) = 0).
  { replace (2 * PI * 11025 * INR 0 / IZR SR) with 0
      by (unfold SR; simpl; field).
    apply sin_0. }
  eexists. split; [now apply sine_ok |].
  split; [now rewrite length_map, _const_phase_length |].
  split; [exact H1 |].
  split; [exact H0 |].
  rewrite H1, H0. replace (1 - 0) with 1 by lra. apply Rabs_R1.
Qed.

(** ** Lengths of the primitives *)

Lemma iadd_same_length (a b : list R) :
  length a = length b ->
  exists out, np.iadd a b = Ok out /\ length out = length a.
Proof.
  intros Hab. unfold np.iadd. rewrite Hab, Nat.eqb_refl.
  eexists. split; [reflexivity |].
  rewrite length_map, length_combine. lia.
Qed.

Lemma harmonics_fold_length (F : Z -> list R) (n : nat) (ks : list Z) :
  (forall k, length (F k) = n) ->
  forall out, length out = n ->
  exists out',
    fold_left (fun acc k => out <- acc ;; np.iadd out (F k)) ks (Ok out) = Ok out'
    /\ length out' = n.
Proof.
  intros HF. induction ks as [| k ks IH]; intros out Hout.
  - exists out. now split.
  - cbn [fold_left bind].
    destruct (iadd_same_length out (F k)) as [o [Ho Hlen]];
      [now rewrite HF |].
    rewrite Ho. apply IH. lia.
Qed.

Lemma _bl_square_length (phase : list R) (harmonics : Z) :
  exists out, _bl_square phase harmonics = Ok out /\ length out = length phase.
Proof.
  unfold _bl_square.
  destruct (harmonics_fold_length
              (fun k => map (fun p => sin (IZR k * p) / IZR k) phase)
              (length phase) (py_range 1 (harmonics + 1) 2)
              (fun k => length_map _ _)
              (np.zeros_like phase))
    as [o [Ho Hlen]].
  { unfold np.zeros_like. apply repeat_length. }
  rewrite Ho. eexists. split; [reflexivity |].
  now rewrite length_map.
Qed.

Lemma _bl_sawtooth_length (phase : list R) (harmonics : Z) :
  exists out, _bl_sawtooth phase harmonics = Ok out /\ length out = length phase.
Proof.
  unfold _bl_sawtooth.
  destruct (harmonics_fold_length
              (fun k => map (fun p => (-1) ^ Z.to_nat (k + 1) * sin (IZR k * p) / IZR k)
                            phase)
              (length phase) (py_range 1 (harmonics + 1) 1)
              (fun k => length_map _ _)
              (np.zeros_like phase))
    as [o [Ho Hlen]].
  { unfold np.zeros_like. apply repeat_length. }
  rewrite Ho. eexists. split; [reflexivity |].
  now rewrite length_map.
Qed.

Lemma uniform_draws_length {G : Generator} (low high : R) (k : nat) :
  forall g, length (fst (uniform_draws low high k g)) = k.
Proof.
  induction k as [| k IH]; intros g; [reflexivity |].
  cbn [uniform_draws]. destruct (random g) as [u g1].
  specialize (IH g1). destruct (uniform_draws low high k g1) as [rest g2].
  simpl in *. now rewrite IH.
Qed.

Lemma pink_loop_length (w : list R) :
  forall st, length (pink_loop st w) = length w.
Proof.
  induction w as [| x t IH]; intros st; [reflexivity |].
  cbn [pink_loop]. destruct (pink_step st x) as [st' y].
  simpl. now rewrite IH.
Qed.

Lemma uniform_ok {G : Generator} (low high : R) (size : Z) (g : gen) :
  (0 <= size)%Z ->
  uniform low high size g = Ok (uniform_draws low high (Z.to_nat size) g).
Proof.
  intros Hs. unfold uniform.
  destruct (Z.ltb_spec size 0); [lia | reflexivity].
Qed.

Lemma noise_pink_ok {G : Generator} (d : R) (g : gen) :
  (0 <= _n d)%Z ->
  noise_pink d g
  = Ok (pink_loop (0, 0, 0, 0) (fst (uniform_draws (-1) 1 (Z.to_nat (_n d)) g)),
        snd (uniform_draws (-1) 1 (Z.to_nat (_n d)) g)).
Proof.
  intros Hn. unfold noise_pink. rewrite uniform_ok by assumption.
  cbn [bind]. now destruct (uniform_draws (-1) 1 (Z.to_nat (_n d)) g).
Qed.

Lemma primitives_length_n {G : Generator} (f d : R) (g : gen) :
  (0 <= _n d)%Z ->
  primitives_return f d g (Z.to_nat (_n d)).
Proof.
  intros Hn. unfold primitives_return.
  repeat split.
  - eexists. split; [now apply sine_ok |].
    now rewrite length_map, _const_phase_length.
  - unfold square. rewrite _const_phase_ok by assumption. cbn [bind].
    destruct (_bl_square_length (_phase (repeat f (Z.to_nat (_n d)))) 24)
      as [o [Ho Hl]].
    exists o. split; [exact Ho |]. now rewrite Hl, _const_phase_length.
  - unfold soft_square. rewrite _const_phase_ok by assumption. cbn [bind].
    destruct (_bl_square_length (_phase (repeat f (Z.to_nat (_n d)))) 8)
      as [o [Ho Hl]].
    exists o. split; [exact Ho |]. now rewrite Hl, _const_phase_length.
  - unfold sawtooth. rewrite _const_phase_ok by assumption. cbn [bind].
    destruct (_bl_sawtooth_length (_phase (repeat f (Z.to_nat (_n d)))) 20)
      as [o [Ho Hl]].
    exists o. split; [exact Ho |]. now rewrite Hl, _const_phase_length.
  - unfold triangle. rewrite _const_phase_ok by assumption. cbn [bind].
    eexists. split; [reflexivity |].
    now rewrite length_map, _const_phase_length.
  - unfold noise_white. rewrite uniform_ok by assumption.
    pose proof (uniform_draws_length (-1) 1 (Z.to_nat (_n d)) g) as Hl.
    destruct (uniform_draws (-1) 1 (Z.to_nat (_n d)) g) as [b g'].
    exists b, g'. now split.
  - rewrite noise_pink_ok by assumption.
    do 2 eexists. split; [reflexivity |].
    now rewrite pink_loop_length, uniform_draws_length.
  - unfold silence, np.zeros. rewrite full_ok by assumption.
    eexists. split; [reflexivity |]. apply repeat_length.
Qed.

(** C2, as amended: for a duration [d >= 0] each of the eight primitives
    returns a buffer of exactly [floor (44100 * d)] samples: the sample
    count is truncated, not rounded. *)
Theorem primitives_truncated_length {G : Generator} (f d : R) (g : gen) :
  0 <= d ->
  primitives_return f d g (Z.to_nat (Zfloor (IZR SR * d))).
Proof.
  intros Hd. rewrite <- _n_floor by assumption.
  apply primitives_length_n. now apply _n_nonneg.
Qed.

Lemma primitives_truncated_length_witness :
  primitives_return (G := lcg) 440 0.018 42%Z
    (Z.to_nat (Zfloor (IZR SR * 0.018))).
Proof.
  apply (primitives_truncated_length (G := lcg) 440 0.018 42%Z). lra.
Defined.

Lemma _n_18ms : _n 0.018 = 793%Z.
Proof.
  unfold _n, SR. apply py_int_eq; [lra |]. split; lra.
Qed.

(** C2 as stated fails at [d = 0.018] (a duration [sfx_victory] uses):
    [44100 * 0.018 = 793.8] rounds to 794, and [silence] returns 793
    samples. *)
Lemma silence_length_counterexample :
  exists buf,
    silence 0.018 = Ok buf /\
    length buf = 793%nat /\
    py_round (0.018 * IZR SR) = 794%Z /\
    length buf <> Z.to_nat (py_round (0.018 * IZR SR)).
Proof.
  assert (Hr : py_round (0.018 * IZR SR) = 794%Z).
  { unfold py_round, SR.
    assert (Hf : Zfloor (0.018 * 44100) = 793%Z) by (apply Zfloor_eq; split; lra).
    rewrite Hf.
    destruct (Rlt_dec (0.018 * 44100 - 793) (1 / 2)) as [H | _]; [lra |].
    destruct (Rlt_dec (1 / 2) (0.018 * 44100 - 793)) as [_ | H]; [reflexivity | lra]. }
  exists (repeat 0 793).
  split.
  - unfold silence, np.zeros. rewrite full_ok by (rewrite _n_18ms; lia).
    now rewrite _n_18ms.
  - split; [apply repeat_length |].
    split; [exact Hr |].
    rewrite Hr, repeat_length. lia.
Qed.

(** ** Reverb *)

Lemma getitem_ok (a : list R) (i : Z) :
  (0 <= i < Z.of_nat (length a))%Z ->
  getitem a i = Ok (nth (Z.to_nat i) a 0).
Proof.
  intros Hi. unfold getitem.
  destruct (Z.ltb_spec i 0); [lia |].
  destruct (Z.ltb_spec i 0); [lia |].
  destruct (Z.leb_spec (Z.of_nat (length a)) i); [lia | reflexivity].
Qed.

Lemma setitem_ok (a : list R) (i : Z) (v : R) :
  (0 <= i < Z.of_nat (length a))%Z ->
  exists a', setitem a i v = Ok a' /\ length a' = length a.
Proof.
  intros Hi. unfold setitem.
  destruct (Z.ltb_spec i 0); [lia |].
  destruct (Z.ltb_spec i 0); [lia |].
  destruct (Z.leb_spec (Z.of_nat (length a)) i); [lia |].
  eexists. split; [reflexivity |].
  rewrite length_app, length_firstn. cbn [length]. rewrite length_skipn. lia.
Qed.

Lemma py_imod_ok (x y : Z) :
  (0 < y)%Z -> py_imod x y = Ok (x mod y)%Z.
Proof.
  intros Hy. unfold py_imod.
  destruct (Z.eqb_spec y 0); [lia | reflexivity].
Qed.

Lemma comb_loop_ok (damping fb : R) (delay : Z) :
  (0 < delay)%Z ->
  forall (sig buf : list R) (filt : R) (pos : Z),
    Z.of_nat (length buf) = delay ->
    (0 <= pos < delay)%Z ->
    exists cb,
      comb_loop damping fb delay sig buf filt pos = Ok cb
      /\ length cb = length sig.
Proof.
  intros Hdelay.
  induction sig as [| x t IH]; intros buf filt pos Hbuf Hpos.
  - exists []. now split.
  - cbn [comb_loop].
    rewrite getitem_ok by lia. cbn [bind].
    destruct (setitem_ok buf pos
                (x + (nth (Z.to_nat pos) buf 0 * (1 - damping) + filt * damping) * fb))
      as [buf' [Hset Hlen]]; [lia |].
    rewrite Hset. cbn [bind].
    rewrite py_imod_ok by assumption. cbn [bind].
    destruct (IH buf'
                (nth (Z.to_nat pos) buf 0 * (1 - damping) + filt * damping)
                ((pos + 1) mod delay)%Z)
      as [cb [Hcb Hl]].
    + lia.
    + apply Z.mod_pos_bound. assumption.
    + rewrite Hcb. cbn [bind]. eexists. split; [reflexivity |].
      simpl. now rewrite Hl.
Qed.

Lemma allpass_loop_ok (delay : Z) :
  (0 < delay)%Z ->
  forall (out buf : list R) (pos : Z),
    Z.of_nat (length buf) = delay ->
    (0 <= pos < delay)%Z ->
    exists ap,
      allpass_loop delay out buf pos = Ok ap /\ length ap = length out.
Proof.
  intros Hdelay.
  induction out as [| x t IH]; intros buf pos Hbuf Hpos.
  - exists []. now split.
  - cbn [allpass_loop].
    rewrite getitem_ok by lia. cbn [bind].
    destruct (setitem_ok buf pos (x + nth (Z.to_nat pos) buf 0 * 0.5))
      as [buf' [Hset Hlen]]; [lia |].
    rewrite Hset. cbn [bind].
    rewrite py_imod_ok by assumption. cbn [bind].
    destruct (IH buf' ((pos + 1) mod delay)%Z) as [ap [Hap Hl]].
    + lia.
    + apply Z.mod_pos_bound. assumption.
    + rewrite Hap. cbn [bind]. eexists. split; [reflexivity |].
      simpl. now rewrite Hl.
Qed.

Lemma zeros_ok (n : Z) :
  (0 <= n)%Z -> np.zeros n = Ok (repeat 0 (Z.to_nat n)).
Proof. intros Hn. unfold np.zeros. now apply full_ok. Qed.

Lemma comb_bank_ok (sig : list R) (damping fb : R) (delays : list Z) :
  Forall (fun delay => (0 < delay)%Z) delays ->
  forall out, length out = length sig ->
  exists out',
    fold_left
      (fun acc delay =>
         out <- acc ;;
         buf <- np.zeros delay ;;
         cb <- comb_loop damping fb delay sig buf 0.0 0 ;;
         np.iadd out cb)
      delays (Ok out) = Ok out'
    /\ length out' = length sig.
Proof.
  induction 1 as [| delay delays Hd _ IH]; intros out Hout.
  - exists out. now split.
  - cbn [fold_left bind].
    rewrite zeros_ok by lia. cbn [bind].
    destruct (comb_loop_ok damping fb delay Hd sig
                (repeat 0 (Z.to_nat delay)) 0.0 0%Z)
      as [cb [Hcb Hl]].
    + rewrite repeat_length. lia.
    + lia.
    + rewrite Hcb. cbn [bind].
      destruct (iadd_same_length out cb) as [o [Ho Hlo]]; [lia |].
      rewrite Ho. apply IH. lia.
Qed.

Lemma allpass_chain_ok (delays : list Z) :
  Forall (fun delay => (0 < delay)%Z) delays ->
  forall out,
  exists out',
    fold_left
      (fun acc delay =>
         out <- acc ;;
         buf <- np.zeros delay ;;
         allpass_loop delay out buf 0)
      delays (Ok out) = Ok out'
    /\ length out' = length out.
Proof.
  induction 1 as [| delay delays Hd _ IH]; intros out.
  - exists out. now split.
  - cbn [fold_left bind].
    rewrite zeros_ok by lia. cbn [bind].
    destruct (allpass_loop_ok delay Hd out (repeat 0 (Z.to_nat delay)) 0%Z)
      as [ap [Hap Hl]].
    + rewrite repeat_length. lia.
    + lia.
    + rewrite Hap. destruct (IH ap) as [o [Ho Hlo]].
      exists o. split; [exact Ho | lia].
Qed.

Lemma comb_delays_positive (room : R) :
  0 <= room -> Forall (fun delay => (0 < delay)%Z) (comb_delays room).
Proof.
  intros Hr. unfold comb_delays, SR.
  repeat constructor;
    (apply Z.lt_le_trans with 1%Z; [lia |]; apply py_int_lub; nra).
Qed.

Lemma ap_delays_positive : Forall (fun delay => (0 < delay)%Z) ap_delays.
Proof.
  unfold ap_delays, SR.
  repeat constructor;
    (apply Z.lt_le_trans with 1%Z; [lia |]; apply py_int_lub; lra).
Qed.

(** The wet path of [reverb]: defined, and as long as the input, whenever
    the comb delays are positive. *)
Lemma reverb_ok (sig : list R) (room wet damping : R) :
  0 <= room ->
  exists out,
    length out = length sig /\
    reverb sig room wet damping
    = np.add (map (fun s => s * (1 - wet)) sig) (map (fun o => o * wet) out).
Proof.
  intros Hr. unfold reverb.
  rewrite zeros_ok by lia.
  destruct (comb_bank_ok sig damping (0.55 + 0.40 * room) (comb_delays room)
              (comb_delays_positive room Hr)
              (repeat 0 (Z.to_nat (Z.of_nat (length sig)))))
    as [o1 [Ho1 Hl1]].
  { rewrite repeat_length. lia. }
  rewrite Ho1. cbn [bind].
  destruct (allpass_chain_ok ap_delays ap_delays_positive o1) as [o2 [Ho2 Hl2]].
  rewrite Ho2. cbn [bind].
  eexists. split; [| reflexivity].
  rewrite length_map. lia.
Qed.

Lemma dry_mix (sig out : list R) :
  length out = length sig ->
  np.add (map (fun s => s * (1 - 0)) sig) (map (fun o => o * 0) out) = Ok sig.
Proof.
  intros Hl. unfold np.add, np.broadcast.
  rewrite !length_map, Hl, Nat.eqb_refl. f_equal.
  revert out Hl. induction sig as [| s t IH]; intros out Hl.
  - reflexivity.
  - destruct out as [| o out]; [discriminate |].
    cbn [map combine fst snd]. f_equal; [lra |].
    apply IH. simpl in Hl. lia.
Qed.

(** C3: with [wet = 0] and [room], [damping] in [0, 1], [reverb] returns
    its input buffer, sample for sample. *)
Theorem reverb_wet_zero_is_dry (x : list R) (room damping : R) :
  0 <= room <= 1 ->
  0 <= damping <= 1 ->
  reverb x room 0 damping = Ok x.
Proof.
  intros [Hr _] _.
  destruct (reverb_ok x room 0 damping Hr) as [out [Hl Hrev]].
  rewrite Hrev. now apply dry_mix.
Qed.

Lemma reverb_wet_zero_is_dry_witness :
  reverb [1; -2; 0.5] 0.35 0 0.45 = Ok [1; -2; 0.5].
Proof.
  apply reverb_wet_zero_is_dry; lra.
Defined.

(** ** The seeded noise stream *)

Lemma uniform_draws_fst {G : Generator} (low high : R) (k : nat) :
  forall g,
    fst (uniform_draws low high k g)
    = map (fun u => low + (high - low) * u) (draws k g).
Proof.
  induction k as [| k IH]; intros g; [reflexivity |].
  cbn [uniform_draws draws]. destruct (random g) as [u g1].
  specialize (IH g1). destruct (uniform_draws low high k g1) as [rest g2].
  simpl in *. now rewrite IH.
Qed.

Lemma noise_pink_buffer {G : Generator} (d : R) (g : gen) :
  buffer_of (noise_pink d g)
  = if (_n d <? 0)%Z then Raise ValueError
    else Ok (pink_loop (0, 0, 0, 0)
               (map (fun u => -1 + (1 - -1) * u) (draws (Z.to_nat (_n d)) g))).
Proof.
  unfold buffer_of, noise_pink, uniform.
  destruct (Z.ltb_spec (_n d) 0); [reflexivity |].
  cbn [bind].
  rewrite <- uniform_draws_fst.
  now destruct (uniform_draws (-1) 1 (Z.to_nat (_n d)) g).
Qed.

Lemma sfx_click_buffer {G : Generator} (g : gen) :
  buffer_of (sfx_click g)
  = (body <- fm_note (hz A5) 0.065 5.5 3.0 0.12 0.001 0.012 0.10 0.035 1.0 ;;
     pk <- buffer_of (noise_pink 0.065 g) ;;
     tick <- adsr (scale pk 0.55) 0.001 0.010 0.00 0.025 ;;
     mix <- np.add body tick ;;
     lowpass_fast mix 8000).
Proof.
  unfold sfx_click, buffer_of.
  destruct (fm_note (hz A5) 0.065 5.5 3.0 0.12 0.001 0.012 0.10 0.035 1.0)
    as [body |]; [| reflexivity].
  cbn [bind].
  destruct (noise_pink 0.065 g) as [[pk g'] |]; [| reflexivity].
  cbn [bind].
  destruct (adsr (scale pk 0.55) 0.001 0.010 0.00 0.025) as [tick |];
    [| reflexivity].
  cbn [bind].
  destruct (np.add body tick) as [mix |]; [| reflexivity].
  cbn [bind].
  now destruct (lowpass_fast mix 8000).
Qed.

Lemma uniform_draws_snd {G : Generator} (low high : R) (k : nat) :
  forall g, snd (uniform_draws low high k g) = advance k g.
Proof.
  induction k as [| k IH]; intros g; [reflexivity |].
  cbn [uniform_draws advance]. destruct (random g) as [u g1].
  specialize (IH g1). destruct (uniform_draws low high k g1) as [rest g2].
  exact IH.
Qed.

(** Within one run the generator is shared: a call leaves it [_n d] draws
    further, and the next call starts from there. *)
Lemma noise_pink_advances {G : Generator} (d : R) (g : gen) :
  (0 <= _n d)%Z ->
  exists b, noise_pink d g = Ok (b, advance (Z.to_nat (_n d)) g).
Proof.
  intros Hn. rewrite noise_pink_ok by assumption.
  rewrite uniform_draws_snd. eexists. reflexivity.
Qed.

(** C4: the output of [noise_pink d] is a function of the doubles the
    generator delivers: two invocations whose generators deliver the same
    first [_n d] doubles, as two generators seeded alike do, return the same
    buffer; and two renderings of the click from such generators write the
    same file. *)
Theorem seeded_noise_is_reproducible {G : Generator} :
  (forall (d : R) (g1 g2 : gen),
      draws (Z.to_nat (_n d)) g1 = draws (Z.to_nat (_n d)) g2 ->
      buffer_of (noise_pink d g1) = buffer_of (noise_pink d g2))
  /\
  (forall (g1 g2 : gen) (dk : disk),
      draws (Z.to_nat (_n 0.065)) g1 = draws (Z.to_nat (_n 0.065)) g2 ->
      click_file g1 dk = click_file g2 dk).
Proof.
  assert (Hpink : forall (d : R) (g1 g2 : gen),
             draws (Z.to_nat (_n d)) g1 = draws (Z.to_nat (_n d)) g2 ->
             buffer_of (noise_pink d g1) = buffer_of (noise_pink d g2)).
  { intros d g1 g2 Hd. rewrite !noise_pink_buffer. now rewrite Hd. }
  split; [exact Hpink |].
  intros g1 g2 dk Hd. unfold click_file.
  rewrite !sfx_click_buffer.
  now rewrite (Hpink 0.065 g1 g2 Hd).
Qed.

Lemma lcg_draws_shift (k : nat) :
  draws (G := lcg) k 42%Z = draws (G := lcg) k (42 + 2147483648)%Z.
Proof.
  destruct k as [| k]; [reflexivity |].
  cbn [draws random lcg].
  replace (lcg_next (42 + 2147483648)) with (lcg_next 42) by reflexivity.
  reflexivity.
Qed.

Lemma seeded_noise_is_reproducible_witness :
  buffer_of (noise_pink (G := lcg) 0.018 42%Z)
  = buffer_of (noise_pink (G := lcg) 0.018 (42 + 2147483648)%Z)
  /\ click_file (G := lcg) 42%Z fresh_disk
     = click_file (G := lcg) (42 + 2147483648)%Z fresh_disk.
Proof.
  split.
  - apply (proj1 (seeded_noise_is_reproducible (G := lcg))).
    apply lcg_draws_shift.
  - apply (proj2 (seeded_noise_is_reproducible (G := lcg))).
    apply lcg_draws_shift.
Defined.

(** ** Envelope *)

Lemma arange_length (num : Z) : length (np.arange num) = Z.to_nat num.
Proof. unfold np.arange. now rewrite length_map, length_seq. Qed.

Lemma arange_In (num k : Z) : In k (np.arange num) -> (0 <= k < num)%Z.
Proof.
  unfold np.arange. rewrite in_map_iff. intros [i [Hk Hi]].
  apply in_seq in Hi. lia.
Qed.

Lemma arange_nth (num : Z) (i : nat) :
  (i < Z.to_nat num)%nat -> nth i (np.arange num) 0%Z = Z.of_nat i.
Proof.
  intros Hi. unfold np.arange.
  rewrite (nth_map_lt _ _ _ 0%nat) by now rewrite length_seq.
  now rewrite seq_nth.
Qed.

Lemma linspace_list_length (start stop : R) (num : Z) (endpoint : bool) :
  length (np.linspace_list start stop num endpoint) = Z.to_nat num.
Proof. unfold np.linspace_list. now rewrite length_map, arange_length. Qed.

Lemma linspace_ok (start stop : R) (num : Z) (endpoint : bool) :
  (0 <= num)%Z ->
  np.linspace start stop num endpoint
  = Ok (np.linspace_list start stop num endpoint).
Proof.
  intros Hn. unfold np.linspace.
  destruct (Z.ltb_spec num 0); [lia | reflexivity].
Qed.

Lemma linspace_negative (start stop : R) (num : Z) (endpoint : bool) :
  (num < 0)%Z -> np.linspace start stop num endpoint = Raise ValueError.
Proof.
  intros Hn. unfold np.linspace.
  destruct (Z.ltb_spec num 0); [reflexivity | lia].
Qed.

(** A ramp between two non-negative ends stays non-negative. *)
Lemma linspace_nonneg (start stop : R) (num : Z) :
  0 <= start -> 0 <= stop ->
  Forall (fun x => 0 <= x) (np.linspace_list start stop num true).
Proof.
  intros Hs He. unfold np.linspace_list. rewrite Forall_forall.
  intros x Hx. apply in_map_iff in Hx. destruct Hx as [k [Hk Hin]].
  apply arange_In in Hin. subst x.
  destruct (true && (1 <? num)%Z && (k =? num - 1)%Z); [exact He |].
  destruct (Z.eq_dec (num - 1) 0) as [H0 | H0].
  - assert (k = 0%Z) by lia. subst k. lra.
  - assert (HD : 0 < IZR (num - 1)) by (apply IZR_lt; lia).
    assert (HK : 0 <= IZR k <= IZR (num - 1)) by (split; apply IZR_le; lia).
    replace (IZR k * ((stop - start) / IZR (num - 1)) + start)
      with ((IZR k * stop + (IZR (num - 1) - IZR k) * start) / IZR (num - 1))
      by (field; lra).
    apply Rmult_le_pos.
    + apply Rplus_le_le_0_compat; apply Rmult_le_pos; lra.
    + apply Rlt_le, Rinv_0_lt_compat. exact HD.
Qed.

Lemma power_nonneg (l : list R) (y : R) :
  Forall (fun x => 0 <= x) l ->
  np.power l y = Ok (map (fun x => np.pow_nonneg x y) l).
Proof.
  induction 1 as [| x t Hx _ IH]; [reflexivity |].
  cbn [np.power map]. unfold np.float_power.
  destruct (Rlt_dec x 0); [lra |].
  cbn [bind]. now rewrite IH.
Qed.

Lemma shaped_ramp_ok (start stop : R) (num : Z) (p : R) :
  0 <= start -> 0 <= stop -> (0 <= num)%Z ->
  (ramp <- np.linspace start stop num true ;; np.power ramp p)
  = Ok (ramp_curve start stop num p).
Proof.
  intros Hs He Hn. rewrite linspace_ok by assumption. cbn [bind].
  now apply power_nonneg, linspace_nonneg.
Qed.

Lemma ramp_curve_length (start stop : R) (num : Z) (p : R) :
  length (ramp_curve start stop num p) = Z.to_nat num.
Proof. unfold ramp_curve. now rewrite length_map, linspace_list_length. Qed.

Lemma skipn_repeat {A : Type} (x : A) (k n : nat) :
  skipn k (repeat x n) = repeat x (n - k).
Proof.
  revert n. induction k as [| k IH]; intros n.
  - now rewrite Nat.sub_0_r.
  - destruct n as [| n]; [reflexivity |]. cbn [repeat skipn]. apply IH.
Qed.

Lemma store_combine (seg : list R) :
  map (fun p => store (fst p) (snd p)) (combine (repeat None (length seg)) seg)
  = map Some seg.
Proof.
  induction seg as [| x t IH]; [reflexivity |].
  cbn [length repeat combine map fst snd store]. now rewrite IH.
Qed.

(** Writing the next segment of an envelope whose first cells are set. *)
Lemma store_next (vals seg : list R) (rest : nat) (lo hi : Z) :
  lo = Z.of_nat (length vals) ->
  hi = (lo + Z.of_nat (length seg))%Z ->
  (length seg <= rest)%nat ->
  slice_update store (map Some vals ++ repeat None rest) lo hi seg
  = Ok (map Some (vals ++ seg) ++ repeat None (rest - length seg)).
Proof.
  intros Hlo Hhi Hle. unfold slice_update, slice_bounds.
  rewrite length_app, length_map, repeat_length.
  destruct (Z.ltb_spec lo 0); [lia |].
  destruct (Z.ltb_spec hi 0); [lia |].
  replace (Z.min lo (Z.of_nat (length vals + rest))) with lo by lia.
  replace (Z.min hi (Z.of_nat (length vals + rest))) with hi by lia.
  replace (Z.to_nat (hi - lo)) with (length seg) by lia.
  replace (Z.to_nat lo) with (length (map Some vals))
    by (rewrite length_map; lia).
  rewrite Nat.eqb_refl.
  rewrite firstn_app, firstn_all, Nat.sub_diag, app_nil_r.
  rewrite skipn_app, skipn_all, Nat.sub_diag. cbn [app skipn].
  rewrite firstn_repeat by assumption.
  rewrite store_combine.
  rewrite skipn_app.
  rewrite skipn_all2 by lia.
  replace (length (map Some vals) + length seg - length (map Some vals))%nat
    with (length seg) by lia.
  rewrite skipn_repeat. cbn [app].
  now rewrite map_app, <- app_assoc.
Qed.

Lemma fill_next (vals : list R) (rest : nat) (lo hi : Z) (y : R) :
  lo = Z.of_nat (length vals) ->
  (lo <= hi)%Z ->
  (Z.to_nat (hi - lo) <= rest)%nat ->
  slice_fill store (map Some vals ++ repeat None rest) lo hi y
  = map Some (vals ++ repeat y (Z.to_nat (hi - lo)))
      ++ repeat None (rest - Z.to_nat (hi - lo)).
Proof.
  intros Hlo Hhi Hle. unfold slice_fill, slice_bounds.
  rewrite length_app, length_map, repeat_length.
  destruct (Z.ltb_spec lo 0); [lia |].
  destruct (Z.ltb_spec hi 0); [lia |].
  replace (Z.min lo (Z.of_nat (length vals + rest))) with lo by lia.
  replace (Z.min hi (Z.of_nat (length vals + rest))) with hi by lia.
  replace (Z.to_nat lo) with (length (map Some vals))
    by (rewrite length_map; lia).
  rewrite firstn_app, firstn_all, Nat.sub_diag, app_nil_r.
  rewrite skipn_app, skipn_all, Nat.sub_diag. cbn [app skipn].
  rewrite firstn_repeat by assumption.
  rewrite skipn_app.
  rewrite skipn_all2 by lia.
  replace (length (map Some vals) + Z.to_nat (hi - lo) - length (map Some vals))%nat
    with (Z.to_nat (hi - lo)) by lia.
  rewrite skipn_repeat. cbn [app].
  rewrite map_app, <- app_assoc. f_equal. f_equal.
  now rewrite map_repeat, map_repeat.
Qed.

Lemma adsr_stages_bounds (n : Z) (attack decay release : R) :
  (0 <= n)%Z -> 0 <= attack -> 0 <= decay -> 0 <= release ->
  let '(a, d, r, s_start, s_end) := adsr_stages n attack decay release in
  (0 <= a <= n /\ 0 <= d <= n - a /\ 0 <= r <= n /\
   s_start = a + d /\ s_start <= s_end <= n /\
   (r <> 0 -> Z.min r (n - s_end) = n - s_end) /\
   (r = 0 -> s_end = n))%Z.
Proof.
  intros Hn Ha Hd Hr. unfold adsr_stages.
  assert (H1 : (0 <= py_int (attack * IZR SR))%Z)
    by (apply py_int_ge0, Rmult_le_pos; [lra | unfold SR; lra]).
  assert (H2 : (0 <= py_int (decay * IZR SR))%Z)
    by (apply py_int_ge0, Rmult_le_pos; [lra | unfold SR; lra]).
  assert (H3 : (0 <= py_int (release * IZR SR))%Z)
    by (apply py_int_ge0, Rmult_le_pos; [lra | unfold SR; lra]).
  repeat split; lia.
Qed.

(** The envelope array ends up fully assigned, equal to [envelope_curve]. *)
Lemma adsr_env_ok (len : nat) (attack decay sustain release : R) :
  0 <= attack -> 0 <= decay -> 0 <= sustain -> 0 <= release ->
  adsr_env len attack decay sustain release
  = Ok (map Some (envelope_curve len attack decay sustain release))
  /\ length (envelope_curve len attack decay sustain release) = len.
Proof.
  intros Ha Hd Hs Hr.
  pose proof (adsr_stages_bounds (Z.of_nat len) attack decay release
                (Nat2Z.is_nonneg len) Ha Hd Hr) as HB.
  unfold adsr_env, envelope_curve.
  destruct (adsr_stages (Z.of_nat len) attack decay release)
    as [[[[a d] r] s_start] s_end].
  destruct HB as (Hba & Hbd & Hbr & Hss & Hse & Hrem & Hr0).
  split.
  - (* attack *)
    assert (E1 : (if (a =? 0)%Z then Ok (empty len) else
                    ramp <- np.linspace 0 1 a true ;;
                    seg <- np.power ramp 0.5 ;;
                    slice_update store (empty len) 0 a seg)
                 = Ok (map Some (ramp_curve 0 1 a 0.5)
                         ++ repeat None (len - Z.to_nat a))).
    { destruct (Z.eqb_spec a 0) as [-> | Hne].
      - cbn. now rewrite Nat.sub_0_r.
      - pose proof (shaped_ramp_ok 0 1 a 0.5) as Hramp.
        destruct (np.linspace 0 1 a true) as [ramp |];
          cbn [bind] in *;
          [| discriminate Hramp; (lra || lia)].
        rewrite Hramp by (lra || lia). cbn [bind].
        pose proof (store_next [] (ramp_curve 0 1 a 0.5) len 0 a) as Hst.
        rewrite ramp_curve_length in Hst. cbn [map app length] in Hst.
        apply Hst; lia. }
    rewrite E1. cbn [bind].
    (* decay *)
    assert (E2 : (if (d =? 0)%Z
                  then Ok (map Some (ramp_curve 0 1 a 0.5)
                             ++ repeat None (len - Z.to_nat a))
                  else
                    ramp <- np.linspace 1 sustain d true ;;
                    seg <- np.power ramp 1.4 ;;
                    slice_update store
                      (map Some (ramp_curve 0 1 a 0.5)
                         ++ repeat None (len - Z.to_nat a))
                      a (a + d) seg)
                 = Ok (map Some (ramp_curve 0 1 a 0.5 ++ ramp_curve 1 sustain d 1.4)
                         ++ repeat None (len - Z.to_nat a - Z.to_nat d))).
    { destruct (Z.eqb_spec d 0) as [-> | Hne].
      - cbn. now rewrite app_nil_r, Nat.sub_0_r.
      - pose proof (shaped_ramp_ok 1 sustain d 1.4) as Hramp.
        destruct (np.linspace 1 sustain d true) as [ramp |];
          cbn [bind] in *;
          [| discriminate Hramp; (lra || lia)].
        rewrite Hramp by (lra || lia). cbn [bind].
        pose proof (store_next (ramp_curve 0 1 a 0.5)
                      (ramp_curve 1 sustain d 1.4)
                      (len - Z.to_nat a) a (a + d)) as Hst.
        rewrite !ramp_curve_length in Hst.
        apply Hst; lia. }
    rewrite E2. cbn [bind].
    (* sustain *)
    rewrite (fill_next (ramp_curve 0 1 a 0.5 ++ ramp_curve 1 sustain d 1.4)
               (len - Z.to_nat a - Z.to_nat d) s_start s_end sustain)
      by (rewrite ?length_app, ?ramp_curve_length; lia).
    (* release *)
    destruct (Z.eqb_spec r 0) as [Hr'| Hne].
    + specialize (Hr0 Hr').
      replace (Z.of_nat len - s_end)%Z with 0%Z by lia.
      replace (len - Z.to_nat a - Z.to_nat d - Z.to_nat (s_end - s_start))%nat
        with 0%nat by lia.
      cbn [repeat ramp_curve np.linspace_list np.arange Z.to_nat seq map].
      now rewrite !app_nil_r, <- !app_assoc.
    + specialize (Hrem Hne). cbn zeta. rewrite Hrem.
      pose proof (shaped_ramp_ok sustain 0 (Z.of_nat len - s_end) 1.6) as Hramp.
      destruct (np.linspace sustain 0 (Z.of_nat len - s_end) true) as [ramp |];
        cbn [bind] in *;
        [| discriminate Hramp; (lra || lia)].
      rewrite Hramp by (lra || lia). cbn [bind].
      rewrite (store_next
                 ((ramp_curve 0 1 a 0.5 ++ ramp_curve 1 sustain d 1.4)
                    ++ repeat sustain (Z.to_nat (s_end - s_start)))
                 (ramp_curve sustain 0 (Z.of_nat len - s_end) 1.6)
                 (len - Z.to_nat a - Z.to_nat d - Z.to_nat (s_end - s_start))
                 s_end (s_end + (Z.of_nat len - s_end)))
        by (rewrite ?length_app, ?repeat_length, ?ramp_curve_length; lia).
      rewrite ramp_curve_length.
      replace (len - Z.to_nat a - Z.to_nat d - Z.to_nat (s_end - s_start)
               - Z.to_nat (Z.of_nat len - s_end))%nat with 0%nat by lia.
      cbn [repeat]. rewrite app_nil_r. now rewrite <- !app_assoc.
  - rewrite !length_app, repeat_length, !ramp_curve_length. lia.
Qed.

Lemma read_all_some (l : list R) : read_all (map Some l) = Ok l.
Proof.
  induction l as [| x t IH]; [reflexivity |].
  cbn [map read_all]. now rewrite IH.
Qed.

Lemma broadcast_same_length (op : R -> R -> R) (a b : list R) :
  length a = length b ->
  np.broadcast op a b = Ok (map (fun p => op (fst p) (snd p)) (combine a b)).
Proof.
  intros Hl. unfold np.broadcast. now rewrite Hl, Nat.eqb_refl.
Qed.

Lemma adsr_ok (sig : list R) (attack decay sustain release : R) :
  0 <= attack -> 0 <= decay -> 0 <= sustain -> 0 <= release ->
  adsr sig attack decay sustain release
  = Ok (map (fun p => fst p * snd p)
          (combine sig (envelope_curve (length sig) attack decay sustain release))).
Proof.
  intros Ha Hd Hs Hr.
  destruct (adsr_env_ok (length sig) attack decay sustain release Ha Hd Hs Hr)
    as [Henv Hlen].
  unfold adsr. rewrite Henv. cbn [bind].
  rewrite read_all_some. cbn [bind].
  unfold np.mul. apply broadcast_same_length. now rewrite Hlen.
Qed.

Lemma adsr_length (sig out : list R) (attack decay sustain release : R) :
  0 <= attack -> 0 <= decay -> 0 <= sustain -> 0 <= release ->
  adsr sig attack decay sustain release = Ok out ->
  length out = length sig.
Proof.
  intros Ha Hd Hs Hr H.
  rewrite adsr_ok in H by assumption. injection H as <-.
  rewrite length_map, length_combine.
  destruct (adsr_env_ok (length sig) attack decay sustain release Ha Hd Hs Hr)
    as [_ Hlen].
  rewrite Hlen. lia.
Qed.

(** C8: for non-negative parameters the stage bounds nest inside the
    buffer, [0 <= a <= a + d = s_start <= s_end <= s_end + rem <= N], so
    no slice has a negative length or leaves the array; the envelope array
    has every cell assigned; and [adsr] returns a buffer of length [N]. *)
Theorem adsr_stays_in_bounds (sig : list R) (attack decay sustain release : R) :
  0 <= attack -> 0 <= decay -> 0 <= sustain -> 0 <= release ->
  let n := Z.of_nat (length sig) in
  let '(a, d, r, s_start, s_end) := adsr_stages n attack decay release in
  (0 <= a <= n /\ 0 <= d /\ s_start = a + d /\ s_start <= s_end <= n /\
   0 <= Z.min r (n - s_end) /\ s_end + Z.min r (n - s_end) <= n)%Z
  /\ (exists env,
         adsr_env (length sig) attack decay sustain release = Ok (map Some env)
         /\ length env = length sig)
  /\ (exists out,
         adsr sig attack decay sustain release = Ok out
         /\ length out = length sig).
Proof.
  intros Ha Hd Hs Hr n. subst n.
  pose proof (adsr_stages_bounds (Z.of_nat (length sig)) attack decay release
                (Nat2Z.is_nonneg _) Ha Hd Hr) as HB.
  destruct (adsr_stages (Z.of_nat (length sig)) attack decay release)
    as [[[[a d] r] s_start] s_end].
  destruct HB as (Hba & Hbd & Hbr & Hss & Hse & Hrem & Hr0).
  split; [repeat split; lia |].
  split.
  - exists (envelope_curve (length sig) attack decay sustain release).
    now apply adsr_env_ok.
  - eexists. split; [now apply adsr_ok |].
    eapply adsr_length; [exact Ha | exact Hd | exact Hs | exact Hr |].
    now apply adsr_ok.
Qed.

Lemma adsr_stays_in_bounds_witness :
  let n := Z.of_nat (length [1; 1; 1]) in
  let '(a, d, r, s_start, s_end) := adsr_stages n 1 1 1 in
  (0 <= a <= n /\ 0 <= d /\ s_start = a + d /\ s_start <= s_end <= n /\
   0 <= Z.min r (n - s_end) /\ s_end + Z.min r (n - s_end) <= n)%Z
  /\ (exists env,
         adsr_env (length [1; 1; 1]) 1 1 0.7 1 = Ok (map Some env)
         /\ length env = length [1; 1; 1])
  /\ (exists out,
         adsr [1; 1; 1] 1 1 0.7 1 = Ok out
         /\ length out = length [1; 1; 1]).
Proof.
  apply (adsr_stays_in_bounds [1; 1; 1] 1 1 0.7 1); lra.
Defined.

(** ** The ends of the decay and release ramps *)

Lemma ramp_curve_first (start stop : R) (num : Z) (p : R) :
  (1 <= num)%Z ->
  nth 0%nat (ramp_curve start stop num p) 0 = np.pow_nonneg start p.
Proof.
  intros Hn. unfold ramp_curve, np.linspace_list.
  rewrite (nth_map_lt _ _ _ 0) by (rewrite length_map, arange_length; lia).
  rewrite (nth_map_lt _ _ _ 0%Z) by (rewrite arange_length; lia).
  rewrite arange_nth by lia. cbn [Z.of_nat].
  f_equal.
  destruct (Z.ltb_spec 1 num); destruct (Z.eqb_spec 0 (num - 1));
    cbn [andb]; try lia; lra.
Qed.

Lemma ramp_curve_last (start stop : R) (num : Z) (p : R) :
  (2 <= num)%Z ->
  nth (Z.to_nat (num - 1)) (ramp_curve start stop num p) 0
  = np.pow_nonneg stop p.
Proof.
  intros Hn. unfold ramp_curve, np.linspace_list.
  rewrite (nth_map_lt _ _ _ 0) by (rewrite length_map, arange_length; lia).
  rewrite (nth_map_lt _ _ _ 0%Z) by (rewrite arange_length; lia).
  rewrite arange_nth by lia. rewrite Z2Nat.id by lia.
  f_equal.
  destruct (Z.ltb_spec 1 num); [| lia].
  now rewrite Z.eqb_refl.
Qed.

Lemma Rpower_below_base (x p : R) : 0 < x < 1 -> 1 < p -> Rpower x p < x.
Proof.
  intros Hx Hp. unfold Rpower.
  rewrite <- (exp_ln x) at 2 by lra.
  apply exp_increasing.
  assert (Hln : ln x < 0).
  { rewrite <- ln_1. apply ln_increasing; lra. }
  nra.
Qed.

Lemma pow_nonneg_pos (x p : R) : 0 < x -> np.pow_nonneg x p = Rpower x p.
Proof.
  intros Hx. unfold np.pow_nonneg.
  destruct (Req_dec_T x 0); [lra | reflexivity].
Qed.

(** Where the decay ramp ends and where the release ramp starts, for any
    buffer and any non-negative parameters. *)
Lemma envelope_decay_end (len : nat) (attack decay sustain release : R)
    (a d r s_start s_end : Z) :
  0 <= attack -> 0 <= decay -> 0 <= sustain -> 0 <= release ->
  adsr_stages (Z.of_nat len) attack decay release = (a, d, r, s_start, s_end) ->
  (2 <= d)%Z ->
  nth (Z.to_nat (a + d - 1)) (envelope_curve len attack decay sustain release) 0
  = np.pow_nonneg sustain 1.4.
Proof.
  intros Ha Hd Hs Hr Hst Hd2.
  pose proof (adsr_stages_bounds (Z.of_nat len) attack decay release
                (Nat2Z.is_nonneg len) Ha Hd Hr) as HB.
  unfold envelope_curve. rewrite Hst in *.
  destruct HB as (Hba & Hbd & Hbr & Hss & Hse & Hrem & Hr0).
  rewrite app_nth2 by (rewrite ramp_curve_length; lia).
  rewrite app_nth1 by (rewrite !ramp_curve_length; lia).
  rewrite ramp_curve_length.
  replace (Z.to_nat (a + d - 1) - Z.to_nat a)%nat with (Z.to_nat (d - 1)) by lia.
  now apply ramp_curve_last.
Qed.

Lemma envelope_sustain (len : nat) (attack decay sustain release : R)
    (a d r s_start s_end i : Z) :
  0 <= attack -> 0 <= decay -> 0 <= sustain -> 0 <= release ->
  adsr_stages (Z.of_nat len) attack decay release = (a, d, r, s_start, s_end) ->
  (s_start <= i < s_end)%Z ->
  nth (Z.to_nat i) (envelope_curve len attack decay sustain release) 0 = sustain.
Proof.
  intros Ha Hd Hs Hr Hst Hi.
  pose proof (adsr_stages_bounds (Z.of_nat len) attack decay release
                (Nat2Z.is_nonneg len) Ha Hd Hr) as HB.
  unfold envelope_curve. rewrite Hst in *.
  destruct HB as (Hba & Hbd & Hbr & Hss & Hse & Hrem & Hr0).
  rewrite app_nth2 by (rewrite ramp_curve_length; lia).
  rewrite app_nth2 by (rewrite !ramp_curve_length; lia).
  rewrite app_nth1 by (rewrite !ramp_curve_length, repeat_length; lia).
  apply nth_repeat_lt. rewrite !ramp_curve_length. lia.
Qed.

Lemma envelope_release_start (len : nat) (attack decay sustain release : R)
    (a d r s_start s_end : Z) :
  0 <= attack -> 0 <= decay -> 0 <= sustain -> 0 <= release ->
  adsr_stages (Z.of_nat len) attack decay release = (a, d, r, s_start, s_end) ->
  (s_end < Z.of_nat len)%Z ->
  nth (Z.to_nat s_end) (envelope_curve len attack decay sustain release) 0
  = np.pow_nonneg sustain 1.6.
Proof.
  intros Ha Hd Hs Hr Hst Hlt.
  pose proof (adsr_stages_bounds (Z.of_nat len) attack decay release
                (Nat2Z.is_nonneg len) Ha Hd Hr) as HB.
  unfold envelope_curve. rewrite Hst in *.
  destruct HB as (Hba & Hbd & Hbr & Hss & Hse & Hrem & Hr0).
  rewrite app_nth2 by (rewrite ramp_curve_length; lia).
  rewrite app_nth2 by (rewrite !ramp_curve_length; lia).
  rewrite app_nth2 by (rewrite !ramp_curve_length, repeat_length; lia).
  rewrite !ramp_curve_length, repeat_length.
  replace (Z.to_nat s_end - Z.to_nat a - Z.to_nat d - Z.to_nat (s_end - s_start))%nat
    with 0%nat by lia.
  apply ramp_curve_first. lia.
Qed.

Lemma default_stages :
  adsr_stages (Z.of_nat (Z.to_nat 44100)) 0.01 0.05 0.1
  = (441, 2205, 4410, 2646, 39690)%Z.
Proof.
  rewrite Z2Nat.id by lia. unfold adsr_stages, SR.
  rewrite (py_int_eq 441 (0.01 * 44100)) by lra.
  rewrite (py_int_eq 2205 (0.05 * 44100)) by lra.
  rewrite (py_int_eq 4410 (0.1 * 44100)) by lra.
  reflexivity.
Qed.

(** C5 fails on the code at the envelope of the specification's own test:
    a one-second buffer with [attack = 0.01], [decay = 0.05],
    [sustain = 0.7], [release = 0.1].  The stages are
    [a = 441], [d = 2205], [r = 4410], the sustain region is
    [2646, 39690).  The decay ramp ends at [0.7 ^ 1.4], below the sustain
    level that follows it, and the release ramp starts at [0.7 ^ 1.6],
    below the sustain level that precedes it. *)
Theorem adsr_ramps_miss_sustain :
  exists env,
    adsr_env (Z.to_nat 44100) 0.01 0.05 0.7 0.1 = Ok (map Some env) /\
    nth (Z.to_nat 2645) env 0 = Rpower 0.7 1.4 /\
    Rpower 0.7 1.4 < 0.7 /\
    nth (Z.to_nat 2646) env 0 = 0.7 /\
    nth (Z.to_nat 39689) env 0 = 0.7 /\
    nth (Z.to_nat 39690) env 0 = Rpower 0.7 1.6 /\
    Rpower 0.7 1.6 < 0.7.
Proof.
  exists (envelope_curve (Z.to_nat 44100) 0.01 0.05 0.7 0.1).
  split; [apply adsr_env_ok; lra |].
  split; [| split; [| split; [| split; [| split]]]].
  - rewrite <- (pow_nonneg_pos 0.7 1.4) by lra.
    apply (envelope_decay_end (Z.to_nat 44100) 0.01 0.05 0.7 0.1
             441 2205 4410 2646 39690); try lra; try lia.
    apply default_stages.
  - apply Rpower_below_base; lra.
  - apply (envelope_sustain (Z.to_nat 44100) 0.01 0.05 0.7 0.1
             441 2205 4410 2646 39690); try lra; try lia.
    apply default_stages.
  - apply (envelope_sustain (Z.to_nat 44100) 0.01 0.05 0.7 0.1
             441 2205 4410 2646 39690); try lra; try lia.
    apply default_stages.
  - rewrite <- (pow_nonneg_pos 0.7 1.6) by lra.
    apply (envelope_release_start (Z.to_nat 44100) 0.01 0.05 0.7 0.1
             441 2205 4410 2646 39690); try lra; try lia.
    apply default_stages.
  - apply Rpower_below_base; lra.
Qed.

(** ** FM synthesis *)

Lemma py_div_ok (x y : R) : y <> 0 -> py_div x y = Ok (x / y).
Proof.
  intros Hy. unfold py_div. destruct (Req_dec_T y 0); [contradiction | reflexivity].
Qed.

Lemma linspace_open_nth (start stop : R) (num : Z) (i : nat) :
  (i < Z.to_nat num)%nat ->
  nth i (np.linspace_list start stop num false) 0
  = IZR (Z.of_nat i) * ((stop - start) / IZR num) + start.
Proof.
  intros Hi. unfold np.linspace_list.
  rewrite (nth_map_lt _ _ _ 0%Z) by now rewrite arange_length.
  now rewrite arange_nth.
Qed.

(** C10, as amended: in exact arithmetic, that is as long as no
    intermediate value leaves the range of a double, for [dur >= 0] and
    [mod_decay >= 0] the divisor of the modulation envelope is positive,
    so [fm_tone] never divides by zero; it returns a buffer of [_n dur]
    samples, and each sample is the sine of the phase-modulated carrier
    at its time step, a value of [-1, 1]. *)
Theorem fm_tone_is_total (carrier_hz dur mod_ratio mod_depth mod_decay : R) :
  0 <= dur -> 0 <= mod_decay ->
  0 < dur * mod_decay + 1e-9 /\
  exists buf,
    fm_tone carrier_hz dur mod_ratio mod_depth mod_decay = Ok buf /\
    length buf = Z.to_nat (_n dur) /\
    forall i, (i < length buf)%nat ->
      let t := IZR (Z.of_nat i) * ((dur - 0) / IZR (_n dur)) + 0 in
      nth i buf 0
      = sin (2 * PI * carrier_hz * t
             + sin (2 * PI * (carrier_hz * mod_ratio) * t) * mod_depth
               * exp (- t * (1.0 / (dur * mod_decay + 1e-9))))
      /\ -1 <= nth i buf 0 <= 1.
Proof.
  intros Hd Hm.
  assert (Hpos : 0 < dur * mod_decay + 1e-9).
  { assert (0 <= dur * mod_decay) by now apply Rmult_le_pos. lra. }
  split; [exact Hpos |].
  unfold fm_tone.
  rewrite linspace_ok by now apply _n_nonneg.
  cbn [bind]. rewrite py_div_ok by lra. cbn [bind].
  eexists. split; [reflexivity |].
  split; [now rewrite length_map, linspace_list_length |].
  intros i Hi. rewrite length_map, linspace_list_length in Hi.
  rewrite (nth_map_lt _ _ _ 0) by now rewrite linspace_list_length.
  rewrite linspace_open_nth by assumption. unfold np.pi.
  split; [reflexivity |].
  apply SIN_bound.
Qed.

Lemma fm_tone_is_total_witness :
  0 < 0.13 * 0 + 1e-9 /\
  exists buf,
    fm_tone 440 0.13 2.0 2.5 0 = Ok buf /\
    length buf = Z.to_nat (_n 0.13) /\
    forall i, (i < length buf)%nat ->
      let t := IZR (Z.of_nat i) * ((0.13 - 0) / IZR (_n 0.13)) + 0 in
      nth i buf 0
      = sin (2 * PI * 440 * t
             + sin (2 * PI * (440 * 2.0) * t) * 2.5
               * exp (- t * (1.0 / (0.13 * 0 + 1e-9))))
      /\ -1 <= nth i buf 0 <= 1.
Proof.
  apply (fm_tone_is_total 440 0.13 2.0 2.5 0); lra.
Defined.

(** In binary64 a NaN absorbs a product and a sum. *)
Lemma nan_mul_l (y : float) : (nan * y)%float = nan.
Proof. apply Prim2SF_inj. rewrite FloatAxioms.mul_spec. reflexivity. Qed.

Lemma nan_add_r (x : float) : (x + nan)%float = nan.
Proof.
  apply Prim2SF_inj. rewrite FloatAxioms.add_spec.
  change (Prim2SF nan) with S754_nan.
  unfold SF64add, SFadd.
  destruct (Prim2SF x) as [[|] | [|] | | s m e]; reflexivity.
Qed.

(** A duration of [1e306] seconds: [SR * dur] rounds to infinity and
    [int] refuses it, before any sample is computed. *)
Lemma fm_tone_overflows {L : Libm}
    (carrier_hz mod_ratio mod_depth mod_decay : float) :
  F64.fm_tone carrier_hz 1e306 mod_ratio mod_depth mod_decay
  = Raise OverflowError.
Proof. reflexivity. Qed.

(** A carrier of [1e308] Hz: [2 * pi * carrier_hz] rounds to infinity, the
    phase is [inf * 0 = nan] at the first time step and [inf] at the
    others, and the sine of either is NaN. *)
Lemma fm_tone_not_a_number {L : Libm} :
  F64.fm_tone 1e308 0.0001 2.0 2.5 0.5 = Ok [nan; nan; nan; nan].
Proof.
  destruct L as [fsin fexp Hsin].
  pose proof (Hsin nan eq_refl) as Hnan.
  pose proof (Hsin infinity eq_refl) as Hinf.
  pose proof nan_mul_l as Hmul. pose proof nan_add_r as Hadd.
  vm_compute in Hnan, Hinf, Hmul, Hadd |- *.
  rewrite Hnan, Hinf, !Hmul, !Hadd, Hnan.
  reflexivity.
Qed.

(** C10 as stated fails in binary64, whatever the C library: both calls
    have finite arguments, [dur >= 0] and [mod_decay >= 0]; the first
    raises instead of returning, the second returns four samples none of
    which is finite. *)
Lemma fm_tone_range_counterexample :
  (is_finite 440 && is_finite 1e306 && is_finite 1e308 && is_finite 0.0001
   && is_finite 2.0 && is_finite 2.5 && is_finite 0.5
   && (0 <=? 1e306) && (0 <=? 0.0001) && (0 <=? 0.5))%float = true /\
  (forall L : Libm,
      @F64.fm_tone L 440 1e306 2.0 2.5 0.5 = Raise OverflowError) /\
  (forall L : Libm,
      exists buf,
        @F64.fm_tone L 1e308 0.0001 2.0 2.5 0.5 = Ok buf /\
        length buf = 4%nat /\
        Forall (fun v => is_finite v = false) buf).
Proof.
  split; [reflexivity |]. split.
  - intros L. apply fm_tone_overflows.
  - intros L. exists [nan; nan; nan; nan]%float.
    split; [apply fm_tone_not_a_number |].
    split; [reflexivity |].
    repeat (constructor; [reflexivity |]). constructor.
Qed.

(** ** WAV export *)

Lemma fold_Rmax_ge_init (t : list R) : forall x, x <= fold_left Rmax t x.
Proof.
  induction t as [| y t IH]; intros x; cbn [fold_left]; [lra |].
  apply Rle_trans with (Rmax x y); [apply Rmax_l | apply IH].
Qed.

Lemma fold_Rmax_ge_In (t : list R) :
  forall x y, In y t -> y <= fold_left Rmax t x.
Proof.
  induction t as [| z t IH]; intros x y Hy; [contradiction |].
  cbn [fold_left]. destruct Hy as [-> | Hy].
  - apply Rle_trans with (Rmax x y); [apply Rmax_r | apply fold_Rmax_ge_init].
  - now apply IH.
Qed.

Lemma fold_Rmax_attained (t : list R) :
  forall x, In (fold_left Rmax t x) (x :: t).
Proof.
  induction t as [| z t IH]; intros x; cbn [fold_left]; [now left |].
  destruct (IH (Rmax x z)) as [H | H].
  - unfold Rmax in H at 1. destruct (Rle_dec x z).
    + right. left. exact H.
    + left. exact H.
  - right. right. exact H.
Qed.

(** The peak of a non-empty buffer bounds every sample and is attained. *)
Lemma peak_spec (samples : list R) (p : R) :
  np.max (map Rabs samples) = Ok p ->
  (forall x, In x samples -> Rabs x <= p) /\
  (exists x, In x samples /\ Rabs x = p).
Proof.
  destruct samples as [| s t]; [discriminate |].
  cbn [map np.max]. intros H. injection H as <-.
  split.
  - intros x [-> | Hx].
    + apply fold_Rmax_ge_init.
    + apply fold_Rmax_ge_In. now apply in_map.
  - destruct (fold_Rmax_attained (map Rabs t) (Rabs s)) as [H | H].
    + exists s. split; [now left | exact H].
    + apply in_map_iff in H. destruct H as [x [Hx Hin]].
      exists x. split; [now right | exact Hx].
Qed.

Lemma peak_of_zeros (samples : list R) :
  samples <> [] ->
  (forall x, In x samples -> x = 0) ->
  np.max (map Rabs samples) = Ok 0.
Proof.
  intros Hne Hz. destruct samples as [| s t]; [contradiction |].
  cbn [map np.max]. f_equal.
  rewrite (Hz s) by now left. rewrite Rabs_R0.
  assert (Ht : forall x, In x t -> x = 0) by (intros x Hx; apply Hz; now right).
  clear Hz Hne. induction t as [| y t IH]; [reflexivity |].
  cbn [map fold_left]. rewrite (Ht y) by now left.
  rewrite Rabs_R0. unfold Rmax at 2. destruct (Rle_dec 0 0); [| lra].
  apply IH. intros x Hx. apply Ht. now right.
Qed.

Lemma clip_inside (x : R) : -32767 <= x <= 32767 -> np.clip x (-32767) 32767 = x.
Proof.
  intros [Hl Hu]. unfold np.clip.
  rewrite Rmax_left by lra. now rewrite Rmin_left by lra.
Qed.

Lemma py_int_abs_le (y : R) (M : Z) :
  (0 <= M)%Z -> Rabs y < IZR M + 1 -> (Z.abs (py_int y) <= M)%Z.
Proof.
  intros HM Hy. unfold py_int. destruct (Rle_dec 0 y) as [Hpos | Hneg].
  - rewrite Rabs_right in Hy by lra.
    pose proof (Zfloor_bound y) as [Hlo Hhi].
    assert (0 <= Zfloor y)%Z by (apply Zfloor_lub; simpl; lra).
    assert (Zfloor y < M + 1)%Z.
    { apply lt_IZR. rewrite plus_IZR. simpl. lra. }
    lia.
  - rewrite Rabs_left in Hy by lra.
    pose proof (Zceil_bound y) as [Hlo Hhi].
    assert (Zceil y <= 0)%Z.
    { apply Z.lt_succ_r. apply lt_IZR. simpl. lra. }
    assert (- M - 1 < Zceil y)%Z.
    { apply lt_IZR. rewrite minus_IZR, opp_IZR. simpl. lra. }
    lia.
Qed.

Lemma astype_int16_inside (y : R) :
  Rabs y < 32768 -> astype_int16 y = py_int y.
Proof.
  intros Hy. unfold astype_int16.
  assert (H : (Z.abs (py_int y) <= 32767)%Z)
    by (apply py_int_abs_le; [lia | simpl; lra]).
  rewrite Z.mod_small by lia. lia.
Qed.

Lemma py_int_ceiling_pos : py_int (0.82 * 32767) = 26868%Z.
Proof. apply py_int_eq; [lra |]. split; lra. Qed.

Lemma py_int_ceiling_neg : py_int (- (0.82 * 32767)) = (-26868)%Z.
Proof.
  unfold py_int. destruct (Rle_dec 0 (- (0.82 * 32767))) as [H | _]; [lra |].
  apply Zceil_eq. split; simpl; lra.
Qed.

Lemma peak_abs_spec (l : list Z) (M : Z) :
  (0 <= M)%Z ->
  (forall v, In v l -> (Z.abs v <= M)%Z) ->
  (exists v, In v l /\ Z.abs v = M) ->
  peak_abs l = M.
Proof.
  intros HM Hall [v [Hin Hv]].
  induction l as [| w l IH]; [contradiction |].
  cbn [peak_abs fold_right]. fold (peak_abs l).
  assert (Hw : (Z.abs w <= M)%Z) by (apply Hall; now left).
  assert (Hl : (peak_abs l <= M)%Z).
  { clear IH Hin. assert (Hall' : forall v, In v l -> (Z.abs v <= M)%Z)
      by (intros u Hu; apply Hall; now right).
    clear Hall. induction l as [| u l IHl]; [exact HM |].
    cbn [peak_abs fold_right]. fold (peak_abs l).
    assert ((Z.abs u <= M)%Z) by (apply Hall'; now left).
    assert ((peak_abs l <= M)%Z) by (apply IHl; intros z Hz; apply Hall'; now right).
    lia. }
  destruct Hin as [-> | Hin].
  - lia.
  - assert (peak_abs l = M) by (apply IH; [intros u Hu; apply Hall; now right | exact Hin]).
    lia.
Qed.

Lemma Rabs_le_bounds (x p : R) : Rabs x <= p -> - p <= x <= p.
Proof.
  unfold Rabs. destruct (Rcase_abs x); intros H; lra.
Qed.

(** The quantised value of one sample of a buffer of peak [p > 0]. *)
Lemma quantise_sample (x p : R) :
  0 < p -> Rabs x <= p ->
  astype_int16 (np.clip (x / p * VOLUME * 32767) (-32767) 32767)
  = py_int (x / p * VOLUME * 32767)
  /\ (Z.abs (py_int (x / p * VOLUME * 32767)) <= 26868)%Z
  /\ (Rabs x = p -> Z.abs (py_int (x / p * VOLUME * 32767)) = 26868%Z).
Proof.
  intros Hp Hx. unfold VOLUME.
  assert (Hq : -1 <= x / p <= 1).
  { apply Rabs_le_bounds in Hx. destruct Hx as [Hl Hu].
    split.
    - apply Rmult_le_reg_r with p; [exact Hp |].
      unfold Rdiv. rewrite Rmult_assoc, Rinv_l by lra. lra.
    - apply Rmult_le_reg_r with p; [exact Hp |].
      unfold Rdiv. rewrite Rmult_assoc, Rinv_l by lra. lra. }
  assert (Hy : Rabs (x / p * 0.82 * 32767) < 26869).
  { apply Rabs_def1; nra. }
  split.
  - rewrite clip_inside by (apply Rabs_def2 in Hy; lra).
    apply astype_int16_inside. lra.
  - split.
    + apply py_int_abs_le; [lia | simpl; lra].
    + intros Hpeak. unfold Rabs in Hpeak. destruct (Rcase_abs x) as [Hneg | Hpos].
      * replace (x / p * 0.82 * 32767) with (- (0.82 * 32767))
          by (rewrite <- Hpeak; field; lra).
        now rewrite py_int_ceiling_neg.
      * replace (x / p * 0.82 * 32767) with (0.82 * 32767)
          by (rewrite <- Hpeak; field; lra).
        now rewrite py_int_ceiling_pos.
Qed.

Lemma save_pcm_scaled (samples : list R) (p : R) :
  np.max (map Rabs samples) = Ok p -> 0 < p ->
  save_pcm samples
  = Ok (map (fun x => astype_int16 (np.clip (x * 32767) (-32767) 32767))
          (map (fun x => x / p * VOLUME) samples)).
Proof.
  intros Hmax Hp. unfold save_pcm. rewrite Hmax. cbn [bind].
  destruct (Rlt_dec 0 p); [reflexivity | contradiction].
Qed.

(** C7, as amended.  A non-empty all-zero buffer is quantised to zeros,
    with no scaling and no error.  A buffer of peak [p > 0] is scaled to
    peak 0.82; each scaled sample times 32767 lies inside the clamp and
    becomes the 16-bit integer of its truncation; the largest magnitude
    written is 26868, which is 0.82 to within one step of [1 / 32767]. *)
Theorem save_normalises_and_quantises :
  (forall samples : list R,
      samples <> [] ->
      (forall x, In x samples -> x = 0) ->
      save_pcm samples = Ok (repeat 0%Z (length samples)))
  /\
  (forall (samples : list R) (p : R),
      np.max (map Rabs samples) = Ok p ->
      0 < p ->
      let scaled := map (fun x => x / p * VOLUME) samples in
      np.max (map Rabs scaled) = Ok VOLUME /\
      exists pcm,
        save_pcm samples = Ok pcm /\
        pcm = map (fun x => astype_int16 (np.clip (x * 32767) (-32767) 32767))
                  scaled /\
        pcm = map (fun x => py_int (x * 32767)) scaled /\
        (forall v, In v pcm -> (-32767 <= v <= 32767)%Z) /\
        peak_abs pcm = 26868%Z /\
        Rabs (IZR (peak_abs pcm) / 32767 - VOLUME) < 1 / 32767).
Proof.
  split.
  - intros samples Hne Hz. unfold save_pcm.
    rewrite peak_of_zeros by assumption. cbn [bind].
    destruct (Rlt_dec 0 0) as [H | _]; [lra |].
    f_equal. clear Hne. induction samples as [| s t IH]; [reflexivity |].
    cbn [map length repeat]. rewrite (Hz s) by now left.
    rewrite IH by (intros x Hx; apply Hz; now right).
    f_equal. rewrite Rmult_0_l, clip_inside by lra.
    rewrite astype_int16_inside by (rewrite Rabs_R0; lra).
    apply py_int_eq; [lra |]. simpl. lra.
  - intros samples p Hmax Hp scaled.
    destruct (peak_spec samples p Hmax) as [Hall [xm [Hxm Hpeak]]].
    assert (Hq : forall x, In x samples ->
               astype_int16 (np.clip (x / p * VOLUME * 32767) (-32767) 32767)
               = py_int (x / p * VOLUME * 32767)
               /\ (Z.abs (py_int (x / p * VOLUME * 32767)) <= 26868)%Z
               /\ (Rabs x = p -> Z.abs (py_int (x / p * VOLUME * 32767)) = 26868%Z)).
    { intros x Hx. apply quantise_sample; [exact Hp | now apply Hall]. }
    assert (Hpcm : map (fun x => astype_int16 (np.clip (x * 32767) (-32767) 32767)) scaled
                   = map (fun x => py_int (x * 32767)) scaled).
    { subst scaled. rewrite !map_map. apply map_ext_in.
      intros x Hx. now destruct (Hq x Hx) as [-> _]. }
    assert (Hpk : peak_abs (map (fun x => py_int (x * 32767)) scaled) = 26868%Z).
    { apply peak_abs_spec; [lia | |].
      - intros v Hv. subst scaled. rewrite map_map in Hv.
        apply in_map_iff in Hv. destruct Hv as [x [<- Hx]].
        now destruct (Hq x Hx) as [_ [H _]].
      - exists (py_int (xm / p * VOLUME * 32767)). split.
        + subst scaled. rewrite map_map. apply in_map_iff.
          exists xm. now split.
        + destruct (Hq xm Hxm) as [_ [_ H]]. now apply H. }
    split.
    + (* the scaled peak *)
      subst scaled.
      destruct samples as [| s t]; [discriminate |].
      cbn [map np.max]. f_equal. rewrite map_map.
      apply Rle_antisym.
      * destruct (fold_Rmax_attained
                    (map (fun x => Rabs (x / p * VOLUME)) t)
                    (Rabs (s / p * VOLUME))) as [H | H].
        -- rewrite <- H. unfold VOLUME.
           assert (Rabs s <= p) by (apply Hall; now left).
           unfold Rdiv. rewrite !Rabs_mult, (Rabs_right 0.82) by lra.
           rewrite (Rabs_right (/ p)) by (apply Rle_ge, Rlt_le, Rinv_0_lt_compat; lra).
           assert (Rabs s * / p <= 1).
           { apply Rmult_le_reg_r with p; [exact Hp |].
             rewrite Rmult_assoc, Rinv_l by lra. lra. }
           nra.
        -- apply in_map_iff in H.
           destruct H as [x [Hx Hin]]. rewrite <- Hx. unfold VOLUME.
           assert (Rabs x <= p) by (apply Hall; now right).
           unfold Rdiv. rewrite !Rabs_mult, (Rabs_right 0.82) by lra.
           rewrite (Rabs_right (/ p)) by (apply Rle_ge, Rlt_le, Rinv_0_lt_compat; lra).
           assert (Rabs x * / p <= 1).
           { apply Rmult_le_reg_r with p; [exact Hp |].
             rewrite Rmult_assoc, Rinv_l by lra. lra. }
           nra.
      * assert (Hv : Rabs (xm / p * VOLUME) = VOLUME).
        { unfold VOLUME, Rdiv.
          rewrite !Rabs_mult, (Rabs_right 0.82) by lra.
          rewrite (Rabs_right (/ p)) by (apply Rle_ge, Rlt_le, Rinv_0_lt_compat; lra).
          rewrite Hpeak. field. lra. }
        rewrite <- Hv at 1.
        destruct Hxm as [-> | Hin].
        -- apply fold_Rmax_ge_init.
        -- apply fold_Rmax_ge_In. apply in_map_iff.
           exists xm. now split.
    + exists (map (fun x => astype_int16 (np.clip (x * 32767) (-32767) 32767)) scaled).
      split; [now apply save_pcm_scaled |].
      split; [reflexivity |].
      split; [exact Hpcm |].
      rewrite Hpcm, Hpk.
      split.
      * intros v Hv. subst scaled. rewrite map_map in Hv.
        apply in_map_iff in Hv. destruct Hv as [x [<- Hx]].
        destruct (Hq x Hx) as [_ [H _]]. lia.
      * split; [reflexivity |].
        unfold VOLUME. apply Rabs_def1; lra.
Qed.

Lemma save_normalises_and_quantises_witness :
  save_pcm [0; 0] = Ok (repeat 0%Z (length [0; 0]))
  /\
  (let scaled := map (fun x => x / 2 * VOLUME) [1; -2] in
   np.max (map Rabs scaled) = Ok VOLUME /\
   exists pcm,
     save_pcm [1; -2] = Ok pcm /\
     pcm = map (fun x => astype_int16 (np.clip (x * 32767) (-32767) 32767))
               scaled /\
     pcm = map (fun x => py_int (x * 32767)) scaled /\
     (forall v, In v pcm -> (-32767 <= v <= 32767)%Z) /\
     peak_abs pcm = 26868%Z /\
     Rabs (IZR (peak_abs pcm) / 32767 - VOLUME) < 1 / 32767).
Proof.
  split.
  - apply (proj1 save_normalises_and_quantises).
    + discriminate.
    + intros x [<- | [<- | []]]; reflexivity.
  - apply (proj2 save_normalises_and_quantises [1; -2] 2).
    + cbn [map np.max fold_left]. f_equal.
      rewrite Rabs_R1, (Rabs_left (-2)) by lra.
      rewrite Rmax_right by lra. lra.
    + lra.
Defined.

(** C7 as stated fails on the empty buffer, which is all zeros: the peak
    of nothing is an error, and no file is written. *)
Lemma save_empty_counterexample :
  (forall x, In x (@nil R) -> x = 0) /\
  save_pcm [] = Raise ValueError /\
  (forall (filename : string) (dk : disk), save filename [] dk = Raise ValueError).
Proof.
  split; [intros x [] |].
  split; reflexivity.
Qed.

(** ** Parameters outside their range *)

Lemma py_int_le_minus_one (x : R) : x <= -1 -> (py_int x <= -1)%Z.
Proof.
  intros Hx. unfold py_int. destruct (Rle_dec 0 x) as [H | _]; [lra |].
  replace (-1)%Z with (Zceil (IZR (-1))) by (apply Zceil_eq; simpl; lra).
  now apply Zceil_le.
Qed.

Lemma py_int_small_negative (x : R) : -1 < x < 0 -> py_int x = 0%Z.
Proof.
  intros Hx. unfold py_int. destruct (Rle_dec 0 x) as [H | _]; [lra |].
  apply Zceil_eq. simpl. lra.
Qed.

Lemma uniform_negative {G : Generator} (low high : R) (size : Z) (g : gen) :
  (size < 0)%Z -> uniform low high size g = Raise ValueError.
Proof.
  intros Hs. unfold uniform.
  destruct (Z.ltb_spec size 0); [reflexivity | lia].
Qed.

Lemma primitives_negative_length {G : Generator} (f d : R) (g : gen) :
  (_n d < 0)%Z -> primitives_raise f d g ValueError.
Proof.
  intros Hn.
  assert (Hc : _const_phase f d = Raise ValueError)
    by (unfold _const_phase; now rewrite full_negative).
  unfold primitives_raise, sine, square, soft_square, sawtooth, triangle,
    noise_white, noise_pink, silence, np.zeros.
  rewrite Hc, uniform_negative, full_negative by assumption.
  repeat split.
Qed.

Lemma lowpass_loop_length (alpha : R) (sig : list R) :
  forall y, length (lowpass_loop alpha y sig) = length sig.
Proof.
  induction sig as [| x t IH]; intros y; [reflexivity |].
  cbn [lowpass_loop length]. now rewrite IH.
Qed.

Lemma lowpass_fast_ok (sig : list R) (cutoff_hz : R) :
  cutoff_hz <> 0 ->
  cutoff_hz <> - IZR SR / (2 * PI) ->
  exists out, lowpass_fast sig cutoff_hz = Ok out /\ length out = length sig.
Proof.
  intros Hc0 Hc1. unfold lowpass_fast, np.pi.
  pose proof PI_RGT_0 as Hpi.
  replace 1.0 with 1 by lra.
  rewrite py_div_ok by (apply Rmult_integral_contrapositive; split; [lra | exact Hc0]).
  cbn [bind].
  rewrite py_div_ok by (unfold SR; lra).
  cbn [bind].
  rewrite py_div_ok.
  - cbn [bind]. eexists. split; [reflexivity |]. apply lowpass_loop_length.
  - intros H. apply Hc1. unfold SR in *.
    assert (H2 : 1 / (2 * PI * cutoff_hz) = - (1 / 44100)) by lra.
    assert (Hne : 2 * PI * cutoff_hz <> 0)
      by (apply Rmult_integral_contrapositive; split; [lra | exact Hc0]).
    assert (H3 : 1 = - (1 / 44100) * (2 * PI * cutoff_hz)).
    { rewrite <- H2. field. split; [exact Hc0 | lra]. }
    apply Rmult_eq_reg_l with (2 * PI); [| lra].
    transitivity (- (44100)); [lra | field; lra].
Qed.

(** C6, as amended.  The primitives check nothing themselves; a call fails
    exactly where the operation underneath fails.  A duration with
    [44100 * d <= -1] makes all eight primitives raise (numpy refuses the
    negative length), and [cutoff = 0] makes [lowpass_fast] raise a
    division by zero.  A negative frequency returns a buffer as a positive
    one does, a negative duration above [-1 / 44100] returns an empty
    buffer, and a negative cutoff other than [-44100 / (2 pi)] returns a
    filtered buffer. *)
Theorem failures_come_from_numpy_only {G : Generator} :
  (forall (f d : R) (g : gen),
      IZR SR * d <= -1 -> primitives_raise f d g ValueError)
  /\ (forall sig : list R, lowpass_fast sig 0 = Raise ZeroDivisionError)
  /\ (forall (f d : R) (g : gen),
         f < 0 -> 0 <= d -> primitives_return f d g (Z.to_nat (_n d)))
  /\ (forall (f d : R) (g : gen),
         -1 < IZR SR * d < 0 -> primitives_return f d g 0)
  /\ (forall (sig : list R) (cutoff_hz : R),
         cutoff_hz < 0 ->
         cutoff_hz <> - IZR SR / (2 * PI) ->
         exists out,
           lowpass_fast sig cutoff_hz = Ok out /\ length out = length sig).
Proof.
  split; [| split; [| split; [| split]]].
  - intros f d g Hd. apply primitives_negative_length.
    unfold _n. pose proof (py_int_le_minus_one _ Hd). lia.
  - intros sig. unfold lowpass_fast, py_div, np.pi.
    destruct (Req_dec_T (2 * PI * 0) 0) as [_ | H]; [reflexivity |].
    exfalso. apply H. ring.
  - intros f d g _ Hd. apply primitives_length_n. now apply _n_nonneg.
  - intros f d g Hd.
    assert (Hn : _n d = 0%Z) by (unfold _n; now apply py_int_small_negative).
    replace 0%nat with (Z.to_nat (_n d)) by (rewrite Hn; reflexivity).
    apply primitives_length_n. lia.
  - intros sig c Hc Hne. apply lowpass_fast_ok; [lra | exact Hne].
Qed.

Lemma failures_come_from_numpy_only_witness :
  primitives_raise (G := lcg) 440 (-1) 42%Z ValueError
  /\ primitives_return (G := lcg) (-440) 1 42%Z (Z.to_nat (_n 1))
  /\ primitives_return (G := lcg) 440 (-0.00001) 42%Z 0
  /\ (exists out,
         lowpass_fast [1; 2; 3] (-1000) = Ok out /\ length out = length [1; 2; 3]).
Proof.
  pose proof (failures_come_from_numpy_only (G := lcg)) as (H1 & _ & H3 & H4 & H5).
  split; [| split; [| split]].
  - apply H1. unfold SR. lra.
  - apply H3; lra.
  - apply H4. unfold SR. lra.
  - apply H5; [lra |].
    pose proof PI_RGT_0 as Hpi. pose proof PI_4 as Hpi4. unfold SR.
    intros H.
    assert (H2 : -1000 * (2 * PI) = - 44100) by (rewrite H; field; lra).
    nra.
Defined.

(** C6 as stated fails: a negative frequency and a negative cutoff are
    accepted, and a buffer comes back. *)
Lemma negative_frequency_counterexample :
  (exists buf, sine (-440) 1 = Ok buf /\ length buf = Z.to_nat 44100)
  /\ (exists out, lowpass_fast [1; 2; 3] (-1000) = Ok out /\ length out = 3%nat).
Proof.
  split.
  - eexists. split; [apply sine_ok; rewrite _n_one; lia |].
    now rewrite length_map, _const_phase_length, _n_one.
  - apply lowpass_fast_ok; [lra |].
    pose proof PI_RGT_0 as Hpi. pose proof PI_4 as Hpi4. unfold SR.
    intros H.
    assert (H2 : -1000 * (2 * PI) = - 44100) by (rewrite H; field; lra).
    nra.
Qed.

(** ** The batch loop *)

Lemma main_loop_app {G : Generator} (pre post : list (string * recipe)) :
  forall (g : gen) (dk : disk),
    main_loop (pre ++ post) g dk
    = match main_loop pre g dk with
      | (dk1, Ok g1) => main_loop post g1 dk1
      | (dk1, Raise e) => (dk1, Raise e)
      end.
Proof.
  induction pre as [| [filename fn] pre IH]; intros g dk; [reflexivity |].
  cbn [app main_loop].
  destruct (fn g) as [[samples g'] | e]; [| reflexivity].
  destruct (save filename samples dk) as [dk' | e]; [| reflexivity].
  apply IH.
Qed.

Lemma save_files (filename : string) (samples : list R) (dk dk' : disk) :
  save filename samples dk = Ok dk' ->
  writable dk' = writable dk /\
  exists w, files dk' = (filename, w) :: files dk.
Proof.
  unfold save. destruct (save_pcm samples) as [pcm |]; [| discriminate].
  cbn [bind]. destruct (writable dk filename); [| discriminate].
  intros H. injection H as <-. cbn. split; [reflexivity |].
  eexists. reflexivity.
Qed.

(** The loop writes files named by its manifest only. *)
Lemma main_loop_files {G : Generator} (sounds : list (string * recipe)) :
  forall (g : gen) (dk dk1 : disk) (r : result gen),
    main_loop sounds g dk = (dk1, r) ->
    forall name,
      In name (map fst (files dk1)) ->
      In name (map fst (files dk)) \/ In name (map fst sounds).
Proof.
  induction sounds as [| [filename fn] sounds IH]; intros g dk dk1 r H name Hin.
  - cbn in H. injection H as <- _. now left.
  - cbn [main_loop] in H.
    destruct (fn g) as [[samples g'] | e].
    + destruct (save filename samples dk) as [dk' | e] eqn:Hsave.
      * destruct (save_files _ _ _ _ Hsave) as [_ [w Hw]].
        destruct (IH _ _ _ _ H name Hin) as [H1 | H1].
        -- rewrite Hw in H1. cbn in H1. destruct H1 as [<- | H1].
           ++ right. now left.
           ++ now left.
        -- right. now right.
      * injection H as <- _. now left.
    + injection H as <- _. now left.
Qed.

Lemma save_pcm_ok (samples : list R) :
  samples <> [] -> exists pcm, save_pcm samples = Ok pcm.
Proof.
  intros Hne. unfold save_pcm.
  destruct samples as [| s t]; [contradiction |].
  cbn [map np.max bind]. eexists. reflexivity.
Qed.

Lemma save_unwritable (filename : string) (samples : list R) (dk : disk) :
  samples <> [] ->
  writable dk filename = false ->
  save filename samples dk = Raise OSError.
Proof.
  intros Hne Hw. unfold save.
  destruct (save_pcm_ok samples Hne) as [pcm ->]. cbn [bind].
  now rewrite Hw.
Qed.

(** C9, as amended: a failure to write one recipe's file is not caught.
    It ends the run with that error: the directory stays as the entries
    before it left it, holding files named by those entries only, and no
    later entry is generated or written. *)
Theorem write_failure_ends_the_batch {G : Generator}
    (pre post : list (string * recipe)) (filename : string) (fn : recipe)
    (g g1 g2 : gen) (dk dk1 : disk) (samples : list R) :
  main_loop pre g dk = (dk1, Ok g1) ->
  fn g1 = Ok (samples, g2) ->
  samples <> [] ->
  writable dk1 filename = false ->
  main_loop (pre ++ (filename, fn) :: post) g dk = (dk1, Raise OSError)
  /\ (forall name,
         In name (map fst (files dk1)) ->
         In name (map fst (files dk)) \/ In name (map fst pre)).
Proof.
  intros Hpre Hfn Hne Hw. split.
  - rewrite main_loop_app, Hpre. cbn [main_loop]. rewrite Hfn.
    now rewrite save_unwritable.
  - intros name Hin. eapply main_loop_files; eassumption.
Qed.

(** *** The first recipe renders *)

Lemma fm_tone_ok (carrier_hz dur mod_ratio mod_depth mod_decay : R) :
  0 <= dur -> 0 <= mod_decay ->
  exists b,
    fm_tone carrier_hz dur mod_ratio mod_depth mod_decay = Ok b
    /\ length b = Z.to_nat (_n dur).
Proof.
  intros Hd Hm. unfold fm_tone.
  rewrite linspace_ok by now apply _n_nonneg.
  cbn [bind].
  assert (0 <= dur * mod_decay) by now apply Rmult_le_pos.
  rewrite py_div_ok by lra. cbn [bind].
  eexists. split; [reflexivity |].
  now rewrite length_map, linspace_list_length.
Qed.

Lemma adsr_returns (sig : list R) (attack decay sustain release : R) :
  0 <= attack -> 0 <= decay -> 0 <= sustain -> 0 <= release ->
  exists out,
    adsr sig attack decay sustain release = Ok out /\ length out = length sig.
Proof.
  intros Ha Hd Hs Hr. eexists. split; [now apply adsr_ok |].
  eapply adsr_length; [exact Ha | exact Hd | exact Hs | exact Hr |].
  now apply adsr_ok.
Qed.

Lemma scale_length (a : list R) (c : R) : length (scale a c) = length a.
Proof. apply length_map. Qed.

Lemma fm_note_ok (freq dur mod_ratio mod_depth mod_decay
                  attack decay_t sustain release amp : R) :
  0 <= dur -> 0 <= mod_decay ->
  0 <= attack -> 0 <= decay_t -> 0 <= sustain -> 0 <= release ->
  exists b,
    fm_note freq dur mod_ratio mod_depth mod_decay
            attack decay_t sustain release amp = Ok b
    /\ length b = Z.to_nat (_n dur).
Proof.
  intros Hd Hm Ha Hdt Hs Hr. unfold fm_note.
  destruct (fm_tone_ok freq dur mod_ratio mod_depth mod_decay Hd Hm)
    as [s [-> Hl]].
  cbn [bind].
  destruct (adsr_returns s attack decay_t sustain release Ha Hdt Hs Hr)
    as [e [-> Hle]].
  cbn [bind]. eexists. split; [reflexivity |].
  rewrite scale_length. lia.
Qed.

Lemma slice_update_length {A B : Type} (f : A -> B -> A)
    (a a' : list A) (lo hi : Z) (v : list B) :
  slice_update f a lo hi v = Ok a' -> length a' = length a.
Proof.
  unfold slice_update, slice_bounds.
  set (len := Z.of_nat (length a)).
  set (s := if (lo <? 0)%Z then Z.max (lo + len) 0 else Z.min lo len).
  set (e := if (hi <? 0)%Z then Z.max (hi + len) 0 else Z.min hi len).
  assert (Hs : (0 <= s <= len)%Z).
  { subst s len. destruct (Z.ltb_spec lo 0); lia. }
  assert (He : (0 <= e <= len)%Z).
  { subst e len. destruct (Z.ltb_spec hi 0); lia. }
  destruct (Nat.eqb_spec (length v) (Z.to_nat (e - s))) as [Hv | Hv].
  - intros H. injection H as <-.
    rewrite !length_app, length_map, length_combine, !length_firstn,
      !length_skipn.
    subst len. lia.
  - destruct v as [| y [| z v]]; try discriminate.
    intros H. injection H as <-.
    rewrite !length_app, length_map, !length_firstn, !length_skipn.
    subst len. lia.
Qed.

Lemma overlay_step (out a : list R) :
  (length a <= length out)%nat ->
  exists out',
    slice_update Rplus out 0 (Z.of_nat (length a)) a = Ok out'
    /\ length out' = length out.
Proof.
  intros Hle.
  assert (H : exists out', slice_update Rplus out 0 (Z.of_nat (length a)) a = Ok out').
  { unfold slice_update, slice_bounds.
    destruct (Z.ltb_spec 0 0); [lia |].
    destruct (Z.ltb_spec (Z.of_nat (length a)) 0); [lia |].
    replace (Z.to_nat (Z.min (Z.of_nat (length a)) (Z.of_nat (length out))
                       - Z.min 0 (Z.of_nat (length out))))
      with (length a) by lia.
    rewrite Nat.eqb_refl. eexists. reflexivity. }
  destruct H as [out' H]. exists out'. split; [exact H |].
  eapply slice_update_length. exact H.
Qed.

Lemma overlay_fold (arrays : list (list R)) :
  forall out,
    Forall (fun a => (length a <= length out)%nat) arrays ->
    exists out',
      fold_left
        (fun acc a =>
           out <- acc ;;
           slice_update Rplus out 0 (Z.of_nat (length a)) a)
        arrays (Ok out) = Ok out'
      /\ length out' = length out.
Proof.
  induction arrays as [| a arrays IH]; intros out Hall.
  - exists out. now split.
  - inversion Hall as [| ? ? Ha Hrest]; subst.
    cbn [fold_left bind].
    destruct (overlay_step out a Ha) as [o [-> Hl]].
    destruct (IH o) as [o' [Ho' Hl']].
    + eapply Forall_impl; [| exact Hrest]. intros b Hb. cbn in Hb. lia.
    + exists o'. split; [exact Ho' | lia].
Qed.

Lemma fold_max_ge_init (l : list nat) :
  forall m, (m <= fold_left Nat.max l m)%nat.
Proof.
  induction l as [| x l IH]; intros m; cbn [fold_left]; [lia |].
  specialize (IH (Nat.max m x)). lia.
Qed.

Lemma fold_max_ge_In (l : list nat) :
  forall m x, In x l -> (x <= fold_left Nat.max l m)%nat.
Proof.
  induction l as [| y l IH]; intros m x Hx; [contradiction |].
  cbn [fold_left]. destruct Hx as [-> | Hx].
  - pose proof (fold_max_ge_init l (Nat.max m x)). lia.
  - now apply IH.
Qed.

Lemma overlay_ok (a0 : list R) (rest : list (list R)) :
  exists out,
    overlay (a0 :: rest) = Ok out
    /\ length out = fold_left Nat.max (map (@length R) rest) (length a0).
Proof.
  unfold overlay. rewrite zeros_ok by lia. rewrite Nat2Z.id.
  set (n := fold_left Nat.max (map (@length R) rest) (length a0)).
  destruct (overlay_fold (a0 :: rest) (repeat 0 n)) as [o [Ho Hl]].
  - rewrite repeat_length. constructor.
    + apply fold_max_ge_init.
    + rewrite Forall_forall. intros b Hb.
      apply fold_max_ge_In. now apply in_map.
  - exists o. split; [exact Ho |]. now rewrite Hl, repeat_length.
Qed.

Lemma reverb_returns (sig : list R) (room wet damping : R) :
  0 <= room ->
  exists out,
    reverb sig room wet damping = Ok out /\ length out = length sig.
Proof.
  intros Hr.
  destruct (reverb_ok sig room wet damping Hr) as [o [Hl ->]].
  unfold np.add. rewrite broadcast_same_length by (rewrite !length_map; lia).
  eexists. split; [reflexivity |].
  rewrite length_map, length_combine, !length_map. lia.
Qed.

Lemma _n_positive (d : R) : 1 <= IZR SR * d -> (0 < _n d)%Z.
Proof.
  intros Hd. unfold _n.
  apply Z.lt_le_trans with 1%Z; [lia |].
  apply py_int_lub; simpl; lra.
Qed.

Lemma sfx_correct_renders {G : Generator} (g : gen) :
  exists out, sfx_correct g = Ok (out, g) /\ out <> [].
Proof.
  unfold sfx_correct.
  destruct (fm_note_ok (hz C5) 0.13 3.0 1.8 0.9 0.005 0.04 0.72 0.07 1.0)
    as [n0 [-> H0]]; try lra.
  cbn [bind].
  destruct (fm_note_ok (hz E5) 0.13 3.0 1.8 0.9 0.005 0.04 0.72 0.07 1.0)
    as [n1 [-> H1]]; try lra.
  cbn [bind].
  destruct (fm_note_ok (hz G5) 0.13 3.0 1.8 0.9 0.005 0.04 0.72 0.07 1.0)
    as [n2 [-> H2]]; try lra.
  cbn [bind].
  destruct (fm_note_ok (hz C6) 0.22 2.5 1.4 1.2 0.007 0.06 0.78 0.12 1.0)
    as [n3 [-> H3]]; try lra.
  cbn [bind].
  assert (Hn : (0 <= _n 0.22)%Z) by (apply _n_nonneg; lra).
  destruct (primitives_length_n (hz C6 * 2) 0.22 g Hn)
    as (_ & _ & [sq [-> Hsq]] & _).
  cbn [bind].
  destruct (adsr_returns (scale sq 0.08) 0.02 0.04 0.3 0.14)
    as [shimmer [-> Hsh]]; try lra.
  cbn [bind].
  destruct (overlay_ok n3 [shimmer]) as [ov [-> Hov]].
  cbn [bind concat].
  destruct (reverb_returns (List.concat [n0; n1; n2; ov]) 0.25 0.28 0.50)
    as [out [Hout Hlen]]; [lra |].
  unfold light_reverb. rewrite Hout. cbn [bind].
  exists out. split; [reflexivity |].
  intros ->. cbn [length] in Hlen.
  cbn [List.concat] in Hlen. rewrite !length_app in Hlen.
  pose proof (_n_positive 0.13) as Hp.
  assert ((0 < _n 0.13)%Z) by (apply Hp; unfold SR; lra).
  lia.
Qed.

Lemma write_failure_ends_the_batch_witness :
  main_loop (G := lcg)
    ([] ++ ("sfx_correct.wav"%string, sfx_correct) :: [("sfx_wrong.wav"%string, sfx_wrong)])
    42%Z locked_disk
  = (locked_disk, Raise OSError)
  /\ (forall name,
         In name (map fst (files locked_disk)) ->
         In name (map fst (files locked_disk)) \/ In name (map fst (@nil (string * recipe)))).
Proof.
  destruct (sfx_correct_renders (G := lcg) 42%Z) as [out [Hout Hne]].
  apply (write_failure_ends_the_batch (G := lcg) []
           [("sfx_wrong.wav"%string, sfx_wrong)]
           "sfx_correct.wav"%string sfx_correct
           42%Z 42%Z 42%Z locked_disk locked_disk out).
  - reflexivity.
  - exact Hout.
  - exact Hne.
  - reflexivity.
Defined.

(** C9 as stated fails on the manifest itself: when the first file,
    [sfx_correct.wav], cannot be written, the run ends with that error and
    writes nothing, although every other file could have been written. *)
Lemma batch_abort_counterexample :
  main (G := lcg) locked_disk = (locked_disk, Raise OSError)
  /\ files (fst (main (G := lcg) locked_disk)) = []
  /\ Forall (fun name => writable locked_disk name = true)
            (map fst (tl (SOUNDS (G := lcg)))).
Proof.
  assert (Hmain : main (G := lcg) locked_disk = (locked_disk, Raise OSError)).
  { unfold main, SOUNDS. cbn [main_loop].
    destruct (sfx_correct_renders (G := lcg) rng) as [out [-> Hne]].
    now rewrite save_unwritable. }
  split; [exact Hmain |].
  split; [now rewrite Hmain |].
  repeat constructor.
Qed.

(** * Further properties of the generator *)

(** ** MIDI pitch *)

(** X1: [hz] puts A4 at 440 Hz, doubles with every octave (twelve notes
    up), grows with the note number and is always positive. *)
Theorem hz_octave_law :
  hz A4 = 440 /\
  (forall midi : Z, hz (midi + 12) = 2 * hz midi) /\
  (forall midi : Z, 0 < hz midi) /\
  (forall m1 m2 : Z, (m1 < m2)%Z -> hz m1 < hz m2).
Proof.
  split; [| split; [| split]].
  - unfold hz, A4. replace (IZR (69 - 69) / 12) with 0 by (simpl; lra).
    rewrite Rpower_O by lra. lra.
  - intros midi. unfold hz.
    replace (IZR (midi + 12 - 69) / 12) with (IZR (midi - 69) / 12 + 1)
      by (rewrite !minus_IZR, plus_IZR; lra).
    rewrite Rpower_plus, Rpower_1 by lra. lra.
  - intros midi. unfold hz.
    assert (0 < Rpower 2 (IZR (midi - 69) / 12)) by (unfold Rpower; apply exp_pos).
    lra.
  - intros m1 m2 Hm. unfold hz.
    assert (H : Rpower 2 (IZR (m1 - 69) / 12) < Rpower 2 (IZR (m2 - 69) / 12)).
    { apply Rpower_lt; [lra |]. apply IZR_lt in Hm. rewrite !minus_IZR. lra. }
    lra.
Qed.

Lemma hz_octave_law_witness :
  hz A4 = 440 /\ hz (C4 + 12) = 2 * hz C4 /\ 0 < hz G2 /\ hz C4 < hz C5.
Proof.
  pose proof hz_octave_law as (H1 & H2 & H3 & H4).
  split; [exact H1 |].
  split; [apply H2 |].
  split; [apply H3 |].
  apply H4. unfold C4, C5. lia.
Defined.

(** ** Oscillators *)

Lemma Forall_map_range {A : Type} (f : A -> R) (l : list A) (lo hi : R) :
  (forall x, lo <= f x <= hi) -> Forall (fun v => lo <= v <= hi) (map f l).
Proof.
  intros H. rewrite Forall_forall. intros v Hv.
  apply in_map_iff in Hv. destruct Hv as [x [<- _]]. apply H.
Qed.

Lemma remainder_unit (x : R) : 0 <= np.remainder x 1 < 1.
Proof.
  unfold np.remainder. pose proof (Zfloor_bound (x / 1)) as [Hlo Hhi].
  replace (x / 1) with x in * by field. lra.
Qed.

(** X2: for a duration [d >= 0] every sample of [sine] and of [triangle]
    lies in [-1, 1], whatever the frequency. *)
Theorem sine_triangle_range (f d : R) :
  0 <= d ->
  (exists b, sine f d = Ok b /\ Forall (fun v => -1 <= v <= 1) b) /\
  (exists b, triangle f d = Ok b /\ Forall (fun v => -1 <= v <= 1) b).
Proof.
  intros Hd. pose proof (_n_nonneg d Hd) as Hn. split.
  - eexists. split; [now apply sine_ok |].
    apply Forall_map_range. intros x. apply SIN_bound.
  - unfold triangle. rewrite _const_phase_ok by assumption. cbn [bind].
    eexists. split; [reflexivity |].
    apply Forall_map_range. intros x.
    pose proof (remainder_unit (x / (2 * np.pi))) as [Hlo Hhi].
    pose proof (Rabs_pos (2 * np.remainder (x / (2 * np.pi)) 1 - 1)).
    assert (Rabs (2 * np.remainder (x / (2 * np.pi)) 1 - 1) <= 1)
      by (apply Rabs_le; lra).
    lra.
Qed.

Lemma sine_triangle_range_witness :
  (exists b, sine 440 0.018 = Ok b /\ Forall (fun v => -1 <= v <= 1) b) /\
  (exists b, triangle 440 0.018 = Ok b /\ Forall (fun v => -1 <= v <= 1) b).
Proof.
  apply (sine_triangle_range 440 0.018). lra.
Defined.

Lemma iadd_maps {A : Type} (g h : A -> R) (l : list A) :
  np.iadd (map g l) (map h l) = Ok (map (fun p => g p + h p) l).
Proof.
  unfold np.iadd. rewrite !length_map, Nat.eqb_refl. f_equal.
  induction l as [| x t IH]; [reflexivity |].
  cbn [map combine fst snd]. now rewrite IH.
Qed.

Lemma harmonics_fold_value (term : Z -> R -> R) (phase : list R) (ks : list Z) :
  forall g : R -> R,
    fold_left (fun acc k => out <- acc ;; np.iadd out (map (term k) phase))
      ks (Ok (map g phase))
    = Ok (map (fun p => fold_left (fun a k => a + term k p) ks (g p)) phase).
Proof.
  induction ks as [| k ks IH]; intros g; [reflexivity |].
  cbn [fold_left bind]. rewrite iadd_maps.
  apply (IH (fun p => g p + term k p)).
Qed.

Lemma zeros_like_map (phase : list R) :
  np.zeros_like phase = map (fun _ => 0) phase.
Proof.
  unfold np.zeros_like. induction phase as [| x t IH]; [reflexivity |].
  cbn [length repeat map]. now rewrite IH.
Qed.

Lemma _bl_square_series (phase : list R) (harmonics : Z) :
  _bl_square phase harmonics
  = Ok (map (fun p =>
               harmonic_sum (fun k q => sin (IZR k * q) / IZR k)
                 (py_range 1 (harmonics + 1) 2) p * (4 / PI))
          phase).
Proof.
  unfold _bl_square. rewrite zeros_like_map.
  rewrite (harmonics_fold_value (fun k q => sin (IZR k * q) / IZR k)).
  cbn [bind]. now rewrite map_map.
Qed.

Lemma _bl_sawtooth_series (phase : list R) (harmonics : Z) :
  _bl_sawtooth phase harmonics
  = Ok (map (fun p =>
               harmonic_sum
                 (fun k q => (-1) ^ Z.to_nat (k + 1) * sin (IZR k * q) / IZR k)
                 (py_range 1 (harmonics + 1) 1) p * (2 / PI))
          phase).
Proof.
  unfold _bl_sawtooth. rewrite zeros_like_map.
  rewrite (harmonics_fold_value
             (fun k q => (-1) ^ Z.to_nat (k + 1) * sin (IZR k * q) / IZR k)).
  cbn [bind]. now rewrite map_map.
Qed.

(** X3: the band-limited waves are finite Fourier sums of the accumulated
    phase: [square] is [4 / pi] times the sum of [sin (k p) / k] over the
    twelve odd harmonics 1, 3, ..., 23, [soft_square] the same over
    1, 3, 5, 7, and [sawtooth] is [2 / pi] times the alternating sum of
    [sin (k p) / k] over k = 1, ..., 20; no harmonic above these is
    present. *)
Theorem band_limited_series (f d : R) :
  0 <= d ->
  let ph := _phase (repeat f (Z.to_nat (_n d))) in
  square f d
  = Ok (map (fun p =>
               harmonic_sum (fun k q => sin (IZR k * q) / IZR k)
                 [1; 3; 5; 7; 9; 11; 13; 15; 17; 19; 21; 23]%Z p * (4 / PI))
          ph)
  /\ soft_square f d
     = Ok (map (fun p =>
                  harmonic_sum (fun k q => sin (IZR k * q) / IZR k)
                    [1; 3; 5; 7]%Z p * (4 / PI))
             ph)
  /\ sawtooth f d
     = Ok (map (fun p =>
                  harmonic_sum
                    (fun k q => (-1) ^ Z.to_nat (k + 1) * sin (IZR k * q) / IZR k)
                    [1; 2; 3; 4; 5; 6; 7; 8; 9; 10;
                     11; 12; 13; 14; 15; 16; 17; 18; 19; 20]%Z p * (2 / PI))
             ph).
Proof.
  intros Hd ph. subst ph. pose proof (_n_nonneg d Hd) as Hn.
  unfold square, soft_square, sawtooth.
  rewrite _const_phase_ok by assumption. cbn [bind].
  rewrite !_bl_square_series, _bl_sawtooth_series.
  repeat split.
Qed.

Lemma band_limited_series_witness :
  let ph := _phase (repeat 440 (Z.to_nat (_n 0.018))) in
  square 440 0.018
  = Ok (map (fun p =>
               harmonic_sum (fun k q => sin (IZR k * q) / IZR k)
                 [1; 3; 5; 7; 9; 11; 13; 15; 17; 19; 21; 23]%Z p * (4 / PI))
          ph)
  /\ soft_square 440 0.018
     = Ok (map (fun p =>
                  harmonic_sum (fun k q => sin (IZR k * q) / IZR k)
                    [1; 3; 5; 7]%Z p * (4 / PI))
             ph)
  /\ sawtooth 440 0.018
     = Ok (map (fun p =>
                  harmonic_sum
                    (fun k q => (-1) ^ Z.to_nat (k + 1) * sin (IZR k * q) / IZR k)
                    [1; 2; 3; 4; 5; 6; 7; 8; 9; 10;
                     11; 12; 13; 14; 15; 16; 17; 18; 19; 20]%Z p * (2 / PI))
             ph).
Proof.
  apply (band_limited_series 440 0.018). lra.
Defined.

(** ** Noise *)

Lemma draws_unit {G : Generator} (k : nat) :
  (forall s : gen, 0 <= fst (random s) < 1) ->
  forall g, Forall (fun u => 0 <= u < 1) (draws k g).
Proof.
  intros Hgen. induction k as [| k IH]; intros g; [constructor |].
  cbn [draws]. pose proof (Hgen g) as Hu.
  destruct (random g) as [u g1]. constructor; [exact Hu | apply IH].
Qed.

Lemma uniform_draws_range {G : Generator} (k : nat) (g : gen) :
  (forall s : gen, 0 <= fst (random s) < 1) ->
  Forall (fun v => -1 <= v < 1) (fst (uniform_draws (-1) 1 k g)).
Proof.
  intros Hgen. rewrite uniform_draws_fst.
  pose proof (draws_unit k Hgen g) as Hd.
  rewrite Forall_forall in *. intros v Hv.
  apply in_map_iff in Hv. destruct Hv as [u [<- Hu]].
  specialize (Hd u Hu). lra.
Qed.

Lemma lcg_unit (s : Z) : 0 <= fst (@random lcg s) < 1.
Proof.
  cbn [random lcg fst].
  assert (H : (0 <= lcg_next s < 2147483648)%Z)
    by (unfold lcg_next; apply Z.mod_pos_bound; lia).
  destruct H as [H0 H1]. apply IZR_le in H0. apply IZR_lt in H1. lra.
Qed.

(** X4: when the generator delivers doubles of [0, 1), every sample of
    [noise_white d], for [d >= 0], lies in [-1, 1). *)
Theorem white_noise_range {G : Generator} (d : R) (g : gen) :
  0 <= d ->
  (forall s : gen, 0 <= fst (random s) < 1) ->
  exists b g',
    noise_white d g = Ok (b, g') /\
    length b = Z.to_nat (_n d) /\
    Forall (fun v => -1 <= v < 1) b.
Proof.
  intros Hd Hgen. pose proof (_n_nonneg d Hd) as Hn.
  unfold noise_white. rewrite uniform_ok by assumption.
  pose proof (uniform_draws_range (Z.to_nat (_n d)) g Hgen) as Hr.
  pose proof (uniform_draws_length (-1) 1 (Z.to_nat (_n d)) g) as Hl.
  destruct (uniform_draws (-1) 1 (Z.to_nat (_n d)) g) as [b g'].
  exists b, g'. repeat split; assumption.
Qed.

Lemma white_noise_range_witness :
  exists b g',
    noise_white (G := lcg) 0.018 42%Z = Ok (b, g') /\
    length b = Z.to_nat (_n 0.018) /\
    Forall (fun v => -1 <= v < 1) b.
Proof.
  apply (white_noise_range (G := lcg) 0.018 42%Z); [lra | exact lcg_unit].
Defined.

Lemma pink_loop_bounded (w : list R) :
  Forall (fun x => -1 <= x <= 1) w ->
  forall b0 b1 b2 b3 : R,
    Rabs b0 <= 48.7 -> Rabs b1 <= 11.24 -> Rabs b2 <= 4.97 -> Rabs b3 <= 2.33 ->
    Forall (fun y => Rabs y <= 7.46) (pink_loop (b0, b1, b2, b3) w).
Proof.
  induction 1 as [| x t Hx _ IH]; intros b0 b1 b2 b3 H0 H1 H2 H3;
    [constructor |].
  cbn [pink_loop pink_step].
  apply Rabs_le_bounds in H0, H1, H2, H3.
  constructor.
  - apply Rabs_le. lra.
  - apply IH; apply Rabs_le; lra.
Qed.

(** X5: when the generator delivers doubles of [0, 1), every sample of
    [noise_pink d], for [d >= 0], is at most 7.46 in magnitude: the four
    filter states stay within 48.7, 11.24, 4.97 and 2.33. *)
Theorem pink_noise_bounded {G : Generator} (d : R) (g : gen) :
  0 <= d ->
  (forall s : gen, 0 <= fst (random s) < 1) ->
  exists b g',
    noise_pink d g = Ok (b, g') /\
    length b = Z.to_nat (_n d) /\
    Forall (fun y => Rabs y <= 7.46) b.
Proof.
  intros Hd Hgen. pose proof (_n_nonneg d Hd) as Hn.
  rewrite noise_pink_ok by assumption.
  do 2 eexists. split; [reflexivity |].
  split; [now rewrite pink_loop_length, uniform_draws_length |].
  apply pink_loop_bounded.
  - pose proof (uniform_draws_range (Z.to_nat (_n d)) g Hgen) as Hr.
    eapply Forall_impl; [| exact Hr]. cbn beta. intros v Hv. lra.
  - rewrite Rabs_R0. lra.
  - rewrite Rabs_R0. lra.
  - rewrite Rabs_R0. lra.
  - rewrite Rabs_R0. lra.
Qed.

Lemma pink_noise_bounded_witness :
  exists b g',
    noise_pink (G := lcg) 0.018 42%Z = Ok (b, g') /\
    length b = Z.to_nat (_n 0.018) /\
    Forall (fun y => Rabs y <= 7.46) b.
Proof.
  apply (pink_noise_bounded (G := lcg) 0.018 42%Z); [lra | exact lcg_unit].
Defined.

Lemma advance_add {G : Generator} (n k : nat) :
  forall g, advance k (advance n g) = advance (n + k) g.
Proof.
  induction n as [| n IH]; intros g; [reflexivity |].
  cbn [advance Nat.add]. apply IH.
Qed.

Lemma draws_split {G : Generator} (n k : nat) :
  forall g, draws (n + k) g = draws n g ++ draws k (advance n g).
Proof.
  induction n as [| n IH]; intros g; [reflexivity |].
  cbn [draws advance Nat.add]. destruct (random g) as [u g1]. cbn [snd app].
  now rewrite IH.
Qed.

Lemma draws_length {G : Generator} (k : nat) :
  forall g, length (draws k g) = k.
Proof.
  induction k as [| k IH]; intros g; [reflexivity |].
  cbn [draws]. destruct (random g) as [u g1]. cbn [length]. now rewrite IH.
Qed.

Lemma noise_pink_from_draws {G : Generator} (d : R) (g : gen) :
  (0 <= _n d)%Z ->
  noise_pink d g
  = Ok (pink_loop (0, 0, 0, 0)
          (map (fun u => -1 + (1 - -1) * u) (draws (Z.to_nat (_n d)) g)),
        advance (Z.to_nat (_n d)) g).
Proof.
  intros Hn. rewrite noise_pink_ok by assumption.
  now rewrite uniform_draws_fst, uniform_draws_snd.
Qed.

(** X6: the noise calls of one run share the stream.  A call of
    [noise_pink d1] uses the next [_n d1] doubles and leaves the generator
    that far on; a following call of [noise_pink d2] uses the [_n d2]
    doubles after them, each call filtering from zero state. *)
Theorem noise_calls_share_stream {G : Generator} (d1 d2 : R) (g : gen) :
  0 <= d1 -> 0 <= d2 ->
  let n1 := Z.to_nat (_n d1) in
  let n2 := Z.to_nat (_n d2) in
  let stream := map (fun u => -1 + (1 - -1) * u) (draws (n1 + n2) g) in
  noise_pink d1 g
  = Ok (pink_loop (0, 0, 0, 0) (firstn n1 stream), advance n1 g)
  /\ noise_pink d2 (advance n1 g)
     = Ok (pink_loop (0, 0, 0, 0) (skipn n1 stream), advance (n1 + n2) g).
Proof.
  intros Hd1 Hd2 n1 n2 stream. subst n1 n2 stream.
  rewrite !noise_pink_from_draws by now apply _n_nonneg.
  rewrite draws_split, map_app, advance_add.
  rewrite firstn_app, skipn_app, length_map, draws_length.
  rewrite Nat.sub_diag, firstn_all2 by (rewrite length_map, draws_length; lia).
  rewrite skipn_all2 by (rewrite length_map, draws_length; lia).
  cbn [firstn skipn app]. rewrite app_nil_r. split; reflexivity.
Qed.

Lemma noise_calls_share_stream_witness :
  let n1 := Z.to_nat (_n 0.18) in
  let n2 := Z.to_nat (_n 0.065) in
  let stream :=
    map (fun u => -1 + (1 - -1) * u) (draws (G := lcg) (n1 + n2) 42%Z) in
  noise_pink (G := lcg) 0.18 42%Z
  = Ok (pink_loop (0, 0, 0, 0) (firstn n1 stream), advance n1 42%Z)
  /\ noise_pink (G := lcg) 0.065 (advance n1 42%Z)
     = Ok (pink_loop (0, 0, 0, 0) (skipn n1 stream), advance (n1 + n2) 42%Z).
Proof.
  apply (noise_calls_share_stream (G := lcg) 0.18 0.065 42%Z); lra.
Defined.

(** ** FM pad *)

(** X7: for [dur >= 0], [fm_pad] returns a buffer of [_n dur] samples, each
    in [-1, 1]: the carrier phase and the modulator phase have the same
    length, so their sum never fails. *)
Theorem fm_pad_total (carrier_hz dur mod_ratio mod_depth : R) :
  0 <= dur ->
  exists b,
    fm_pad carrier_hz dur mod_ratio mod_depth = Ok b /\
    length b = Z.to_nat (_n dur) /\
    Forall (fun v => -1 <= v <= 1) b.
Proof.
  intros Hd. pose proof (_n_nonneg dur Hd) as Hn.
  unfold fm_pad. rewrite linspace_ok by assumption. cbn [bind].
  rewrite full_ok by assumption. cbn [bind].
  unfold np.add. rewrite broadcast_same_length
    by (rewrite length_map, !_phase_length, !length_map,
          linspace_list_length, repeat_length; reflexivity).
  cbn [bind]. eexists. split; [reflexivity |].
  split.
  - rewrite length_map, length_map, length_combine, length_map,
      !_phase_length, !length_map, linspace_list_length, repeat_length. lia.
  - apply Forall_map_range. intros x. apply SIN_bound.
Qed.

Lemma fm_pad_total_witness :
  exists b,
    fm_pad (hz G2) 0.50 1.5 1.6 = Ok b /\
    length b = Z.to_nat (_n 0.50) /\
    Forall (fun v => -1 <= v <= 1) b.
Proof.
  apply (fm_pad_total (hz G2) 0.50 1.5 1.6). lra.
Defined.

(** ** Envelope: level, onset and end *)

Lemma linspace_range (start stop lo hi : R) (num : Z) :
  lo <= start <= hi -> lo <= stop <= hi ->
  Forall (fun x => lo <= x <= hi) (np.linspace_list start stop num true).
Proof.
  intros Hs He. unfold np.linspace_list. rewrite Forall_forall.
  intros x Hx. apply in_map_iff in Hx. destruct Hx as [k [Hk Hin]].
  apply arange_In in Hin. subst x.
  destruct (true && (1 <? num)%Z && (k =? num - 1)%Z); [exact He |].
  destruct (Z.eq_dec (num - 1) 0) as [H0 | H0].
  - assert (k = 0%Z) by lia. subst k. lra.
  - assert (HD : 0 < IZR (num - 1)) by (apply IZR_lt; lia).
    assert (HK : 0 <= IZR k <= IZR (num - 1)) by (split; apply IZR_le; lia).
    set (D := IZR (num - 1)) in *. set (K := IZR k) in *.
    assert (Ht : 0 <= K / D <= 1).
    { split.
      - apply Rmult_le_pos; [lra | apply Rlt_le, Rinv_0_lt_compat; exact HD].
      - apply Rmult_le_reg_r with D; [exact HD |].
        unfold Rdiv. rewrite Rmult_assoc, Rinv_l by lra. lra. }
    replace (K * ((stop - start) / D) + start)
      with (start + K / D * (stop - start)) by (field; lra).
    nra.
Qed.

Lemma pow_nonneg_unit (x p : R) :
  0 <= x <= 1 -> 0 < p -> 0 <= np.pow_nonneg x p <= 1.
Proof.
  intros Hx Hp. unfold np.pow_nonneg.
  destruct (Req_dec_T x 0) as [-> | Hne].
  - destruct (Req_dec_T p 0); lra.
  - unfold Rpower. split; [apply Rlt_le, exp_pos |].
    rewrite <- exp_0.
    assert (Hln : ln x <= 0).
    { destruct (Req_dec_T x 1) as [-> | H1]; [rewrite ln_1; lra |].
      rewrite <- ln_1. apply Rlt_le, ln_increasing; lra. }
    destruct (Req_dec_T (p * ln x) 0) as [-> | Hz]; [lra |].
    apply Rlt_le, exp_increasing. nra.
Qed.

Lemma ramp_curve_unit (start stop : R) (num : Z) (p : R) :
  0 <= start <= 1 -> 0 <= stop <= 1 -> 0 < p ->
  Forall (fun e => 0 <= e <= 1) (ramp_curve start stop num p).
Proof.
  intros Hs He Hp. unfold ramp_curve.
  pose proof (linspace_range start stop 0 1 num Hs He) as Hl.
  rewrite Forall_forall in *. intros e Hin.
  apply in_map_iff in Hin. destruct Hin as [x [<- Hx]].
  apply pow_nonneg_unit; [now apply Hl | exact Hp].
Qed.

Lemma envelope_curve_unit (len : nat) (attack decay sustain release : R) :
  0 <= sustain <= 1 ->
  Forall (fun e => 0 <= e <= 1)
    (envelope_curve len attack decay sustain release).
Proof.
  intros Hs. unfold envelope_curve.
  destruct (adsr_stages (Z.of_nat len) attack decay release)
    as [[[[a d] r] s_start] s_end].
  repeat (apply Forall_app; split).
  - apply ramp_curve_unit; lra.
  - apply ramp_curve_unit; lra.
  - rewrite Forall_forall. intros e He. apply repeat_spec in He. lra.
  - apply ramp_curve_unit; lra.
Qed.

Lemma nth_combine_mul (sig env : list R) :
  length env = length sig ->
  forall i, (i < length sig)%nat ->
    nth i (map (fun p => fst p * snd p) (combine sig env)) 0
    = nth i sig 0 * nth i env 0.
Proof.
  revert env. induction sig as [| s t IH]; intros env Hl i Hi;
    [cbn in Hi; lia |].
  destruct env as [| e env]; [discriminate |].
  destruct i as [| i]; [reflexivity |].
  cbn [combine map nth]. apply IH; cbn in *; lia.
Qed.

Lemma Forall_nth_R (P : R -> Prop) (l : list R) (i : nat) :
  Forall P l -> (i < length l)%nat -> P (nth i l 0).
Proof.
  intros H Hi. rewrite Forall_forall in H. apply H. now apply nth_In.
Qed.

(** X8: with non-negative times and a sustain level in [0, 1] the
    envelope stays in [0, 1], so [adsr] never amplifies: every output
    sample is at most its input sample in magnitude. *)
Theorem adsr_never_amplifies (sig : list R) (attack decay sustain release : R) :
  0 <= attack -> 0 <= decay -> 0 <= sustain <= 1 -> 0 <= release ->
  exists out,
    adsr sig attack decay sustain release = Ok out /\
    length out = length sig /\
    forall i, (i < length sig)%nat ->
      Rabs (nth i out 0) <= Rabs (nth i sig 0).
Proof.
  intros Ha Hd [Hs0 Hs1] Hr.
  destruct (adsr_env_ok (length sig) attack decay sustain release Ha Hd Hs0 Hr)
    as [_ Hlen].
  eexists. split; [now apply adsr_ok |].
  split; [rewrite length_map, length_combine, Hlen; lia |].
  intros i Hi. rewrite nth_combine_mul by assumption.
  assert (He : 0 <= nth i (envelope_curve (length sig) attack decay sustain release) 0 <= 1).
  { apply (Forall_nth_R (fun e => 0 <= e <= 1)).
    - apply envelope_curve_unit. lra.
    - rewrite Hlen. exact Hi. }
  rewrite Rabs_mult, (Rabs_right (nth i (envelope_curve _ _ _ _ _) 0)) by lra.
  pose proof (Rabs_pos (nth i sig 0)). nra.
Qed.

Lemma adsr_never_amplifies_witness :
  let sig := [1; -2; 3; 0.5] in
  exists out,
    adsr sig 0.00005 0.00005 0.7 0.00005 = Ok out /\
    length out = length sig /\
    forall i, (i < length sig)%nat ->
      Rabs (nth i out 0) <= Rabs (nth i sig 0).
Proof.
  apply (adsr_never_amplifies [1; -2; 3; 0.5] 0.00005 0.00005 0.7 0.00005); lra.
Defined.

Lemma pow_nonneg_zero (p : R) : 0 < p -> np.pow_nonneg 0 p = 0.
Proof.
  intros Hp. unfold np.pow_nonneg.
  destruct (Req_dec_T 0 0) as [_ | H]; [| lra].
  destruct (Req_dec_T p 0); [lra | reflexivity].
Qed.

Lemma envelope_first (len : nat) (attack decay sustain release : R)
    (a d r s_start s_end : Z) :
  adsr_stages (Z.of_nat len) attack decay release = (a, d, r, s_start, s_end) ->
  (1 <= a)%Z ->
  nth 0%nat (envelope_curve len attack decay sustain release) 0 = 0.
Proof.
  intros Hst Ha. unfold envelope_curve. rewrite Hst.
  rewrite app_nth1 by (rewrite ramp_curve_length; lia).
  rewrite ramp_curve_first by lia. apply pow_nonneg_zero. lra.
Qed.

Lemma envelope_last (len : nat) (attack decay sustain release : R)
    (a d r s_start s_end : Z) :
  0 <= attack -> 0 <= decay -> 0 <= sustain -> 0 <= release ->
  adsr_stages (Z.of_nat len) attack decay release = (a, d, r, s_start, s_end) ->
  (2 <= Z.of_nat len - s_end)%Z ->
  nth (len - 1) (envelope_curve len attack decay sustain release) 0 = 0.
Proof.
  intros Ha Hd Hs Hr Hst Hrem.
  pose proof (adsr_stages_bounds (Z.of_nat len) attack decay release
                (Nat2Z.is_nonneg len) Ha Hd Hr) as HB.
  unfold envelope_curve. rewrite Hst in *.
  destruct HB as (Hba & Hbd & Hbr & Hss & Hse & _ & _).
  rewrite app_nth2 by (rewrite ramp_curve_length; lia).
  rewrite app_nth2 by (rewrite !ramp_curve_length; lia).
  rewrite app_nth2 by (rewrite !ramp_curve_length, repeat_length; lia).
  rewrite !ramp_curve_length, repeat_length.
  replace (len - 1 - Z.to_nat a - Z.to_nat d - Z.to_nat (s_end - s_start))%nat
    with (Z.to_nat (Z.of_nat len - s_end - 1)) by lia.
  rewrite ramp_curve_last by lia. apply pow_nonneg_zero. lra.
Qed.

(** X9: where the envelope touches zero.  With non-negative parameters,
    the first output sample is 0 as soon as the attack stage has a sample,
    and the last output sample is 0 when the release ramp has two samples
    or more; a release ramp of a single sample does not fall: the last
    sample is then the input times [sustain ^ 1.6]. *)
Theorem adsr_onset_and_end (sig : list R) (attack decay sustain release : R) :
  0 <= attack -> 0 <= decay -> 0 <= sustain -> 0 <= release ->
  let n := Z.of_nat (length sig) in
  let '(a, d, r, s_start, s_end) := adsr_stages n attack decay release in
  exists out,
    adsr sig attack decay sustain release = Ok out /\
    ((1 <= a)%Z -> nth 0%nat out 0 = 0) /\
    ((2 <= n - s_end)%Z -> nth (length sig - 1) out 0 = 0) /\
    ((n - s_end = 1)%Z ->
       nth (length sig - 1) out 0
       = nth (length sig - 1) sig 0 * np.pow_nonneg sustain 1.6).
Proof.
  intros Ha Hd Hs Hr n. subst n.
  pose proof (adsr_stages_bounds (Z.of_nat (length sig)) attack decay release
                (Nat2Z.is_nonneg _) Ha Hd Hr) as HB.
  destruct (adsr_env_ok (length sig) attack decay sustain release Ha Hd Hs Hr)
    as [_ Hlen].
  destruct (adsr_stages (Z.of_nat (length sig)) attack decay release)
    as [[[[a d] r] s_start] s_end] eqn:Hst.
  destruct HB as (Hba & Hbd & Hbr & Hss & Hse & _ & _).
  eexists. split; [now apply adsr_ok |].
  split; [| split].
  - intros H1. rewrite nth_combine_mul by (assumption || lia).
    rewrite (envelope_first _ _ _ _ _ a d r s_start s_end Hst H1). ring.
  - intros H2. rewrite nth_combine_mul by (assumption || lia).
    rewrite (envelope_last _ _ _ _ _ a d r s_start s_end Ha Hd Hs Hr Hst H2).
    ring.
  - intros H1. rewrite nth_combine_mul by (assumption || lia).
    f_equal.
    replace (length sig - 1)%nat with (Z.to_nat s_end) by lia.
    apply (envelope_release_start _ _ _ _ _ a d r s_start s_end);
      (assumption || lia).
Qed.

Lemma adsr_onset_and_end_witness :
  let sig := [1; 1; 1; 1; 1; 1; 1; 1; 1; 1] in
  let n := Z.of_nat (length sig) in
  let '(a, d, r, s_start, s_end) := adsr_stages n 0.00005 0.00007 0.00007 in
  exists out,
    adsr sig 0.00005 0.00007 0.5 0.00007 = Ok out /\
    ((1 <= a)%Z -> nth 0%nat out 0 = 0) /\
    ((2 <= n - s_end)%Z -> nth (length sig - 1) out 0 = 0) /\
    ((n - s_end = 1)%Z ->
       nth (length sig - 1) out 0
       = nth (length sig - 1) sig 0 * np.pow_nonneg 0.5 1.6).
Proof.
  apply (adsr_onset_and_end [1; 1; 1; 1; 1; 1; 1; 1; 1; 1]
           0.00005 0.00007 0.5 0.00007); lra.
Defined.

Lemma ramp_curve_empty (start stop p : R) : ramp_curve start stop 0 p = [].
Proof. reflexivity. Qed.

Lemma pow_nonneg_one (p : R) : np.pow_nonneg 1 p = 1.
Proof.
  rewrite pow_nonneg_pos by lra. unfold Rpower.
  rewrite ln_1, Rmult_0_r. apply exp_0.
Qed.

(** X10: a buffer no longer than its attack never leaves the attack
    stage.  When [int (attack * SR)] is at least the buffer length [N], the
    decay, sustain and release regions are empty and the envelope is the
    attack ramp over the whole buffer; from two samples on, the buffer
    ends on its last input sample at full level. *)
Theorem adsr_attack_only (sig : list R) (attack decay sustain release : R) :
  0 <= attack -> 0 <= decay -> 0 <= sustain -> 0 <= release ->
  (Z.of_nat (length sig) <= py_int (attack * IZR SR))%Z ->
  adsr sig attack decay sustain release
  = Ok (map (fun p => fst p * snd p)
          (combine sig (ramp_curve 0 1 (Z.of_nat (length sig)) 0.5)))
  /\ ((2 <= length sig)%nat ->
      nth (length sig - 1)
        (map (fun p => fst p * snd p)
           (combine sig (ramp_curve 0 1 (Z.of_nat (length sig)) 0.5))) 0
      = nth (length sig - 1) sig 0).
Proof.
  intros Ha Hd Hs Hr Hcover.
  assert (Hst : adsr_stages (Z.of_nat (length sig)) attack decay release
                = (Z.of_nat (length sig), 0%Z,
                   Z.min (py_int (release * IZR SR)) (Z.of_nat (length sig)),
                   Z.of_nat (length sig), Z.of_nat (length sig))).
  { unfold adsr_stages.
    assert (H2 : (0 <= py_int (decay * IZR SR))%Z)
      by (apply py_int_ge0, Rmult_le_pos; [lra | unfold SR; lra]).
    assert (H3 : (0 <= py_int (release * IZR SR))%Z)
      by (apply py_int_ge0, Rmult_le_pos; [lra | unfold SR; lra]).
    repeat f_equal; lia. }
  assert (Henv : envelope_curve (length sig) attack decay sustain release
                 = ramp_curve 0 1 (Z.of_nat (length sig)) 0.5).
  { unfold envelope_curve. rewrite Hst. cbv beta iota zeta.
    rewrite !Z.sub_diag.
    rewrite !ramp_curve_empty. cbn [Z.to_nat repeat app].
    now rewrite app_nil_r. }
  split.
  - rewrite adsr_ok by assumption. now rewrite Henv.
  - intros H2.
    rewrite nth_combine_mul by (rewrite ?ramp_curve_length; lia).
    replace (length sig - 1)%nat with (Z.to_nat (Z.of_nat (length sig) - 1)) by lia.
    rewrite ramp_curve_last by lia. rewrite pow_nonneg_one. ring.
Qed.

Lemma adsr_attack_only_witness :
  let sig := [1; 2; 3] in
  adsr sig 1 0.05 0.7 0.1
  = Ok (map (fun p => fst p * snd p)
          (combine sig (ramp_curve 0 1 (Z.of_nat (length sig)) 0.5)))
  /\ ((2 <= length sig)%nat ->
      nth (length sig - 1)
        (map (fun p => fst p * snd p)
           (combine sig (ramp_curve 0 1 (Z.of_nat (length sig)) 0.5))) 0
      = nth (length sig - 1) sig 0).
Proof.
  apply (adsr_attack_only [1; 2; 3] 1 0.05 0.7 0.1); try lra.
  apply py_int_lub; unfold SR; simpl; lra.
Defined.

(** ** Notes *)

Lemma Forall_combine_mul (M : R) (sig : list R) :
  Forall (fun s => Rabs s <= M) sig ->
  forall env, Forall (fun e => 0 <= e <= 1) env ->
    Forall (fun v => Rabs v <= M)
      (map (fun p => fst p * snd p) (combine sig env)).
Proof.
  induction 1 as [| s t Hs _ IH]; intros env Henv; [constructor |].
  destruct Henv as [| e env He Henv]; [constructor |].
  cbn [combine map fst snd]. constructor; [| now apply IH].
  rewrite Rabs_mult, (Rabs_right e) by lra.
  pose proof (Rabs_pos s). nra.
Qed.

Lemma adsr_within (M : R) (sig : list R) (attack decay sustain release : R) :
  0 <= attack -> 0 <= decay -> 0 <= sustain <= 1 -> 0 <= release ->
  Forall (fun s => Rabs s <= M) sig ->
  exists out,
    adsr sig attack decay sustain release = Ok out /\
    length out = length sig /\
    Forall (fun v => Rabs v <= M) out.
Proof.
  intros Ha Hd [Hs0 Hs1] Hr Hsig.
  destruct (adsr_returns sig attack decay sustain release Ha Hd Hs0 Hr)
    as [out [Hout Hlen]].
  exists out. split; [exact Hout |]. split; [exact Hlen |].
  rewrite adsr_ok in Hout by assumption. injection Hout as <-.
  apply Forall_combine_mul; [exact Hsig |].
  apply envelope_curve_unit. lra.
Qed.

Lemma scale_within (a : list R) (amp : R) :
  Forall (fun v => Rabs v <= 1) a ->
  Forall (fun v => Rabs v <= Rabs amp) (scale a amp).
Proof.
  intros H. unfold scale. rewrite Forall_forall in *. intros v Hv.
  apply in_map_iff in Hv. destruct Hv as [x [<- Hx]].
  rewrite Rabs_mult. specialize (H x Hx).
  pose proof (Rabs_pos amp). pose proof (Rabs_pos x). nra.
Qed.

Lemma Forall_map_sin {A : Type} (f : A -> R) (l : list A) :
  Forall (fun v => Rabs v <= 1) (map (fun x => sin (f x)) l).
Proof.
  rewrite Forall_forall. intros v Hv.
  apply in_map_iff in Hv. destruct Hv as [x [<- _]].
  apply Rabs_le. pose proof (SIN_bound (f x)). lra.
Qed.

Lemma fm_tone_within (carrier_hz dur mod_ratio mod_depth mod_decay : R) :
  0 <= dur -> 0 <= mod_decay ->
  exists s,
    fm_tone carrier_hz dur mod_ratio mod_depth mod_decay = Ok s /\
    length s = Z.to_nat (_n dur) /\
    Forall (fun v => Rabs v <= 1) s.
Proof.
  intros Hd Hm. unfold fm_tone.
  rewrite linspace_ok by now apply _n_nonneg.
  cbn [bind].
  assert (0 <= dur * mod_decay) by now apply Rmult_le_pos.
  rewrite py_div_ok by lra. cbn [bind].
  eexists. split; [reflexivity |].
  split; [now rewrite length_map, linspace_list_length |].
  apply (Forall_map_sin
           (fun ti => 2 * np.pi * carrier_hz * ti
                      + sin (2 * np.pi * (carrier_hz * mod_ratio) * ti)
                        * mod_depth
                        * exp (- ti * (1.0 / (dur * mod_decay + 1e-9))))).
Qed.

(** X11: a note never exceeds its amplitude.  For non-negative times and
    a sustain level in [0, 1], [fm_note] and [sweep_note] return [_n dur]
    samples, each at most [|amp|] in magnitude, and so does [note] for an
    oscillator whose samples lie in [-1, 1]. *)
Theorem notes_stay_within_amp
    (freq freq_end dur mod_ratio mod_depth mod_decay
     attack decay_t sustain release amp : R) :
  0 <= dur -> 0 <= mod_decay ->
  0 <= attack -> 0 <= decay_t -> 0 <= sustain <= 1 -> 0 <= release ->
  (exists b,
      fm_note freq dur mod_ratio mod_depth mod_decay
              attack decay_t sustain release amp = Ok b /\
      length b = Z.to_nat (_n dur) /\
      Forall (fun v => Rabs v <= Rabs amp) b)
  /\ (exists b,
         sweep_note freq freq_end dur attack decay_t sustain release amp = Ok b /\
         length b = Z.to_nat (_n dur) /\
         Forall (fun v => Rabs v <= Rabs amp) b)
  /\ (forall (osc : R -> R -> result (list R)) (s : list R),
         osc freq dur = Ok s ->
         Forall (fun v => Rabs v <= 1) s ->
         exists b,
           note osc freq dur attack decay_t sustain release amp = Ok b /\
           length b = length s /\
           Forall (fun v => Rabs v <= Rabs amp) b).
Proof.
  intros Hd Hm Ha Hdt Hs Hr.
  split; [| split].
  - unfold fm_note.
    destruct (fm_tone_within freq dur mod_ratio mod_depth mod_decay Hd Hm)
      as [s [-> [Hl Hb]]].
    cbn [bind].
    destruct (adsr_within 1 s attack decay_t sustain release Ha Hdt Hs Hr Hb)
      as [e [-> [Hle Hbe]]].
    cbn [bind]. eexists. split; [reflexivity |].
    split; [rewrite scale_length; lia | now apply scale_within].
  - unfold sweep_note.
    rewrite linspace_ok by now apply _n_nonneg.
    cbn [bind].
    destruct (adsr_within 1
                (map sin
                   (_phase
                      (map (fun ti => freq + (freq_end - freq) * ti)
                         (np.linspace_list 0 1 (_n dur) false))))
                attack decay_t sustain release Ha Hdt Hs Hr)
      as [e [-> [Hle Hbe]]].
    { apply (Forall_map_sin (fun x => x)). }
    cbn [bind]. eexists. split; [reflexivity |].
    split; [| now apply scale_within].
    rewrite scale_length, Hle, length_map, _phase_length, length_map,
      linspace_list_length. reflexivity.
  - intros osc s Hosc Hb. unfold note. rewrite Hosc. cbn [bind].
    destruct (adsr_within 1 s attack decay_t sustain release Ha Hdt Hs Hr Hb)
      as [e [-> [Hle Hbe]]].
    cbn [bind]. eexists. split; [reflexivity |].
    split; [rewrite scale_length; lia | now apply scale_within].
Qed.

Lemma notes_stay_within_amp_witness :
  (exists b,
      fm_note (hz G4) 0.07 4.0 3.5 0.15 0.001 0.025 0.05 0.03 0.55 = Ok b /\
      length b = Z.to_nat (_n 0.07) /\
      Forall (fun v => Rabs v <= Rabs 0.55) b)
  /\ (exists b,
         sweep_note (hz G4) (hz G3) 0.07 0.001 0.025 0.05 0.03 0.55 = Ok b /\
         length b = Z.to_nat (_n 0.07) /\
         Forall (fun v => Rabs v <= Rabs 0.55) b)
  /\ (forall (osc : R -> R -> result (list R)) (s : list R),
         osc (hz G4) 0.07 = Ok s ->
         Forall (fun v => Rabs v <= 1) s ->
         exists b,
           note osc (hz G4) 0.07 0.001 0.025 0.05 0.03 0.55 = Ok b /\
           length b = length s /\
           Forall (fun v => Rabs v <= Rabs 0.55) b).
Proof.
  apply (notes_stay_within_amp (hz G4) (hz G3) 0.07 4.0 3.5 0.15
           0.001 0.025 0.05 0.03 0.55); lra.
Defined.

(** ** Lowpass filter *)

Lemma lowpass_alpha_unit (cutoff_hz : R) :
  0 < cutoff_hz -> 0 < lowpass_alpha cutoff_hz < 1.
Proof.
  intros Hc. unfold lowpass_alpha, SR. pose proof PI_RGT_0 as Hpi.
  assert (Hx : 0 < 2 * PI * cutoff_hz) by (apply Rmult_lt_0_compat; lra).
  set (x := 2 * PI * cutoff_hz) in *.
  split.
  - apply Rmult_lt_0_compat; [exact Hx | apply Rinv_0_lt_compat; lra].
  - apply Rmult_lt_reg_r with (44100 + x); [lra |].
    unfold Rdiv. rewrite Rmult_assoc, Rinv_l by lra. lra.
Qed.

Lemma lowpass_fast_closed (sig : list R) (cutoff_hz : R) :
  0 < cutoff_hz ->
  lowpass_fast sig cutoff_hz
  = Ok (lowpass_loop (lowpass_alpha cutoff_hz) 0.0 sig).
Proof.
  intros Hc. unfold lowpass_fast, np.pi. pose proof PI_RGT_0 as Hpi.
  assert (Hx : 0 < 2 * PI * cutoff_hz) by (apply Rmult_lt_0_compat; lra).
  replace 1.0 with 1 by lra.
  rewrite py_div_ok by lra. cbn [bind].
  rewrite py_div_ok by (unfold SR; lra). cbn [bind].
  assert (Hden : 0 < 1 / (2 * PI * cutoff_hz) + 1 / IZR SR).
  { unfold SR. apply Rplus_lt_0_compat.
    - apply Rdiv_lt_0_compat; lra.
    - lra. }
  rewrite py_div_ok by lra. cbn [bind].
  do 2 f_equal. unfold lowpass_alpha, SR. field. lra.
Qed.

Lemma lowpass_loop_within (alpha M : R) (sig : list R) :
  0 < alpha < 1 ->
  Forall (fun x => Rabs x <= M) sig ->
  forall y, Rabs y <= M ->
    Forall (fun v => Rabs v <= M) (lowpass_loop alpha y sig).
Proof.
  intros Ha. induction 1 as [| x t Hx _ IH]; intros y Hy; [constructor |].
  cbn [lowpass_loop].
  assert (Hy' : Rabs (y + alpha * (x - y)) <= M).
  { apply Rabs_le_bounds in Hx, Hy. apply Rabs_le. split; nra. }
  constructor; [exact Hy' | now apply IH].
Qed.

(** X12: for a cutoff above zero [lowpass_fast] keeps the length of its
    input, its coefficient [alpha = 2 pi f / (SR + 2 pi f)] lies strictly
    between 0 and 1, and the output never exceeds the peak of the input:
    if every input sample is within [M] in magnitude, so is every output
    sample. *)
Theorem lowpass_keeps_peak (sig : list R) (cutoff_hz M : R) :
  0 < cutoff_hz ->
  Forall (fun x => Rabs x <= M) sig ->
  0 < lowpass_alpha cutoff_hz < 1 /\
  exists out,
    lowpass_fast sig cutoff_hz = Ok out /\
    out = lowpass_loop (lowpass_alpha cutoff_hz) 0 sig /\
    length out = length sig /\
    Forall (fun v => Rabs v <= M) out.
Proof.
  intros Hc Hsig. pose proof (lowpass_alpha_unit cutoff_hz Hc) as Ha.
  split; [exact Ha |].
  rewrite lowpass_fast_closed by assumption.
  replace 0.0 with 0 by lra.
  eexists. split; [reflexivity |]. split; [reflexivity |].
  split; [apply lowpass_loop_length |].
  destruct sig as [| x t]; [constructor |].
  apply lowpass_loop_within; [exact Ha | exact Hsig |].
  inversion Hsig as [| ? ? Hx _]; subst.
  rewrite Rabs_R0. pose proof (Rabs_pos x). lra.
Qed.

Lemma lowpass_keeps_peak_witness :
  0 < lowpass_alpha 8000 < 1 /\
  exists out,
    lowpass_fast [1; -1; 0.5] 8000 = Ok out /\
    out = lowpass_loop (lowpass_alpha 8000) 0 [1; -1; 0.5] /\
    length out = length [1; -1; 0.5] /\
    Forall (fun v => Rabs v <= 1) out.
Proof.
  apply (lowpass_keeps_peak [1; -1; 0.5] 8000 1); [lra |].
  constructor; [apply Rabs_le; lra |].
  constructor; [apply Rabs_le; lra |].
  constructor; [apply Rabs_le; lra |].
  constructor.
Defined.

Lemma lowpass_loop_constant (alpha c : R) (n : nat) :
  forall y,
    lowpass_loop alpha y (repeat c n)
    = map (fun i => c + (y - c) * (1 - alpha) ^ S i) (seq 0 n).
Proof.
  induction n as [| n IH]; intros y; [reflexivity |].
  cbn [repeat lowpass_loop seq map]. f_equal.
  - simpl. ring.
  - rewrite IH, <- seq_shift, map_map. apply map_ext.
    intros i. simpl. ring.
Qed.

(** X13: the step response.  On a constant input [c] of [n] samples and a
    cutoff above zero, sample [i] of [lowpass_fast] is
    [c * (1 - (1 - alpha) ^ (i + 1))]: the output starts at [alpha * c] and
    closes the gap to [c] by the factor [1 - alpha] each sample; a zero
    input gives a zero output. *)
Theorem lowpass_step_response (c cutoff_hz : R) (n : nat) :
  0 < cutoff_hz ->
  lowpass_fast (repeat c n) cutoff_hz
  = Ok (map (fun i => c * (1 - (1 - lowpass_alpha cutoff_hz) ^ S i)) (seq 0 n))
  /\ lowpass_fast (repeat 0 n) cutoff_hz = Ok (repeat 0 n).
Proof.
  intros Hc.
  assert (H : forall c',
             lowpass_fast (repeat c' n) cutoff_hz
             = Ok (map (fun i => c' * (1 - (1 - lowpass_alpha cutoff_hz) ^ S i))
                     (seq 0 n))).
  { intros c'. rewrite lowpass_fast_closed by assumption.
    replace 0.0 with 0 by lra.
    rewrite lowpass_loop_constant. f_equal. apply map_ext.
    intros i. ring. }
  split; [apply H |].
  rewrite H. f_equal.
  clear H. generalize 0%nat at 1. induction n as [| n IH]; intros k; [reflexivity |].
  cbn [seq map repeat]. f_equal; [ring | apply IH].
Qed.

Lemma lowpass_step_response_witness :
  lowpass_fast (repeat 1 (Z.to_nat 4410)) 1000
  = Ok (map (fun i => 1 * (1 - (1 - lowpass_alpha 1000) ^ S i))
          (seq 0 (Z.to_nat 4410)))
  /\ lowpass_fast (repeat 0 (Z.to_nat 4410)) 1000 = Ok (repeat 0 (Z.to_nat 4410)).
Proof.
  apply (lowpass_step_response 1 1000 (Z.to_nat 4410)). lra.
Defined.

(** ** Mixing *)

Lemma add_prefix_nth (a : list R) :
  forall out, (length a <= length out)%nat ->
  forall i,
    nth i (map (fun p => fst p + snd p) (combine (firstn (length a) out) a)
             ++ skipn (length a) out) 0
    = nth i out 0 + nth i a 0.
Proof.
  induction a as [| x t IH]; intros out Hle i.
  - cbn [length firstn combine map app skipn]. destruct i; cbn [nth]; lra.
  - destruct out as [| o out]; [cbn in Hle; lia |].
    cbn [length firstn combine map app skipn fst snd].
    destruct i as [| i]; [reflexivity |].
    cbn [nth]. apply IH. cbn in Hle. lia.
Qed.

Lemma overlay_step_value (out a : list R) :
  (length a <= length out)%nat ->
  slice_update Rplus out 0 (Z.of_nat (length a)) a
  = Ok (map (fun p => fst p + snd p) (combine (firstn (length a) out) a)
          ++ skipn (length a) out).
Proof.
  intros Hle. unfold slice_update, slice_bounds.
  destruct (Z.ltb_spec 0 0); [lia |].
  destruct (Z.ltb_spec (Z.of_nat (length a)) 0); [lia |].
  replace (Z.min 0 (Z.of_nat (length out))) with 0%Z by lia.
  replace (Z.min (Z.of_nat (length a)) (Z.of_nat (length out)))
    with (Z.of_nat (length a)) by lia.
  rewrite Z.sub_0_r, Nat2Z.id. cbn [Z.to_nat firstn skipn app Nat.add].
  now rewrite Nat.eqb_refl.
Qed.

Lemma overlay_fold_value (arrays : list (list R)) :
  forall out,
    Forall (fun a => (length a <= length out)%nat) arrays ->
    exists out',
      fold_left
        (fun acc a =>
           out <- acc ;;
           slice_update Rplus out 0 (Z.of_nat (length a)) a)
        arrays (Ok out) = Ok out'
      /\ length out' = length out
      /\ forall i,
           nth i out' 0 = nth i out 0 + Rsum (map (fun a => nth i a 0) arrays).
Proof.
  induction arrays as [| a arrays IH]; intros out Hall.
  - exists out. repeat split. intros i. cbn. lra.
  - inversion Hall as [| ? ? Ha Hrest]; subst.
    cbn [fold_left bind]. rewrite overlay_step_value by assumption.
    set (o := map (fun p => fst p + snd p) (combine (firstn (length a) out) a)
                ++ skipn (length a) out).
    assert (Hlo : length o = length out).
    { subst o. rewrite length_app, length_map, length_combine,
        length_firstn, length_skipn. lia. }
    destruct (IH o) as [o' [Ho' [Hl' Hv]]].
    + eapply Forall_impl; [| exact Hrest]. intros b Hb. cbn in Hb. lia.
    + exists o'. split; [exact Ho' |]. split; [lia |].
      intros i. rewrite Hv. subst o. rewrite add_prefix_nth by assumption.
      cbn [map Rsum fold_right]. fold (Rsum (map (fun b => nth i b 0) arrays)).
      lra.
Qed.

Lemma fold_max_attained (l : list nat) :
  forall m, In (fold_left Nat.max l m) (m :: l).
Proof.
  induction l as [| x l IH]; intros m; cbn [fold_left]; [now left |].
  destruct (IH (Nat.max m x)) as [H | H].
  - destruct (Nat.max_spec m x) as [[_ Hmx] | [_ Hmx]]; rewrite Hmx in *.
    + right. now left.
    + now left.
  - right. now right.
Qed.

(** X14: [overlay] sums its buffers sample by sample, a shorter buffer
    counting as zero past its end.  For at least one buffer the result is
    as long as the longest of them and sample [i] is the sum of the
    samples [i] the buffers have; with no buffer at all it raises. *)
Theorem overlay_sums_with_padding :
  overlay [] = Raise ValueError /\
  (forall (a0 : list R) (rest : list (list R)),
      exists out,
        overlay (a0 :: rest) = Ok out /\
        (forall a, In a (a0 :: rest) -> (length a <= length out)%nat) /\
        (exists a, In a (a0 :: rest) /\ length a = length out) /\
        forall i,
          nth i out 0 = Rsum (map (fun a => nth i a 0) (a0 :: rest))).
Proof.
  split; [reflexivity |].
  intros a0 rest. unfold overlay. rewrite zeros_ok by lia. rewrite Nat2Z.id.
  set (n := fold_left Nat.max (map (@length R) rest) (length a0)).
  assert (Hall : Forall (fun a => (length a <= n)%nat) (a0 :: rest)).
  { constructor.
    - apply fold_max_ge_init.
    - rewrite Forall_forall. intros b Hb.
      apply fold_max_ge_In. now apply in_map. }
  destruct (overlay_fold_value (a0 :: rest) (repeat 0 n)) as [o [Ho [Hl Hv]]].
  { now rewrite repeat_length. }
  rewrite repeat_length in Hl.
  exists o. split; [exact Ho |].
  split; [| split].
  - intros a Ha. rewrite Hl. rewrite Forall_forall in Hall. now apply Hall.
  - rewrite Hl. destruct (fold_max_attained (map (@length R) rest) (length a0))
      as [H | H].
    + exists a0. split; [now left | exact H].
    + apply in_map_iff in H. destruct H as [b [Hb Hin]].
      exists b. split; [now right | exact Hb].
  - intros i. rewrite Hv. rewrite nth_repeat. lra.
Qed.

Lemma overlay_sums_with_padding_witness :
  exists out,
    overlay ([1; 2; 3] :: [[10]]) = Ok out /\
    (forall a, In a ([1; 2; 3] :: [[10]]) -> (length a <= length out)%nat) /\
    (exists a, In a ([1; 2; 3] :: [[10]]) /\ length a = length out) /\
    forall i,
      nth i out 0 = Rsum (map (fun a => nth i a 0) ([1; 2; 3] :: [[10]])).
Proof.
  apply (proj2 overlay_sums_with_padding [1; 2; 3] [[10]]).
Defined.

(** ** The written file *)

Lemma int16_bytes_roundtrip (v : Z) :
  (-32768 <= v <= 32767)%Z ->
  exists lo hi,
    int16_bytes v = [lo; hi] /\
    (0 <= lo < 256)%Z /\ (0 <= hi < 256)%Z /\
    int16_of_bytes lo hi = v.
Proof.
  intros Hv. unfold int16_bytes.
  set (u := (v mod 65536)%Z).
  assert (Hu : (0 <= u < 65536)%Z) by (subst u; apply Z.mod_pos_bound; lia).
  exists (Z.land u 255), (Z.shiftr u 8).
  change 255%Z with (Z.ones 8).
  rewrite Z.land_ones by lia. rewrite Z.shiftr_div_pow2 by lia.
  change (2 ^ 8)%Z with 256%Z.
  split; [reflexivity |].
  split; [apply Z.mod_pos_bound; lia |].
  split; [split; [apply Z.div_pos; lia | apply Z.div_lt_upper_bound; lia] |].
  unfold int16_of_bytes.
  replace (u mod 256 + 256 * (u / 256))%Z with u
    by (rewrite (Z.div_mod u 256) at 1; lia).
  destruct (Z.ltb_spec u 32768) as [Hlt | Hge].
  - subst u. destruct (Z_lt_le_dec v 0) as [Hneg | Hpos].
    + replace (v mod 65536)%Z with (v + 65536)%Z in Hlt; [lia |].
      apply Z.mod_unique with (-1)%Z; lia.
    + apply Z.mod_small. lia.
  - subst u. destruct (Z_lt_le_dec v 0) as [Hneg | Hpos].
    + replace (v mod 65536)%Z with (v + 65536)%Z; [lia |].
      apply Z.mod_unique with (-1)%Z; lia.
    + rewrite Z.mod_small in Hge by lia. lia.
Qed.

Lemma frames_roundtrip_helper (pcm : list Z) :
  Forall (fun v => (-32768 <= v <= 32767)%Z) pcm ->
  length (flat_map int16_bytes pcm) = (2 * length pcm)%nat /\
  Forall (fun b => (0 <= b < 256)%Z) (flat_map int16_bytes pcm) /\
  decode_frames (flat_map int16_bytes pcm) = pcm.
Proof.
  induction 1 as [| v pcm Hv _ IH]; [repeat split; constructor |].
  destruct IH as (Hlen & Hbytes & Hdec).
  destruct (int16_bytes_roundtrip v Hv) as (lo & hi & Hb & Hlo & Hhi & Hback).
  cbn [flat_map]. rewrite Hb. cbn [app length decode_frames].
  split; [lia |].
  split; [repeat (constructor; [assumption |]); exact Hbytes |].
  now rewrite Hback, Hdec.
Qed.

(** X15: the sample bytes round-trip.  For 16-bit samples, [tobytes] as
    modelled by [int16_bytes] writes two bytes of 0..255 per sample, low
    byte first, and reading them back as little-endian two's complement
    returns the samples. *)
Theorem frames_roundtrip (pcm : list Z) :
  Forall (fun v => (-32768 <= v <= 32767)%Z) pcm ->
  length (flat_map int16_bytes pcm) = (2 * length pcm)%nat /\
  Forall (fun b => (0 <= b < 256)%Z) (flat_map int16_bytes pcm) /\
  decode_frames (flat_map int16_bytes pcm) = pcm.
Proof.
  intros H. now apply frames_roundtrip_helper.
Qed.

Lemma frames_roundtrip_witness :
  length (flat_map int16_bytes [0; -1; 26868; -26868]%Z)
  = (2 * length [0; -1; 26868; -26868]%Z)%nat /\
  Forall (fun b => (0 <= b < 256)%Z) (flat_map int16_bytes [0; -1; 26868; -26868]%Z) /\
  decode_frames (flat_map int16_bytes [0; -1; 26868; -26868]%Z)
  = [0; -1; 26868; -26868]%Z.
Proof.
  apply (frames_roundtrip [0; -1; 26868; -26868]%Z).
  repeat (constructor; [lia |]). constructor.
Defined.

Lemma save_pcm_range (samples : list R) (pcm : list Z) :
  save_pcm samples = Ok pcm ->
  length pcm = length samples /\
  Forall (fun v => (-26868 <= v <= 26868)%Z) pcm.
Proof.
  unfold save_pcm. destruct (np.max (map Rabs samples)) as [p |] eqn:Hmax;
    [| discriminate].
  cbn [bind]. destruct (peak_spec samples p Hmax) as [Hall _].
  destruct (Rlt_dec 0 p) as [Hp | Hp]; intros H; injection H as <-.
  - split; [now rewrite !length_map |].
    rewrite map_map, Forall_forall. intros v Hv.
    apply in_map_iff in Hv. destruct Hv as [x [<- Hx]].
    destruct (quantise_sample x p Hp (Hall x Hx)) as [-> [Hb _]]. lia.
  - split; [now rewrite length_map |].
    rewrite Forall_forall. intros v Hv.
    apply in_map_iff in Hv. destruct Hv as [x [<- Hx]].
    assert (x = 0).
    { pose proof (Hall x Hx) as H1. pose proof (Rabs_pos x) as H2.
      assert (H3 : Rabs x = 0) by lra.
      unfold Rabs in H3. destruct (Rcase_abs x); lra. }
    subst x. rewrite Rmult_0_l, clip_inside by lra.
    rewrite astype_int16_inside by (rewrite Rabs_R0; lra).
    rewrite (py_int_eq 0 0) by (simpl; lra). lia.
Qed.

(** With the directory made and the file written whole, [Fs.save] is
    [save]: the same error, or the same file added. *)
Lemma Fs_save_agrees (filename : string) (samples : list R)
    (d : Fs.dir) (dk : disk) :
  Fs.mkdir_ok d = true ->
  Fs.can_open d filename = writable dk filename ->
  Fs.can_write d filename = true ->
  match save filename samples dk with
  | Raise e => Fs.save filename samples d = (d, Raise e)
  | Ok dk' =>
      exists w,
        files dk' = (filename, w) :: files dk /\
        Fs.save filename samples d = (Fs.put d filename (Fs.Complete w), Ok tt)
  end.
Proof.
  intros Hm Ho Hw. unfold save, Fs.save. rewrite Hm. cbn [negb].
  destruct (save_pcm samples) as [pcm | e]; cbn [bind]; [| reflexivity].
  rewrite Ho, Hw. destruct (writable dk filename); cbn [negb].
  - eexists. split; reflexivity.
  - reflexivity.
Qed.

(** X16: [save] fails in the order of its statements.  When the output
    directory cannot be made the call raises [OSError] whatever the
    buffer, an empty one included.  With the directory made, an empty
    buffer raises [ValueError] before any file is opened; a non-empty
    buffer under a name that cannot be opened raises [OSError] and adds
    nothing; under a name that opens but does not take its frames it
    raises [OSError] and leaves a truncated file, which is what a reader
    then finds under that name; otherwise it adds one mono, 16-bit,
    44100 Hz file of two bytes per sample whose frames read back as the
    quantised samples, all within 26868 in magnitude. *)
Theorem save_fails_in_statement_order
    (filename : string) (samples : list R) (d : Fs.dir) :
  (Fs.mkdir_ok d = false ->
     Fs.save filename samples d = (d, Raise OSError)) /\
  (Fs.mkdir_ok d = true -> samples = [] ->
     Fs.save filename samples d = (d, Raise ValueError)) /\
  (Fs.mkdir_ok d = true -> samples <> [] ->
     Fs.can_open d filename = false ->
     Fs.save filename samples d = (d, Raise OSError)) /\
  (Fs.mkdir_ok d = true -> samples <> [] ->
     Fs.can_open d filename = true -> Fs.can_write d filename = false ->
     Fs.save filename samples d
     = (Fs.put d filename Fs.Truncated, Raise OSError) /\
     Fs.lookup (Fs.entries (fst (Fs.save filename samples d))) filename
     = Some Fs.Truncated) /\
  (Fs.mkdir_ok d = true -> samples <> [] ->
     Fs.can_open d filename = true -> Fs.can_write d filename = true ->
     exists pcm w,
       save_pcm samples = Ok pcm /\
       Fs.save filename samples d
       = (Fs.put d filename (Fs.Complete w), Ok tt) /\
       nchannels w = 1%Z /\ sampwidth w = 2%Z /\ framerate w = 44100%Z /\
       length (frames w) = (2 * length samples)%nat /\
       decode_frames (frames w) = pcm /\
       Forall (fun v => (-26868 <= v <= 26868)%Z) pcm).
Proof.
  unfold Fs.save.
  split; [| split; [| split; [| split]]].
  - intros ->. reflexivity.
  - intros -> ->. reflexivity.
  - intros -> Hne Ho. destruct (save_pcm_ok samples Hne) as [pcm ->].
    now rewrite Ho.
  - intros -> Hne Ho Hw. destruct (save_pcm_ok samples Hne) as [pcm ->].
    rewrite Ho, Hw. cbn [negb fst Fs.put Fs.entries Fs.lookup].
    now rewrite String.eqb_refl.
  - intros -> Hne Ho Hw. destruct (save_pcm_ok samples Hne) as [pcm Hpcm].
    destruct (save_pcm_range samples pcm Hpcm) as [Hlen Hrange].
    assert (H16 : Forall (fun v => (-32768 <= v <= 32767)%Z) pcm)
      by (eapply Forall_impl; [| exact Hrange]; cbn beta; intros; lia).
    destruct (frames_roundtrip_helper pcm H16) as (Hfl & _ & Hdec).
    exists pcm. eexists. split; [exact Hpcm |].
    rewrite Hpcm, Ho, Hw. cbn [negb].
    split; [reflexivity |]. cbn [nchannels sampwidth framerate frames].
    repeat split; try assumption. lia.
Qed.

Lemma save_fails_in_statement_order_witness :
  let no_dir := {| Fs.mkdir_ok := false; Fs.can_open := fun _ => true;
                   Fs.can_write := fun _ => true; Fs.entries := [] |} in
  let locked := {| Fs.mkdir_ok := true; Fs.can_open := fun _ => false;
                   Fs.can_write := fun _ => true; Fs.entries := [] |} in
  let full := {| Fs.mkdir_ok := true; Fs.can_open := fun _ => true;
                 Fs.can_write := fun _ => false; Fs.entries := [] |} in
  let fresh := {| Fs.mkdir_ok := true; Fs.can_open := fun _ => true;
                  Fs.can_write := fun _ => true; Fs.entries := [] |} in
  let name := "a.wav"%string in
  Fs.save name [] no_dir = (no_dir, Raise OSError) /\
  Fs.save name [] locked = (locked, Raise ValueError) /\
  Fs.save name [1; -2] locked = (locked, Raise OSError) /\
  (Fs.save name [1; -2] full = (Fs.put full name Fs.Truncated, Raise OSError) /\
   Fs.lookup (Fs.entries (fst (Fs.save name [1; -2] full))) name
   = Some Fs.Truncated) /\
  (exists pcm w,
      save_pcm [1; -2] = Ok pcm /\
      Fs.save name [1; -2] fresh
      = (Fs.put fresh name (Fs.Complete w), Ok tt) /\
      nchannels w = 1%Z /\ sampwidth w = 2%Z /\ framerate w = 44100%Z /\
      length (frames w) = 4%nat /\
      decode_frames (frames w) = pcm /\
      Forall (fun v => (-26868 <= v <= 26868)%Z) pcm).
Proof.
  intros no_dir locked full fresh name.
  split; [| split; [| split; [| split]]].
  - now apply (proj1 (save_fails_in_statement_order name [] no_dir)).
  - now apply (proj1 (proj2 (save_fails_in_statement_order name [] locked))).
  - apply (proj1 (proj2 (proj2
             (save_fails_in_statement_order name [1; -2] locked))));
      [reflexivity | discriminate | reflexivity].
  - apply (proj1 (proj2 (proj2 (proj2
             (save_fails_in_statement_order name [1; -2] full)))));
      [reflexivity | discriminate | reflexivity | reflexivity].
  - apply (proj2 (proj2 (proj2 (proj2
             (save_fails_in_statement_order name [1; -2] fresh)))));
      [reflexivity | discriminate | reflexivity | reflexivity].
Defined.

(** ** Reverb: silence, pre-delay and unclamped delays *)

Lemma fold_raise {X : Type} (step : list R -> X -> result (list R))
    (xs : list X) (e : exn) :
  fold_left (fun acc x => out <- acc ;; step out x) xs (Raise e) = Raise e.
Proof. induction xs as [| x xs IH]; [reflexivity | exact IH]. Qed.

Lemma fold_result_invariant {X : Type} (step : list R -> X -> result (list R))
    (P : list R -> Prop) (Q : X -> Prop) (xs : list X) :
  (forall x out o, Q x -> P out -> step out x = Ok o -> P o) ->
  Forall Q xs ->
  forall out out',
    P out ->
    fold_left (fun acc x => out <- acc ;; step out x) xs (Ok out) = Ok out' ->
    P out'.
Proof.
  intros Hstep. induction 1 as [| x xs Hx _ IH]; intros out out' HP Hfold.
  - cbn in Hfold. now injection Hfold as <-.
  - cbn [fold_left bind] in Hfold.
    destruct (step out x) as [o | e] eqn:Hs.
    + apply (IH o out'); [eapply Hstep; eassumption | exact Hfold].
    + rewrite fold_raise in Hfold. discriminate.
Qed.

Lemma nth_all_zero (l : list R) (i : nat) :
  Forall (fun v => v = 0) l -> nth i l 0 = 0.
Proof.
  intros H. revert i. induction H as [| x t Hx _ IH]; intros i;
    destruct i; cbn [nth]; auto.
Qed.

Lemma getitem_all_zero (buf : list R) (pos : Z) (v : R) :
  Forall (fun x => x = 0) buf -> getitem buf pos = Ok v -> v = 0.
Proof.
  intros Hz. unfold getitem.
  destruct ((_ <? 0)%Z || (_ <=? _)%Z); [discriminate |].
  intros H. injection H as <-. now apply nth_all_zero.
Qed.

Lemma In_firstn_list {A : Type} (n : nat) (l : list A) (x : A) :
  In x (firstn n l) -> In x l.
Proof.
  intros H. rewrite <- (firstn_skipn n l). apply in_or_app. now left.
Qed.

Lemma In_skipn_list {A : Type} (n : nat) (l : list A) (x : A) :
  In x (skipn n l) -> In x l.
Proof.
  intros H. rewrite <- (firstn_skipn n l). apply in_or_app. now right.
Qed.

Lemma setitem_all_zero (buf buf' : list R) (pos : Z) (v : R) :
  Forall (fun x => x = 0) buf -> v = 0 ->
  setitem buf pos v = Ok buf' -> Forall (fun x => x = 0) buf'.
Proof.
  intros Hz Hv. unfold setitem.
  destruct ((_ <? 0)%Z || (_ <=? _)%Z); [discriminate |].
  intros H. injection H as <-.
  rewrite Forall_forall in *. intros x Hx.
  apply in_app_or in Hx. destruct Hx as [Hx | [Hx | Hx]].
  - apply Hz. eapply In_firstn_list. exact Hx.
  - now subst.
  - apply Hz.
    apply (In_skipn_list
             (S (Z.to_nat (if (pos <? 0)%Z
                           then (pos + Z.of_nat (length buf))%Z else pos)))).
    exact Hx.
Qed.

Lemma comb_loop_zero (damping fb : R) (delay : Z) (sig : list R) :
  Forall (fun x => x = 0) sig ->
  forall (buf : list R) (filt : R) (pos : Z) (cb : list R),
    Forall (fun x => x = 0) buf -> filt = 0 ->
    comb_loop damping fb delay sig buf filt pos = Ok cb ->
    Forall (fun x => x = 0) cb.
Proof.
  induction 1 as [| x t Hx _ IH]; intros buf filt pos cb Hbuf Hf Hcb.
  - cbn in Hcb. injection Hcb as <-. constructor.
  - cbn [comb_loop] in Hcb.
    destruct (getitem buf pos) as [v |] eqn:Hg; [| discriminate].
    pose proof (getitem_all_zero _ _ _ Hbuf Hg) as Hv.
    cbn [bind] in Hcb.
    destruct (setitem buf pos _) as [buf' |] eqn:Hs; [| discriminate].
    cbn [bind] in Hcb.
    destruct (py_imod (pos + 1) delay) as [pos' |]; [| discriminate].
    cbn [bind] in Hcb.
    destruct (comb_loop damping fb delay t buf' _ pos') as [cb' |] eqn:Hrec;
      [| discriminate].
    cbn [bind] in Hcb. injection Hcb as <-.
    constructor; [exact Hv |].
    eapply IH; [| | exact Hrec].
    + eapply setitem_all_zero; [exact Hbuf | | exact Hs]. subst. ring.
    + subst. ring.
Qed.

Lemma allpass_loop_prefix (delay : Z) (out : list R) :
  forall (buf : list R) (pos : Z) (m : nat) (ap : list R),
    Forall (fun x => x = 0) buf ->
    (forall i, (i < m)%nat -> nth i out 0 = 0) ->
    allpass_loop delay out buf pos = Ok ap ->
    forall i, (i < m)%nat -> nth i ap 0 = 0.
Proof.
  induction out as [| x t IH]; intros buf pos m ap Hbuf Hout Hap i Hi.
  - cbn in Hap. injection Hap as <-. now destruct i.
  - destruct m as [| m]; [lia |].
    cbn [allpass_loop] in Hap.
    destruct (getitem buf pos) as [bv |] eqn:Hg; [| discriminate].
    pose proof (getitem_all_zero _ _ _ Hbuf Hg) as Hbv.
    assert (Hx : x = 0) by (apply (Hout 0%nat); lia).
    cbn [bind] in Hap.
    destruct (setitem buf pos _) as [buf' |] eqn:Hs; [| discriminate].
    cbn [bind] in Hap.
    destruct (py_imod (pos + 1) delay) as [pos' |]; [| discriminate].
    cbn [bind] in Hap.
    destruct (allpass_loop delay t buf' pos') as [ap' |] eqn:Hrec;
      [| discriminate].
    cbn [bind] in Hap. injection Hap as <-.
    destruct i as [| i]; [cbn; subst; ring |].
    cbn [nth]. apply (IH buf' pos' m ap'); [| | exact Hrec | lia].
    + eapply setitem_all_zero; [exact Hbuf | | exact Hs]. subst. ring.
    + intros j Hj. apply (Hout (S j)). lia.
Qed.

Lemma setitem_value (a : list R) (i : Z) (v : R) :
  (0 <= i < Z.of_nat (length a))%Z ->
  setitem a i v = Ok (firstn (Z.to_nat i) a ++ v :: skipn (S (Z.to_nat i)) a).
Proof.
  intros Hi. unfold setitem.
  destruct (Z.ltb_spec i 0); [lia |].
  destruct (Z.ltb_spec i 0); [lia |].
  destruct (Z.leb_spec (Z.of_nat (length a)) i); [lia | reflexivity].
Qed.

Lemma firstn_app_exact {A : Type} (w r : list A) :
  firstn (length w) (w ++ r) = w.
Proof.
  induction w as [| x w IH]; [reflexivity |].
  cbn [length app firstn]. now rewrite IH.
Qed.

Lemma skipn_S_app {A : Type} (w : list A) (v : A) (r : list A) :
  skipn (S (length w)) (w ++ v :: r) = r.
Proof.
  induction w as [| x w IH]; [reflexivity |].
  cbn [length app]. exact IH.
Qed.

(** A comb reads its buffer one full turn behind: from an empty delay line
    its first [delay] outputs are zero, whatever the input. *)
Lemma comb_loop_prefix (damping fb : R) (delay : Z) (sig : list R) :
  forall (w : list R) (k : nat) (filt : R) (cb : list R),
    Z.of_nat (length w + k) = delay ->
    comb_loop damping fb delay sig (w ++ repeat 0 k) filt (Z.of_nat (length w))
    = Ok cb ->
    forall i, (i < k)%nat -> nth i cb 0 = 0.
Proof.
  induction sig as [| x t IH]; intros w k filt cb Hd Hcb i Hi.
  - cbn in Hcb. injection Hcb as <-. now destruct i.
  - destruct k as [| k]; [lia |].
    cbn [comb_loop] in Hcb.
    assert (Hlen : length (w ++ repeat 0 (S k)) = (length w + S k)%nat)
      by now rewrite length_app, repeat_length.
    assert (Hr : (0 <= Z.of_nat (length w) < Z.of_nat (length w + S k))%Z)
      by lia.
    rewrite <- Hlen in Hr.
    rewrite getitem_ok in Hcb by exact Hr.
    rewrite Nat2Z.id in Hcb.
    rewrite app_nth2, Nat.sub_diag in Hcb by lia.
    cbn [repeat nth bind] in Hcb.
    rewrite setitem_value in Hcb by exact Hr.
    rewrite Nat2Z.id in Hcb.
    rewrite firstn_app_exact, skipn_S_app in Hcb.
    cbn [bind] in Hcb.
    rewrite py_imod_ok in Hcb by lia. cbn [bind] in Hcb.
    destruct (comb_loop damping fb delay t _ _ _) as [cb' |] eqn:Hrec;
      [| discriminate].
    cbn [bind] in Hcb. injection Hcb as <-.
    destruct i as [| i]; [reflexivity |].
    cbn [nth].
    set (v := x + (0 * (1 - damping) + filt * damping) * fb) in Hrec.
    assert (Hlv : length (w ++ [v]) = (length w + 1)%nat)
      by (rewrite length_app; reflexivity).
    assert (Hpos : ((Z.of_nat (length w) + 1) mod delay)%Z
                   = Z.of_nat (length w + 1))
      by (rewrite Z.mod_small by lia; lia).
    rewrite Hpos, <- Hlv in Hrec.
    replace (w ++ v :: repeat 0 k) with ((w ++ [v]) ++ repeat 0 k) in Hrec
      by (now rewrite <- app_assoc).
    eapply (IH _ k); [| exact Hrec | lia].
    rewrite Hlv. lia.
Qed.

Lemma nth_combine_add (a : list R) :
  forall b, length a = length b ->
  forall i,
    nth i (map (fun p => fst p + snd p) (combine a b)) 0
    = nth i a 0 + nth i b 0.
Proof.
  induction a as [| x a IH]; intros b Hl i.
  - destruct b; [| discriminate]. destruct i; cbn; lra.
  - destruct b as [| y b]; [discriminate |].
    destruct i as [| i]; [reflexivity |].
    cbn [combine map nth]. apply IH. cbn in Hl. lia.
Qed.

Lemma comb_step_length (sig : list R) (damping fb : R) (delay : Z)
    (out o : list R) :
  (0 < delay)%Z -> length out = length sig ->
  (buf <- np.zeros delay ;;
   cb <- comb_loop damping fb delay sig buf 0.0 0 ;;
   np.iadd out cb) = Ok o ->
  exists cb,
    comb_loop damping fb delay sig (repeat 0 (Z.to_nat delay)) 0.0 0 = Ok cb /\
    length cb = length sig /\
    o = map (fun p => fst p + snd p) (combine out cb).
Proof.
  intros Hd Hlen Hstep. rewrite zeros_ok in Hstep by lia. cbn [bind] in Hstep.
  destruct (comb_loop_ok damping fb delay Hd sig
              (repeat 0 (Z.to_nat delay)) 0.0 0%Z) as [cb [Hcb Hl]];
    [rewrite repeat_length; lia | lia |].
  rewrite Hcb in Hstep. cbn [bind] in Hstep.
  unfold np.iadd in Hstep. rewrite Hlen, Hl, Nat.eqb_refl in Hstep.
  injection Hstep as <-. exists cb. repeat split; assumption.
Qed.

Lemma Forall_repeat_zero (k : nat) : Forall (fun x : R => x = 0) (repeat 0 k).
Proof.
  rewrite Forall_forall. intros x Hx. now apply repeat_spec in Hx.
Qed.

(** The tail of [reverb] after the comb bank: if the summed comb outputs
    are zero on their first [m] samples, the result is the dry signal
    times [1 - wet] there. *)
Lemma reverb_dry_prefix (m : nat) (sig : list R) (room wet damping : R) :
  0 <= room ->
  (forall out1,
      fold_left
        (fun acc delay =>
           out <- acc ;;
           buf <- np.zeros delay ;;
           cb <- comb_loop damping (0.55 + 0.40 * room) delay sig buf 0.0 0 ;;
           np.iadd out cb)
        (comb_delays room)
        (Ok (repeat 0 (Z.to_nat (Z.of_nat (length sig))))) = Ok out1 ->
      forall i, (i < m)%nat -> nth i out1 0 = 0) ->
  exists out,
    reverb sig room wet damping = Ok out /\
    length out = length sig /\
    forall i, (i < m)%nat -> (i < length sig)%nat ->
      nth i out 0 = nth i sig 0 * (1 - wet).
Proof.
  intros Hr Hbank. unfold reverb. rewrite zeros_ok by lia.
  destruct (comb_bank_ok sig damping (0.55 + 0.40 * room) (comb_delays room)
              (comb_delays_positive room Hr)
              (repeat 0 (Z.to_nat (Z.of_nat (length sig)))))
    as [o1 [Ho1 Hl1]].
  { rewrite repeat_length. lia. }
  pose proof (Hbank o1 Ho1) as Hz1.
  rewrite Ho1. cbn [bind].
  destruct (allpass_chain_ok ap_delays ap_delays_positive o1) as [o2 [Ho2 Hl2]].
  assert (Hz2 : forall i, (i < m)%nat -> nth i o2 0 = 0).
  { apply (fold_result_invariant
             (fun out delay => buf <- np.zeros delay ;; allpass_loop delay out buf 0)
             (fun out => forall i, (i < m)%nat -> nth i out 0 = 0)
             (fun delay => (0 < delay)%Z)
             ap_delays) with (out := o1);
      [| exact ap_delays_positive | exact Hz1 | exact Ho2].
    intros delay out o Hd Hout Hstep.
    rewrite zeros_ok in Hstep by lia. cbn [bind] in Hstep.
    eapply allpass_loop_prefix; [| exact Hout | exact Hstep].
    apply Forall_repeat_zero. }
  rewrite Ho2. cbn [bind].
  unfold np.add. rewrite broadcast_same_length by (rewrite !length_map; lia).
  eexists. split; [reflexivity |].
  split; [rewrite length_map, length_combine, !length_map; lia |].
  intros i Hi Hlt.
  rewrite nth_combine_add by (rewrite !length_map; lia).
  rewrite (nth_map_lt _ _ _ 0) by assumption.
  rewrite (nth_map_lt _ _ _ 0) by (rewrite length_map; lia).
  rewrite (nth_map_lt _ _ _ 0) by lia.
  rewrite Hz2 by assumption. unfold Rdiv. ring.
Qed.

Lemma comb_delays_ordered (room : R) :
  0 <= room ->
  Forall (fun delay =>
            (0 < delay)%Z /\
            (Z.to_nat (py_int (0.0297 * IZR SR * (0.9 + 0.2 * room)))
             <= Z.to_nat delay)%nat)
    (comb_delays room).
Proof.
  intros Hr.
  pose proof (comb_delays_positive room Hr) as Hpos.
  unfold comb_delays in *. unfold SR in *.
  inversion Hpos as [| ? ? H1 Hp1]; subst.
  inversion Hp1 as [| ? ? H2 Hp2]; subst.
  inversion Hp2 as [| ? ? H3 Hp3]; subst.
  inversion Hp3 as [| ? ? H4 _]; subst.
  assert (Hmono : forall c, 0.0297 <= c ->
             (py_int (0.0297 * 44100 * (0.9 + 0.2 * room))
              <= py_int (c * 44100 * (0.9 + 0.2 * room)))%Z).
  { intros c Hc. rewrite !py_int_nonneg by nra. apply Zfloor_le. nra. }
  assert (Ha : 0.0297 <= 0.0371) by lra. pose proof (Hmono _ Ha) as Ma.
  assert (Hb : 0.0297 <= 0.0411) by lra. pose proof (Hmono _ Hb) as Mb.
  assert (Hc : 0.0297 <= 0.0437) by lra. pose proof (Hmono _ Hc) as Mc.
  constructor; [split; [exact H1 | lia] |].
  constructor; [split; [exact H2 | lia] |].
  constructor; [split; [exact H3 | lia] |].
  constructor; [split; [exact H4 | lia] |].
  constructor.
Qed.

(** X17: the pre-delay of the reverb.  For [room >= 0] the shortest comb
    delay [d1 = int (0.0297 * SR * (0.9 + 0.2 * room))] is at least 1178
    samples, and on the first [d1] samples nothing wet has arrived yet:
    sample [i] of [reverb] is the dry sample times [1 - wet]. *)
Theorem reverb_predelay (sig : list R) (room wet damping : R) :
  0 <= room ->
  let d1 := py_int (0.0297 * IZR SR * (0.9 + 0.2 * room)) in
  (1178 <= d1)%Z /\
  exists out,
    reverb sig room wet damping = Ok out /\
    length out = length sig /\
    forall i, (i < Z.to_nat d1)%nat -> (i < length sig)%nat ->
      nth i out 0 = nth i sig 0 * (1 - wet).
Proof.
  intros Hr d1. split.
  - subst d1. apply py_int_lub; unfold SR; simpl; nra.
  - apply reverb_dry_prefix; [exact Hr |].
    intros out1 Hfold.
    apply (fold_result_invariant
             (fun out delay =>
                buf <- np.zeros delay ;;
                cb <- comb_loop damping (0.55 + 0.40 * room) delay sig buf 0.0 0 ;;
                np.iadd out cb)
             (fun out => length out = length sig /\
                         forall i, (i < Z.to_nat d1)%nat -> nth i out 0 = 0)
             (fun delay => (0 < delay)%Z /\ (Z.to_nat d1 <= Z.to_nat delay)%nat)
             (comb_delays room)) with (out := repeat 0 (Z.to_nat (Z.of_nat (length sig))));
      [| now apply comb_delays_ordered | | exact Hfold].
    + intros delay out o [Hd Hm] [Hlen Hz] Hstep.
      destruct (comb_step_length sig damping _ delay out o Hd Hlen Hstep)
        as [cb [Hcb [Hl ->]]].
      split; [rewrite length_map, length_combine; lia |].
      intros i Hi. rewrite nth_combine_add by lia.
      rewrite Hz by assumption.
      rewrite (comb_loop_prefix damping (0.55 + 0.40 * room) delay sig
                 [] (Z.to_nat delay) 0.0 cb); [lra | cbn; lia | exact Hcb | lia].
    + split; [rewrite repeat_length; lia |].
      intros i _. apply nth_repeat.
Qed.

Lemma reverb_predelay_witness :
  let d1 := py_int (0.0297 * IZR SR * (0.9 + 0.2 * 0.25)) in
  (1178 <= d1)%Z /\
  exists out,
    reverb [1; 2; 3] 0.25 0.22 0.50 = Ok out /\
    length out = length [1; 2; 3] /\
    forall i, (i < Z.to_nat d1)%nat -> (i < length [1; 2; 3])%nat ->
      nth i out 0 = nth i [1; 2; 3] 0 * (1 - 0.22).
Proof.
  apply (reverb_predelay [1; 2; 3] 0.25 0.22 0.50). lra.
Defined.

(** X18: the reverb makes no sound of its own.  For [room >= 0], any
    [wet] and any [damping], a silent buffer comes back silent. *)
Theorem reverb_of_silence (n : nat) (room wet damping : R) :
  0 <= room ->
  reverb (repeat 0 n) room wet damping = Ok (repeat 0 n).
Proof.
  intros Hr.
  destruct (reverb_dry_prefix n (repeat 0 n) room wet damping Hr)
    as [out [Hout [Hlen Hv]]].
  - intros out1 Hfold.
    apply (fold_result_invariant
             (fun out delay =>
                buf <- np.zeros delay ;;
                cb <- comb_loop damping (0.55 + 0.40 * room) delay
                        (repeat 0 n) buf 0.0 0 ;;
                np.iadd out cb)
             (fun out => length out = length (repeat 0 n) /\
                         forall i, (i < n)%nat -> nth i out 0 = 0)
             (fun delay => (0 < delay)%Z)
             (comb_delays room))
      with (out := repeat 0 (Z.to_nat (Z.of_nat (length (repeat 0 n)))));
      [| now apply comb_delays_positive | | exact Hfold].
    + intros delay out o Hd [Hl Hz] Hstep.
      destruct (comb_step_length (repeat 0 n) damping _ delay out o Hd Hl Hstep)
        as [cb [Hcb [Hlc ->]]].
      split; [rewrite length_map, length_combine; lia |].
      intros i Hi. rewrite nth_combine_add by lia.
      rewrite Hz by assumption.
      rewrite (nth_all_zero cb); [lra |].
      eapply comb_loop_zero; [| | | exact Hcb].
      * apply Forall_repeat_zero.
      * apply Forall_repeat_zero.
      * lra.
    + split; [rewrite !repeat_length; lia |].
      intros i _. apply nth_repeat.
  - rewrite Hout. f_equal.
    rewrite repeat_length in Hlen.
    apply (nth_ext _ _ 0 0); [now rewrite repeat_length |].
    intros i Hi. rewrite Hlen in Hi.
    rewrite Hv by (rewrite ?repeat_length; assumption).
    rewrite nth_repeat. ring.
Qed.

Lemma reverb_of_silence_witness :
  reverb (repeat 0 (Z.to_nat 1102)) 0.25 0.22 0.50
  = Ok (repeat 0 (Z.to_nat 1102)).
Proof.
  apply (reverb_of_silence (Z.to_nat 1102) 0.25 0.22 0.50). lra.
Defined.

(** X19: the comb delays are not clamped.  A [room] so low that the first
    delay [0.0297 * SR * (0.9 + 0.2 * room)] truncates to zero makes
    [reverb] raise [IndexError] on any non-empty buffer (the delay line
    has no cell to read), and one that makes it [-1] or less raises
    [ValueError] on every buffer (numpy refuses the negative length). *)
Theorem reverb_delays_not_clamped (sig : list R) (room wet damping : R) :
  (-1 < 0.0297 * IZR SR * (0.9 + 0.2 * room) < 1 ->
   sig <> [] ->
   reverb sig room wet damping = Raise IndexError)
  /\ (0.0297 * IZR SR * (0.9 + 0.2 * room) <= -1 ->
      reverb sig room wet damping = Raise ValueError).
Proof.
  split.
  - intros Hd Hne.
    assert (H0 : py_int (0.0297 * IZR SR * (0.9 + 0.2 * room)) = 0%Z).
    { destruct (Rle_dec 0 (0.0297 * IZR SR * (0.9 + 0.2 * room))) as [Hp | Hn].
      - apply py_int_eq; [exact Hp |]. simpl. lra.
      - apply py_int_small_negative. lra. }
    unfold reverb, comb_delays. rewrite H0, zeros_ok by lia.
    destruct sig as [| x t]; [contradiction |].
    cbn [fold_left bind]. rewrite (zeros_ok 0) by lia.
    cbn [bind Z.to_nat repeat comb_loop].
    replace (getitem [] 0) with (@Raise R IndexError) by reflexivity.
    cbn [bind]. now rewrite !fold_raise || reflexivity.
  - intros Hd.
    assert (Hneg : (py_int (0.0297 * IZR SR * (0.9 + 0.2 * room)) < 0)%Z)
      by (pose proof (py_int_le_minus_one _ Hd); lia).
    unfold reverb, comb_delays. rewrite zeros_ok by lia.
    cbn [fold_left bind]. unfold np.zeros at 1.
    rewrite full_negative by exact Hneg. cbn [bind]. reflexivity.
Qed.

Lemma reverb_delays_not_clamped_witness :
  reverb [1; 2; 3] (-4.5) 0.3 0.45 = Raise IndexError
  /\ reverb [1; 2; 3] (-5) 0.3 0.45 = Raise ValueError.
Proof.
  split.
  - apply (proj1 (reverb_delays_not_clamped [1; 2; 3] (-4.5) 0.3 0.45));
      [unfold SR; lra | discriminate].
  - apply (proj2 (reverb_delays_not_clamped [1; 2; 3] (-5) 0.3 0.45)).
    unfold SR. lra.
Defined.

(** ** Every recipe renders *)

Lemma sweep_note_returns
    (freq_start freq_end dur attack decay_t sustain release amp : R) :
  0 <= dur -> 0 <= attack -> 0 <= decay_t -> 0 <= sustain -> 0 <= release ->
  exists b,
    sweep_note freq_start freq_end dur attack decay_t sustain release amp = Ok b
    /\ length b = Z.to_nat (_n dur).
Proof.
  intros Hd Ha Hdt Hs Hr. unfold sweep_note.
  rewrite linspace_ok by now apply _n_nonneg.
  cbn [bind].
  destruct (adsr_returns
              (map sin
                 (_phase
                    (map (fun ti => freq_start + (freq_end - freq_start) * ti)
                       (np.linspace_list 0 1 (_n dur) false))))
              attack decay_t sustain release Ha Hdt Hs Hr)
    as [e [-> Hle]].
  cbn [bind]. eexists. split; [reflexivity |].
  rewrite scale_length, Hle, length_map, _phase_length, length_map,
    linspace_list_length. reflexivity.
Qed.

Lemma fm_pad_returns (carrier_hz dur mod_ratio mod_depth : R) :
  0 <= dur ->
  exists b,
    fm_pad carrier_hz dur mod_ratio mod_depth = Ok b
    /\ length b = Z.to_nat (_n dur).
Proof.
  intros Hd. pose proof (_n_nonneg dur Hd) as Hn.
  unfold fm_pad. rewrite linspace_ok by assumption. cbn [bind].
  rewrite full_ok by assumption. cbn [bind].
  unfold np.add. rewrite broadcast_same_length
    by (rewrite length_map, !_phase_length, !length_map,
          linspace_list_length, repeat_length; reflexivity).
  cbn [bind]. eexists. split; [reflexivity |].
  rewrite length_map, length_map, length_combine, length_map,
    !_phase_length, !length_map, linspace_list_length, repeat_length. lia.
Qed.

Lemma lowpass_fast_returns (sig : list R) (cutoff_hz : R) :
  0 < cutoff_hz ->
  exists out, lowpass_fast sig cutoff_hz = Ok out /\ length out = length sig.
Proof.
  intros Hc. rewrite lowpass_fast_closed by assumption.
  eexists. split; [reflexivity | apply lowpass_loop_length].
Qed.

Lemma noise_pink_returns {G : Generator} (d : R) (g : gen) :
  0 <= d ->
  exists b g', noise_pink d g = Ok (b, g') /\ length b = Z.to_nat (_n d).
Proof.
  intros Hd. rewrite noise_pink_ok by now apply _n_nonneg.
  do 2 eexists. split; [reflexivity |].
  now rewrite pink_loop_length, uniform_draws_length.
Qed.

Lemma sine_returns (f d : R) :
  0 <= d -> exists b, sine f d = Ok b /\ length b = Z.to_nat (_n d).
Proof.
  intros Hd. eexists. split; [apply sine_ok; now apply _n_nonneg |].
  now rewrite length_map, _const_phase_length.
Qed.

Lemma triangle_returns (f d : R) :
  0 <= d -> exists b, triangle f d = Ok b /\ length b = Z.to_nat (_n d).
Proof.
  intros Hd. unfold triangle.
  rewrite _const_phase_ok by now apply _n_nonneg.
  cbn [bind]. eexists. split; [reflexivity |].
  now rewrite length_map, _const_phase_length.
Qed.

Lemma soft_square_returns (f d : R) :
  0 <= d -> exists b, soft_square f d = Ok b /\ length b = Z.to_nat (_n d).
Proof.
  intros Hd. unfold soft_square.
  rewrite _const_phase_ok by now apply _n_nonneg.
  cbn [bind].
  destruct (_bl_square_length (_phase (repeat f (Z.to_nat (_n d)))) 8)
    as [o [Ho Hl]].
  exists o. split; [exact Ho |]. now rewrite Hl, _const_phase_length.
Qed.

Lemma silence_returns (d : R) :
  0 <= d -> exists b, silence d = Ok b /\ length b = Z.to_nat (_n d).
Proof.
  intros Hd. unfold silence. rewrite zeros_ok by now apply _n_nonneg.
  eexists. split; [reflexivity | apply repeat_length].
Qed.

Lemma np_add_returns (a b : list R) :
  length a = length b ->
  exists out, np.add a b = Ok out /\ length out = length a.
Proof.
  intros Hl. unfold np.add. rewrite broadcast_same_length by assumption.
  eexists. split; [reflexivity |].
  rewrite length_map, length_combine. lia.
Qed.

Lemma slice_update_returns {A B : Type} (f : A -> B -> A)
    (a : list A) (lo hi : Z) (v : list B) :
  (0 <= lo)%Z -> hi = (lo + Z.of_nat (length v))%Z ->
  (hi <= Z.of_nat (length a))%Z ->
  exists a', slice_update f a lo hi v = Ok a' /\ length a' = length a.
Proof.
  intros Hlo Hhi Hle.
  assert (H : exists a', slice_update f a lo hi v = Ok a').
  { unfold slice_update, slice_bounds.
    destruct (Z.ltb_spec lo 0); [lia |].
    destruct (Z.ltb_spec hi 0); [lia |].
    replace (Z.to_nat (Z.min hi (Z.of_nat (length a))
                       - Z.min lo (Z.of_nat (length a))))
      with (length v) by lia.
    rewrite Nat.eqb_refl. eexists. reflexivity. }
  destruct H as [a' H]. exists a'. split; [exact H |].
  eapply slice_update_length. exact H.
Qed.

Lemma lay_pads_returns (seq : list R) (pad_start : Z) (p1 p2 : list R) :
  (0 <= pad_start)%Z -> length p2 = length p1 ->
  exists full,
    lay_pads seq pad_start p1 p2 = Ok full /\
    (length seq <= length full)%nat.
Proof.
  intros Hp Hl. unfold lay_pads.
  set (total := Z.max (Z.of_nat (length seq))
                      (pad_start + Z.of_nat (length p1))).
  rewrite zeros_ok by lia. cbn [bind].
  assert (H0 : length (repeat 0 (Z.to_nat total)) = Z.to_nat total)
    by apply repeat_length.
  destruct (slice_update_returns Rplus (repeat 0 (Z.to_nat total)) 0
              (Z.of_nat (length seq)) seq) as [f1 [-> H1]]; try lia.
  cbn [bind].
  destruct (slice_update_returns Rplus f1 pad_start
              (pad_start + Z.of_nat (length p1)) p1) as [f2 [-> H2]]; try lia.
  cbn [bind].
  destruct (slice_update_returns Rplus f2 pad_start
              (pad_start + Z.of_nat (length p2)) p2) as [f3 [-> H3]]; try lia.
  exists f3. split; [reflexivity | lia].
Qed.

Lemma _n_pos_nat (d : R) : 1 <= IZR SR * d -> (0 < Z.to_nat (_n d))%nat.
Proof. intros Hd. pose proof (_n_positive d Hd). lia. Qed.

Lemma nonempty_of_length (l : list R) : (0 < length l)%nat -> l <> [].
Proof. intros H ->. cbn in H. lia. Qed.

Ltac render_step :=
  cbn [bind];
  match goal with
  | |- context [fm_note ?f ?d ?a ?b ?c ?e ?g ?h ?i ?j] =>
      let x := fresh "b" in let H := fresh "Hlen" in
      destruct (fm_note_ok f d a b c e g h i j) as [x [-> H]]; try lra
  | |- context [sweep_note ?f ?fe ?d ?a ?b ?c ?e ?amp] =>
      let x := fresh "b" in let H := fresh "Hlen" in
      destruct (sweep_note_returns f fe d a b c e amp) as [x [-> H]]; try lra
  | |- context [fm_tone ?f ?d ?a ?b ?c] =>
      let x := fresh "b" in let H := fresh "Hlen" in
      destruct (fm_tone_ok f d a b c) as [x [-> H]]; try lra
  | |- context [fm_pad ?f ?d ?a ?b] =>
      let x := fresh "b" in let H := fresh "Hlen" in
      destruct (fm_pad_returns f d a b) as [x [-> H]]; try lra
  | |- context [noise_pink ?d ?g] =>
      let x := fresh "pk" in let g' := fresh "g" in let H := fresh "Hlen" in
      destruct (noise_pink_returns d g) as [x [g' [-> H]]]; try lra
  | |- context [sine ?f ?d] =>
      let x := fresh "b" in let H := fresh "Hlen" in
      destruct (sine_returns f d) as [x [-> H]]; try lra
  | |- context [triangle ?f ?d] =>
      let x := fresh "b" in let H := fresh "Hlen" in
      destruct (triangle_returns f d) as [x [-> H]]; try lra
  | |- context [soft_square ?f ?d] =>
      let x := fresh "b" in let H := fresh "Hlen" in
      destruct (soft_square_returns f d) as [x [-> H]]; try lra
  | |- context [silence ?d] =>
      let x := fresh "b" in let H := fresh "Hlen" in
      destruct (silence_returns d) as [x [-> H]]; try lra
  | |- context [adsr ?s ?a ?b ?c ?e] =>
      let x := fresh "e" in let H := fresh "Hlen" in
      destruct (adsr_returns s a b c e) as [x [-> H]]; try lra
  | |- context [overlay (?a0 :: ?rest)] =>
      let x := fresh "ov" in let H := fresh "Hlen" in
      destruct (overlay_ok a0 rest) as [x [-> H]]
  | |- context [lowpass_fast ?s ?c] =>
      let x := fresh "lp" in let H := fresh "Hlen" in
      destruct (lowpass_fast_returns s c) as [x [-> H]]; try lra
  | |- context [light_reverb ?s ?w] =>
      let x := fresh "rv" in let H := fresh "Hlen" in
      unfold light_reverb;
      destruct (reverb_returns s 0.25 w 0.50) as [x [-> H]]; try lra
  | |- context [hall_reverb ?s ?w] =>
      let x := fresh "rv" in let H := fresh "Hlen" in
      unfold hall_reverb;
      destruct (reverb_returns s 0.55 w 0.35) as [x [-> H]]; try lra
  end;
  cbn [bind concat].

Ltac render_done d :=
  do 2 eexists; split; [reflexivity |]; apply nonempty_of_length;
  cbn [List.concat map fold_left] in *;
  rewrite ?length_app, ?scale_length in *;
  assert (0 < Z.to_nat (_n d))%nat by (apply _n_pos_nat; unfold SR; lra);
  cbn [length] in *; lia.

Lemma sfx_correct_ok {G : Generator} : renders sfx_correct.
Proof.
  intros g. unfold sfx_correct. cbv beta zeta.
  repeat render_step. render_done 0.13.
Qed.

Lemma sfx_wrong_ok {G : Generator} : renders sfx_wrong.
Proof.
  intros g. unfold sfx_wrong. cbv beta zeta.
  repeat render_step. render_done 0.28.
Qed.

Lemma guarded_add_returns (out : list R) (pad : Z) (v : list R) :
  (0 <= pad)%Z ->
  exists o,
    (if (pad + Z.of_nat (length v) <=? Z.of_nat (length out))%Z
     then slice_update Rplus out pad (pad + Z.of_nat (length v)) v
     else Ok out) = Ok o
    /\ length o = length out.
Proof.
  intros Hp.
  destruct (Z.leb_spec (pad + Z.of_nat (length v)) (Z.of_nat (length out))).
  - apply slice_update_returns; lia.
  - exists out. now split.
Qed.

Ltac add_step :=
  match goal with
  | |- context [np.add ?a ?b] =>
      let x := fresh "mix" in let H := fresh "Hlen" in
      destruct (np_add_returns a b) as [x [-> H]];
      [rewrite ?scale_length, ?length_map, ?_phase_length, ?length_map,
         ?linspace_list_length in *; congruence |]
  end;
  cbn [bind concat].

Lemma sfx_click_ok {G : Generator} : renders sfx_click.
Proof.
  intros g. unfold sfx_click. cbv beta zeta.
  repeat render_step. add_step.
  repeat render_step. render_done 0.065.
Qed.

Lemma sfx_hit_enemy_ok {G : Generator} : renders sfx_hit_enemy.
Proof.
  intros g. unfold sfx_hit_enemy. cbv beta zeta.
  repeat render_step. render_done 0.09.
Qed.

Lemma sfx_hit_player_ok {G : Generator} : renders sfx_hit_player.
Proof.
  intros g. unfold sfx_hit_player. cbv beta zeta.
  repeat render_step. render_done 0.16.
Qed.

Lemma sfx_chest_open_ok {G : Generator} : renders sfx_chest_open.
Proof.
  intros g. unfold sfx_chest_open. cbv beta zeta.
  repeat render_step.
  assert (Hn : (0 <= _n 0.14)%Z) by (apply _n_nonneg; lra).
  match goal with
  | |- context [slice_update Rplus ?o ?lo _ ?v] =>
      destruct (guarded_add_returns o lo v) as [out [-> Hout]]; [lia |]
  end.
  repeat render_step. render_done 0.14.
Qed.

Lemma sfx_battle_start_ok {G : Generator} : renders sfx_battle_start.
Proof.
  intros g. unfold sfx_battle_start. cbv beta zeta.
  repeat render_step. render_done 0.22.
Qed.

Ltac pads_step :=
  match goal with
  | |- context [lay_pads ?s ?p ?a ?b] =>
      let x := fresh "full" in let H := fresh "Hlen" in
      destruct (lay_pads_returns s p a b) as [x [-> H]];
      [ | rewrite ?scale_length in *; congruence | ]
  end.

Lemma sfx_victory_ok {G : Generator} : renders sfx_victory.
Proof.
  intros g. unfold sfx_victory. cbv beta zeta.
  repeat render_step.
  assert ((0 <= _n 0.10)%Z) by (apply _n_nonneg; lra).
  assert ((0 <= _n 0.030)%Z) by (apply _n_nonneg; lra).
  assert ((0 <= _n 0.09)%Z) by (apply _n_nonneg; lra).
  assert ((0 <= _n 0.018)%Z) by (apply _n_nonneg; lra).
  pads_step; [lia |].
  repeat render_step. render_done 0.10.
Qed.

Lemma sfx_boss_intro_ok {G : Generator} : renders sfx_boss_intro.
Proof.
  intros g. unfold sfx_boss_intro. cbv beta zeta.
  repeat render_step. render_done 0.50.
Qed.

Lemma sfx_page_turn_ok {G : Generator} : renders sfx_page_turn.
Proof.
  intros g. unfold sfx_page_turn. cbv beta zeta.
  rewrite linspace_ok by (apply _n_nonneg; lra).
  repeat render_step. add_step.
  repeat render_step.
  rewrite zeros_ok by lia. cbn [bind].
  match goal with
  | |- context [slice_update Rplus ?o 0 (Z.of_nat (length ?v)) ?v] =>
      destruct (slice_update_returns Rplus o 0 (Z.of_nat (length v)) v)
        as [o1 [-> Ho1]]; [lia | lia | rewrite repeat_length; lia |]
  end.
  cbn [bind].
  match goal with
  | |- context [slice_update Rplus ?o 0 (Z.of_nat (length ?v)) ?v] =>
      destruct (slice_update_returns Rplus o 0 (Z.of_nat (length v)) v)
        as [o2 [-> Ho2]]; [lia | lia | rewrite Ho1, repeat_length; lia |]
  end.
  repeat render_step.
  rewrite repeat_length in Ho1.
  do 2 eexists; split; [reflexivity |]; apply nonempty_of_length.
  assert (0 < Z.to_nat (_n 0.12))%nat by (apply _n_pos_nat; unfold SR; lra).
  rewrite ?scale_length in *. lia.
Qed.

Lemma sfx_level_up_ok {G : Generator} : renders sfx_level_up.
Proof.
  intros g. unfold sfx_level_up. cbv beta zeta.
  repeat render_step.
  assert ((0 <= _n 0.08)%Z) by (apply _n_nonneg; lra).
  assert ((0 <= _n 0.025)%Z) by (apply _n_nonneg; lra).
  pads_step; [lia |].
  repeat render_step. render_done 0.08.
Qed.

Lemma sfx_npc_talk_ok {G : Generator} : renders sfx_npc_talk.
Proof.
  intros g. unfold sfx_npc_talk. cbv beta zeta.
  repeat render_step. render_done 0.07.
Qed.

Lemma sfx_damage_critical_ok {G : Generator} : renders sfx_damage_critical.
Proof.
  intros g. unfold sfx_damage_critical. cbv beta zeta.
  repeat render_step. render_done 0.22.
Qed.

(** ** The batch on a writable directory *)

Lemma save_writable (filename : string) (samples : list R) (dk : disk) :
  samples <> [] ->
  writable dk filename = true ->
  exists w,
    save filename samples dk
    = Ok {| writable := writable dk; files := (filename, w) :: files dk |}
    /\ well_formed_wav w.
Proof.
  intros Hne Hw. unfold save.
  destruct samples as [| s t]; [contradiction |].
  destruct (save_pcm_ok (s :: t) Hne) as [pcm Hpcm].
  destruct (save_pcm_range (s :: t) pcm Hpcm) as [Hlen _].
  rewrite Hpcm. cbn [bind]. rewrite Hw.
  eexists. split; [reflexivity |].
  unfold well_formed_wav. cbn [nchannels sampwidth framerate frames].
  repeat split.
  destruct pcm as [| v pcm]; [discriminate |].
  cbn [flat_map int16_bytes app]. discriminate.
Qed.

Lemma main_loop_completes {G : Generator} (sounds : list (string * recipe)) :
  Forall (fun entry => renders (snd entry)) sounds ->
  forall (g : gen) (dk : disk),
    (forall name, writable dk name = true) ->
    exists dk' g' new,
      main_loop sounds g dk = (dk', Ok g') /\
      writable dk' = writable dk /\
      files dk' = new ++ files dk /\
      map fst new = rev (map fst sounds) /\
      Forall (fun f => well_formed_wav (snd f)) new.
Proof.
  induction 1 as [| [filename fn] sounds Hfn _ IH]; intros g dk Hw.
  - exists dk, g, []. repeat split. constructor.
  - cbn [main_loop]. cbn [snd] in Hfn.
    destruct (Hfn g) as [out [g1 [-> Hne]]].
    destruct (save_writable filename out dk Hne (Hw filename)) as [w [-> Hwf]].
    destruct (IH g1 {| writable := writable dk;
                       files := (filename, w) :: files dk |})
      as [dk' [g' [new [Hrun [Hwr [Hfiles [Hnames Hall]]]]]]]; [exact Hw |].
    cbn [writable files] in *.
    exists dk', g', (new ++ [(filename, w)]).
    split; [exact Hrun |].
    split; [exact Hwr |].
    split; [rewrite Hfiles, <- app_assoc; reflexivity |].
    split.
    + rewrite map_app, Hnames. reflexivity.
    + apply Forall_app. split; [exact Hall |].
      constructor; [exact Hwf | constructor].
Qed.

Lemma SOUNDS_render {G : Generator} :
  Forall (fun entry => renders (snd entry)) SOUNDS.
Proof.
  unfold SOUNDS.
  repeat (constructor;
          [first [ apply sfx_correct_ok | apply sfx_wrong_ok | apply sfx_click_ok
                 | apply sfx_hit_enemy_ok | apply sfx_hit_player_ok
                 | apply sfx_chest_open_ok | apply sfx_battle_start_ok
                 | apply sfx_victory_ok | apply sfx_boss_intro_ok
                 | apply sfx_page_turn_ok | apply sfx_level_up_ok
                 | apply sfx_npc_talk_ok | apply sfx_damage_critical_ok ] |]).
  constructor.
Qed.

(** X20: on a directory where every name can be written, the batch runs to
    its end whatever the generator: every recipe renders a non-empty
    buffer, and [main] adds the thirteen files of the manifest, in
    manifest order (the latest first), each mono, 16-bit, 44100 Hz and
    non-empty, in front of the files already there. *)
Theorem batch_completes {G : Generator} (dk : disk) :
  (forall name, writable dk name = true) ->
  exists dk' g' new,
    main dk = (dk', Ok g') /\
    files dk' = new ++ files dk /\
    map fst new
    = [ "sfx_damage_critical.wav"; "sfx_npc_talk.wav"; "sfx_level_up.wav";
        "sfx_page_turn.wav"; "sfx_boss_intro.wav"; "sfx_victory.wav";
        "sfx_battle_start.wav"; "sfx_chest_open.wav"; "sfx_hit_player.wav";
        "sfx_hit_enemy.wav"; "sfx_click.wav"; "sfx_wrong.wav";
        "sfx_correct.wav" ]%string /\
    Forall (fun f => well_formed_wav (snd f)) new.
Proof.
  intros Hw.
  destruct (main_loop_completes SOUNDS SOUNDS_render rng dk Hw)
    as [dk' [g' [new [Hrun [_ [Hfiles [Hnames Hall]]]]]]].
  exists dk', g', new. split; [exact Hrun |].
  split; [exact Hfiles |].
  split; [exact Hnames | exact Hall].
Qed.

Lemma batch_completes_witness :
  exists dk' g' new,
    main (G := lcg) fresh_disk = (dk', Ok g') /\
    files dk' = new ++ files fresh_disk /\
    map fst new
    = [ "sfx_damage_critical.wav"; "sfx_npc_talk.wav"; "sfx_level_up.wav";
        "sfx_page_turn.wav"; "sfx_boss_intro.wav"; "sfx_victory.wav";
        "sfx_battle_start.wav"; "sfx_chest_open.wav"; "sfx_hit_player.wav";
        "sfx_hit_enemy.wav"; "sfx_click.wav"; "sfx_wrong.wav";
        "sfx_correct.wav" ]%string /\
    Forall (fun f => well_formed_wav (snd f)) new.
Proof.
  apply (batch_completes (G := lcg) fresh_disk). reflexivity.
Defined.

(** X21: the batch writes in manifest order and nothing else.  Whatever
    the manifest, the generator and the directory, when the loop stops
    the files it added are exactly those of the first [k] entries, the
    latest first, with [k] the whole manifest whenever the loop ends
    without an error; which names can be written is left unchanged. *)
Theorem batch_writes_a_prefix {G : Generator}
    (sounds : list (string * recipe)) (g : gen) (dk : disk) :
  exists k new,
    (k <= length sounds)%nat /\
    files (fst (main_loop sounds g dk)) = new ++ files dk /\
    map fst new = rev (firstn k (map fst sounds)) /\
    writable (fst (main_loop sounds g dk)) = writable dk /\
    (forall g', snd (main_loop sounds g dk) = Ok g' -> k = length sounds).
Proof.
  revert g dk.
  induction sounds as [| [filename fn] sounds IH]; intros g dk.
  - exists 0%nat, []. repeat split; cbn; lia || discriminate || reflexivity.
  - cbn [main_loop].
    destruct (fn g) as [[samples g1] | e].
    + destruct (save filename samples dk) as [dk1 | e] eqn:Hsave.
      * destruct (save_files _ _ _ _ Hsave) as [Hwr [w Hw]].
        destruct (IH g1 dk1) as [k [new [Hk [Hfiles [Hnames [Hwr' Hok]]]]]].
        exists (S k), (new ++ [(filename, w)]).
        split; [cbn [length]; lia |].
        split; [rewrite Hfiles, Hw, <- app_assoc; reflexivity |].
        split; [rewrite map_app, Hnames; reflexivity |].
        split; [congruence |].
        intros g' Hg. cbn [length]. f_equal. now apply (Hok g').
      * exists 0%nat, [].
        repeat split; cbn; try lia; try reflexivity.
        intros g' Hg. discriminate.
    + exists 0%nat, [].
      repeat split; cbn; try lia; try reflexivity.
      intros g' Hg. discriminate.
Qed.

(** ** The sparkle of the chest *)

Lemma _n_of (z : Z) (d : R) :
  (0 <= z)%Z -> IZR z <= IZR SR * d < IZR z + 1 -> _n d = z.
Proof.
  intros Hz Hd. unfold _n. apply py_int_eq; [| exact Hd].
  apply IZR_le in Hz. lra.
Qed.

(** X22: in [sfx_chest_open] the sparkle never sounds.  The melody is
    4 * 6174 + 12348 = 37044 samples long and the sparkle, 13230 samples
    laid from sample 24696 on, would end at 37926; the guard
    [end <= len(out)] fails, so the result is the hall reverb of the five
    notes alone, whatever the generator. *)
Theorem chest_sparkle_is_dropped {G : Generator} (g : gen) :
  exists melody sparkle out,
    chest_melody = Ok melody /\
    length melody = Z.to_nat 37044 /\
    (tr <- triangle (hz C6) 0.30 ;; adsr (scale tr 0.15) 0.025 0.10 0.35 0.18)
    = Ok sparkle /\
    length sparkle = Z.to_nat 13230 /\
    hall_reverb melody 0.38 = Ok out /\
    sfx_chest_open g = Ok (out, g).
Proof.
  assert (H14 : _n 0.14 = 6174%Z) by (apply _n_of; [lia | unfold SR; simpl; lra]).
  assert (H28 : _n 0.28 = 12348%Z) by (apply _n_of; [lia | unfold SR; simpl; lra]).
  assert (H30 : _n 0.30 = 13230%Z) by (apply _n_of; [lia | unfold SR; simpl; lra]).
  unfold sfx_chest_open, chest_melody. cbv beta zeta.
  set (hr := hall_reverb).
  repeat render_step.
  rewrite H14, H28, H30 in *.
  assert (Hm : length (List.concat [b; b0; b1; b2; b3]) = Z.to_nat 37044).
  { cbn [List.concat]. rewrite !length_app. cbn [length]. lia. }
  assert (Hs : length e = Z.to_nat 13230)
    by (rewrite scale_length in *; lia).
  destruct (Z.leb_spec
              (0 + 6174 + 6174 + 6174 + 6174 + Z.of_nat (length e))
              (Z.of_nat (length (List.concat [b; b0; b1; b2; b3]))))
    as [Hle | Hgt]; [lia |].
  cbn [bind]. subst hr.
  destruct (reverb_returns (List.concat [b; b0; b1; b2; b3]) 0.55 0.38 0.35)
    as [out [Hout _]]; [lra |].
  exists (List.concat [b; b0; b1; b2; b3]), e, out.
  unfold hall_reverb. rewrite Hout. cbn [bind].
  repeat split; assumption.
Qed.
